(** * The OData query engine of theagency-db: a shallow embedding

    The development follows [src/odata/parser.js] (lexer, filter compiler,
    clause parsers, query builder), the three resource drivers under
    [src/odata/resources/] and the bearer-token middleware of the OAuth
    module.  JavaScript strings are sequences of UTF-16 code units,
    numbers are the integers a double holds (exact up to 2^53, rounded
    beyond, with the infinities), exceptions are an explicit [Throw]
    result, and the handlers thread the list of database calls they
    issue. *)

From Stdlib Require Import String Ascii List NArith ZArith Bool Lia.
Import ListNotations.

Local Open Scope N_scope.

(* ================================================================== *)
(** * JavaScript strings *)

(** A string is the list of its UTF-16 code units. *)
Definition jsstring := list N.

(** Source-text constants are ASCII; [js] reads one off a Rocq literal. *)
Definition js (s : string) : jsstring :=
  map N_of_ascii (list_ascii_of_string s).

(** [a === b] *)
Fixpoint jsstring_eqb (a b : jsstring) : bool :=
  match a, b with
  | [], [] => true
  | x :: a', y :: b' => (x =? y) && jsstring_eqb a' b'
  | _, _ => false
  end.

(** [!s] is false exactly on the empty string. *)
Definition truthy (s : jsstring) : bool :=
  match s with [] => false | _ :: _ => true end.

(** An option that may be absent ([undefined]); [if (query.$x)] tests both
    presence and non-emptiness. *)
Definition truthy_opt (o : option jsstring) : bool :=
  match o with Some s => truthy s | None => false end.

(** Exceptions. *)
Inductive result (A : Type) : Type :=
| Ok (a : A)
| Throw (message : jsstring).
Arguments Ok {A} a.
Arguments Throw {A} message.

Definition bind {A B} (r : result A) (k : A -> result B) : result B :=
  match r with Ok a => k a | Throw m => Throw m end.

Notation "x <- r ;; k" := (bind r (fun x => k))
  (at level 61, r at next level, right associativity).

(* ------------------------------------------------------------------ *)
(** ** Character classes used by the regular expressions of the source *)

Definition in_range (lo hi c : N) : bool := (lo <=? c) && (c <=? hi).

(** [\d] *)
Definition is_digit (c : N) : bool := in_range 48 57 c.

(** [\s]: the white space and line terminator code points. *)
Definition is_space (c : N) : bool :=
  in_range 9 13 c || (c =? 32) || (c =? 160) || (c =? 5760)
  || in_range 8192 8202 c || (c =? 8232) || (c =? 8233) || (c =? 8239)
  || (c =? 8287) || (c =? 12288) || (c =? 65279).

Definition is_upper (c : N) : bool := in_range 65 90 c.
Definition is_lower (c : N) : bool := in_range 97 122 c.

(** [[a-zA-Z_]] and [[a-zA-Z0-9_]] *)
Definition is_word_start (c : N) : bool := is_lower c || is_upper c || (c =? 95).
Definition is_word_char (c : N) : bool := is_word_start c || is_digit c.

(** [[\d.-]]: what starts a number or a datetime. *)
Definition is_number_start (c : N) : bool := is_digit c || (c =? 46) || (c =? 45).

(** [[\d.eE+-]] *)
Definition is_number_char (c : N) : bool :=
  is_digit c || (c =? 46) || (c =? 101) || (c =? 69) || (c =? 43) || (c =? 45).

(** [[\d.:\-TZ+]] *)
Definition is_datetime_char (c : N) : bool :=
  is_digit c || (c =? 46) || (c =? 58) || (c =? 45) || (c =? 84) || (c =? 90)
  || (c =? 43).

(** [toLowerCase] and [toUpperCase] on the ASCII letters.  The source applies
    them to lexer words (letters, digits, underscore only) and to an
    [$orderby] direction that is compared with ['desc']; on both uses the
    ASCII mapping agrees with the Unicode one. *)
Definition toLowerCase (s : jsstring) : jsstring :=
  map (fun c => if is_upper c then c + 32 else c) s.

Definition toUpperCase (s : jsstring) : jsstring :=
  map (fun c => if is_lower c then c - 32 else c) s.

(** The loop [while (i < s.length && p(s[i])) { value += s[i]; i++ }]:
    the consumed run and what is left. *)
Fixpoint span (p : N -> bool) (s : jsstring) : jsstring * jsstring :=
  match s with
  | [] => ([], [])
  | c :: rest =>
      if p c then let '(run, after) := span p rest in (c :: run, after)
      else ([], s)
  end.

(** [String.prototype.trim]. *)
Fixpoint trimStart (s : jsstring) : jsstring :=
  match s with
  | c :: rest => if is_space c then trimStart rest else s
  | [] => []
  end.

Definition trim (s : jsstring) : jsstring := rev (trimStart (rev (trimStart s))).

(** [s.split(',')]: always at least one piece. *)
Fixpoint split_on (sep : N) (s : jsstring) : list jsstring :=
  match s with
  | [] => [[]]
  | c :: rest =>
      if c =? sep then [] :: split_on sep rest
      else match split_on sep rest with
           | piece :: pieces => (c :: piece) :: pieces
           | [] => [[c]]
           end
  end.

(** [s.split(/\s+/)]: a maximal run of white space is one separator. *)
Fixpoint split_spaces_from (in_sep : bool) (s : jsstring) : list jsstring :=
  match s with
  | [] => [[]]
  | c :: rest =>
      if is_space c then
        if in_sep then split_spaces_from true rest
        else [] :: split_spaces_from true rest
      else match split_spaces_from false rest with
           | piece :: pieces => (c :: piece) :: pieces
           | [] => [[c]]
           end
  end.

Definition split_spaces (s : jsstring) : list jsstring := split_spaces_from false s.

(** [pieces.join(sep)]. *)
Fixpoint join (sep : jsstring) (pieces : list jsstring) : jsstring :=
  match pieces with
  | [] => []
  | [p] => p
  | p :: rest => p ++ sep ++ join sep rest
  end.

(** [needle] occurs in [hay] ([hay.includes(needle)]). *)
Definition occurs_in (needle hay : jsstring) : Prop :=
  exists before after, hay = before ++ needle ++ after.

(* ------------------------------------------------------------------ *)
(** ** Numbers as text *)

(** Most significant digit first; [fuel] bounds the number of digits. *)
Fixpoint digits_of (fuel : nat) (n : N) (acc : jsstring) : jsstring :=
  match fuel with
  | O => acc
  | S fuel' =>
      let acc' := (48 + n mod 10) :: acc in
      if n <? 10 then acc' else digits_of fuel' (n / 10) acc'
  end.

(** [n.toString()] for a non-negative integer: a number has no more decimal
    digits than binary ones. *)
Definition N_toString (n : N) : jsstring :=
  digits_of (S (N.to_nat (N.size n))) n [].

(** [n.toString()] for an integer. *)
Definition Z_toString (z : Z) : jsstring :=
  match z with
  | Zneg p => 45 :: N_toString (Npos p)
  | _ => N_toString (Z.to_N z)
  end.

(* ------------------------------------------------------------------ *)
(** ** Numbers *)

(** The numbers the program computes with are integers held in doubles.  A
    number is given by its value, an integer a double can hold; [2^1024],
    the first value past the largest double, stands for [Infinity] and its
    opposite for [-Infinity]. *)
Definition Infinity : Z := 2 ^ 1024.

(** The Number value for a mathematical integer: the nearest double, a tie
    going to the even significand, and an infinity past the largest
    double.  Integers below [2^53] in size are doubles. *)
Definition roundDouble (z : Z) : Z :=
  let a := Z.abs z in
  if (a <? 2 ^ 53)%Z then z
  else
    let e := (Z.log2 a - 52)%Z in
    let q := (a / 2 ^ e)%Z in
    let r := (a mod 2 ^ e)%Z in
    let half := (2 ^ (e - 1))%Z in
    let m := if (half <? r)%Z || ((r =? half)%Z && Z.odd q) then (q + 1)%Z else q in
    let v := Z.min (m * 2 ^ e) Infinity in
    if (z <? 0)%Z then (- v)%Z else v.

(** The digits [Number::toString] prints for a number [x] of [len] digits
    that is [2^53] or more: the least number of leading digits, the others
    zero, that still read back as [x]; of two such, the nearer to [x], and
    the even one when both are as near.  The result is that number. *)
Fixpoint shortest (fuel : nat) (k : Z) (x len : Z) : Z :=
  match fuel with
  | O => x
  | S fuel' =>
      let p := (10 ^ (len - k))%Z in
      let lo := (x / p * p)%Z in
      let hi := (lo + p)%Z in
      let lo_ok := (roundDouble lo =? x)%Z in
      let hi_ok := (roundDouble hi =? x)%Z in
      if lo_ok && hi_ok then
        if (x - lo <? hi - x)%Z then lo
        else if (hi - x <? x - lo)%Z then hi
        else if Z.even (x / p) then lo else hi
      else if lo_ok then lo
      else if hi_ok then hi
      else shortest fuel' (k + 1)%Z x len
  end.

Fixpoint dropZeros (digits : jsstring) : jsstring :=
  match digits with
  | 48 :: rest => dropZeros rest
  | _ => digits
  end.

(** [String(x)] for a number: the decimal digits of an integer below
    [2^53] in size; from there on the shortest digits that read back as
    [x], written out up to 21 digits and in exponent form beyond. *)
Definition Number_toString (x : Z) : jsstring :=
  let a := Z.abs x in
  if (a <? 2 ^ 53)%Z then Z_toString x
  else
    let sign := if (x <? 0)%Z then js "-" else [] in
    if (Infinity <=? a)%Z then sign ++ js "Infinity"
    else
      let len := Z.of_nat (List.length (N_toString (Z.to_N a))) in
      let digits := N_toString (Z.to_N (shortest (Z.to_nat len) 1 a len)) in
      let n := Z.of_nat (List.length digits) in
      if (n <=? 21)%Z then sign ++ digits
      else
        match rev (dropZeros (rev digits)) with
        | [] => sign ++ digits
        | [d] => sign ++ d :: js "e+" ++ Z_toString (n - 1)
        | d :: more => sign ++ d :: 46 :: more ++ js "e+" ++ Z_toString (n - 1)
        end.

(** The value of a run of digits in a radix (used by [parseInt]). *)
Definition digit_value (c : N) : N :=
  if is_digit c then c - 48
  else if in_range 97 122 c then c - 87
  else if in_range 65 90 c then c - 55
  else 0.

Definition radix_value (radix : N) (digits : jsstring) : N :=
  fold_left (fun acc c => acc * radix + digit_value c) digits 0.

Definition decimal_value (digits : jsstring) : N := radix_value 10 digits.

(* ------------------------------------------------------------------ *)
(** ** Objects used as maps *)

(** A plain object with string keys, in insertion order (no key of the
    program is an array index, so insertion order is enumeration order). *)
Definition jsobject (V : Type) := list (jsstring * V).

(** [o[k]], [undefined] when [k] is not an own property. *)
Fixpoint obj_get {V} (o : jsobject V) (k : jsstring) : option V :=
  match o with
  | [] => None
  | (k', v) :: o' => if jsstring_eqb k' k then Some v else obj_get o' k
  end.

(** [o[k] = v]: overwrite in place or append. *)
Fixpoint obj_set {V} (o : jsobject V) (k : jsstring) (v : V) : jsobject V :=
  match o with
  | [] => [(k, v)]
  | (k', v') :: o' =>
      if jsstring_eqb k' k then (k', v) :: o' else (k', v') :: obj_set o' k v
  end.

(** [Object.assign(target, source)] *)
Definition obj_assign {V} (target source : jsobject V) : jsobject V :=
  fold_left (fun t kv => obj_set t (fst kv) (snd kv)) source target.

(** [Object.keys(o)], [Object.values(o)] *)
Definition obj_keys {V} (o : jsobject V) : list jsstring := map fst o.
Definition obj_values {V} (o : jsobject V) : list V := map snd o.

(** [new Set(Object.keys(o)).has(k)] *)
Definition has_key {V} (o : jsobject V) (k : jsstring) : bool :=
  existsb (jsstring_eqb k) (obj_keys o).

(** [Object.prototype]: the members every plain object inherits.  Each
    member is a function, or for [__proto__] the prototype object itself,
    and so truthy; it is given here by the text it turns into when it is
    used as a property key. *)
Definition Object_prototype : jsobject jsstring :=
  map (fun kv => (js (fst kv), js (snd kv)))
  [("constructor", "function Object() { [native code] }");
   ("__defineGetter__", "function __defineGetter__() { [native code] }");
   ("__defineSetter__", "function __defineSetter__() { [native code] }");
   ("hasOwnProperty", "function hasOwnProperty() { [native code] }");
   ("__lookupGetter__", "function __lookupGetter__() { [native code] }");
   ("__lookupSetter__", "function __lookupSetter__() { [native code] }");
   ("isPrototypeOf", "function isPrototypeOf() { [native code] }");
   ("propertyIsEnumerable", "function propertyIsEnumerable() { [native code] }");
   ("toString", "function toString() { [native code] }");
   ("valueOf", "function valueOf() { [native code] }");
   ("__proto__", "[object Object]");
   ("toLocaleString", "function toLocaleString() { [native code] }")]%string.

(** [o[k]] read on a plain object of strings: the own property when there
    is one, else the member of [Object.prototype] of that name. *)
Definition obj_member (o : jsobject jsstring) (k : jsstring) : option jsstring :=
  match obj_get o k with
  | Some v => Some v
  | None => obj_get Object_prototype k
  end.

(** [o[k] = v] on a plain object: the key [__proto__] runs the inherited
    setter and makes no own property. *)
Definition obj_put {V} (o : jsobject V) (k : jsstring) (v : V) : jsobject V :=
  if jsstring_eqb k (js "__proto__") then o else obj_set o k v.

(** A string-valued expression inside a template literal: [undefined]
    prints as the word. *)
Definition template (o : option jsstring) : jsstring :=
  match o with Some s => s | None => js "undefined" end.

(* ================================================================== *)
(** * The lexer: [tokenizeFilter] *)

(** A token [{ type, value }]: the constructor is the [type], its argument
    the [value].  A number token holds [parseFloat(value)]; the double is
    kept as the text it was read from.  A comma's value is always [","]. *)
Inductive token : Type :=
| TIdentifier (value : jsstring)
| TOperator (value : jsstring)
| TLogical (value : jsstring)
| TFunction (value : jsstring)
| TString (value : jsstring)
| TNumber (text : jsstring)
| TDatetime (value : jsstring)
| TLiteral (value : jsstring)
| TParen (value : jsstring)
| TComma.

Definition quote : N := 39.

(** The inner loop of the string-literal branch, entered after the opening
    quote.  Returns the literal's value and the input from index [i] on when
    the loop is left: at the closing quote, or empty when [i] reached
    [filter.length]. *)
Fixpoint scanString (rest value : jsstring) : jsstring * jsstring :=
  match rest with
  | [] => (value, [])
  | c :: rest1 =>
      if c =? quote then
        match rest1 with
        | c1 :: rest2 =>
            if c1 =? quote then scanString rest2 (value ++ [quote])
            else (value, rest)
        | [] => (value, rest)
        end
      else scanString rest1 (value ++ [c])
  end.

(** [/^\d{4}-\d{2}-\d{2}/.test(remaining)] *)
Definition isDatetime (remaining : jsstring) : bool :=
  match remaining with
  | y1 :: y2 :: y3 :: y4 :: h1 :: m1 :: m2 :: h2 :: d1 :: d2 :: _ =>
      is_digit y1 && is_digit y2 && is_digit y3 && is_digit y4 && (h1 =? 45)
      && is_digit m1 && is_digit m2 && (h2 =? 45) && is_digit d1 && is_digit d2
  | _ => false
  end.

(** [[...].includes(w)] for a list of source constants. *)
Definition word_in (w : jsstring) (ws : list string) : bool :=
  existsb (fun k => jsstring_eqb w (js k)) ws.

Definition operators : list string := ["eq"; "ne"; "gt"; "ge"; "lt"; "le"]%string.
Definition logicals : list string := ["and"; "or"; "not"]%string.
Definition functions : list string := ["contains"; "startswith"; "endswith"]%string.
Definition literals : list string := ["null"; "true"; "false"]%string.

(** Classification of a word after lower-casing. *)
Definition classifyWord (word : jsstring) : token :=
  let lowerWord := toLowerCase word in
  if word_in lowerWord operators then TOperator lowerWord
  else if word_in lowerWord logicals then TLogical lowerWord
  else if word_in lowerWord functions then TFunction lowerWord
  else if word_in lowerWord literals then TLiteral lowerWord
  else TIdentifier word.

(** The main loop.  [rest] is [filter.slice(i)]; every iteration consumes at
    least one code unit, so [fuel] above the length of [rest] is never used
    up ([None] only marks exhausted fuel). *)
Fixpoint tokenizeLoop (fuel : nat) (rest : jsstring) (tokens : list token)
  : option (result (list token)) :=
  match fuel with
  | O => None
  | S fuel' =>
      match rest with
      | [] => Some (Ok tokens)
      | c :: rest1 =>
          if is_space c then tokenizeLoop fuel' rest1 tokens
          else if c =? quote then
            let '(v, at_close) := scanString rest1 [] in
            (* i++ : skip closing quote *)
            tokenizeLoop fuel' (tl at_close) (tokens ++ [TString v])
          else if is_number_start c then
            if isDatetime rest then
              let '(v, after) := span is_datetime_char rest in
              tokenizeLoop fuel' after (tokens ++ [TDatetime v])
            else
              let '(v, after) := span is_number_char rest in
              tokenizeLoop fuel' after (tokens ++ [TNumber v])
          else if (c =? 40) || (c =? 41) then
            tokenizeLoop fuel' rest1 (tokens ++ [TParen [c]])
          else if c =? 44 then
            tokenizeLoop fuel' rest1 (tokens ++ [TComma])
          else if is_word_start c then
            let '(word, after) := span is_word_char rest in
            tokenizeLoop fuel' after (tokens ++ [classifyWord word])
          else
            Some (Throw (js "Unexpected character in filter: " ++ [c]))
      end
  end.

Definition tokenizeFilter (filter : jsstring) : result (list token) :=
  match tokenizeLoop (S (List.length filter)) filter [] with
  | Some r => r
  | None => Throw []
  end.

(* ================================================================== *)
(** * The filter compiler: [parseFilterTokens] and [parseFilter] *)

(** Parameter values handed to the database gateway. *)
Inductive jsvalue : Type :=
| VString (s : jsstring)
| VFloat (text : jsstring)     (* the double [parseFloat(text)] *)
| VInt (z : Z).

(** A compiled fragment [{ sql, params }]. *)
Record fragment : Type := Fragment { sql : jsstring; params : jsobject jsvalue }.

(** The mutable locals of [parseFilterTokens]. *)
Record compiler_state : Type :=
  State { st_sql : jsstring; st_params : jsobject jsvalue; paramIndex : N }.

(** [`filter${paramIndex++}`] *)
Definition paramName (index : N) : jsstring := js "filter" ++ N_toString index.

(** [sql += text] *)
Definition emit (st : compiler_state) (text : jsstring) : compiler_state :=
  State (st_sql st ++ text) (st_params st) (paramIndex st).

(** [const paramName = getNextParamName(); params[paramName] = v;
     sql += `${before}@${paramName}`] *)
Definition bindParam (st : compiler_state) (before : jsstring) (v : jsvalue)
  : compiler_state :=
  let name := paramName (paramIndex st) in
  State (st_sql st ++ before ++ js "@" ++ name)
        (obj_set (st_params st) name v)
        (paramIndex st + 1).

Definition opMap : jsobject jsstring :=
  [(js "eq", js "="); (js "ne", js "!="); (js "gt", js ">");
   (js "ge", js ">="); (js "lt", js "<"); (js "le", js "<=")].

(** SQL text of a [literal] token. *)
Definition literalSql (value : jsstring) : jsstring :=
  if jsstring_eqb value (js "null") then js "NULL"
  else if jsstring_eqb value (js "true") then js "1"
  else if jsstring_eqb value (js "false") then js "0"
  else [].

(** The three [LIKE] patterns; any other function name allocates the
    parameter name and emits nothing. *)
Definition applyFunction (st : compiler_state) (funcName dbField value : jsstring)
  : compiler_state :=
  let like := dbField ++ js " LIKE " in
  if jsstring_eqb funcName (js "contains") then
    bindParam st like (VString (js "%" ++ value ++ js "%"))
  else if jsstring_eqb funcName (js "startswith") then
    bindParam st like (VString (value ++ js "%"))
  else if jsstring_eqb funcName (js "endswith") then
    bindParam st like (VString (js "%" ++ value))
  else State (st_sql st) (st_params st) (paramIndex st + 1).

(** [JSON.stringify] of the only token no branch handles, a comma. *)
Definition commaJson : jsstring :=
  let dq := [34] in
  js "{" ++ dq ++ js "type" ++ dq ++ js ":" ++ dq ++ js "comma" ++ dq ++ js ","
     ++ dq ++ js "value" ++ dq ++ js ":" ++ dq ++ js "," ++ dq ++ js "}".

Definition isParen (t : token) (c : string) : bool :=
  match t with TParen v => jsstring_eqb v (js c) | _ => false end.

(** The token walk.  [tokens] is [tokens.slice(i)]. *)
Fixpoint parseLoop (fieldMap : jsobject jsstring) (tokens : list token)
  (st : compiler_state) : result compiler_state :=
  match tokens with
  | [] => Ok st
  | TIdentifier resoField :: rest =>
      if has_key fieldMap resoField then
        parseLoop fieldMap rest (emit st (template (obj_get fieldMap resoField)))
      else Throw (js "Unknown field: " ++ resoField)
  | TOperator value :: rest =>
      parseLoop fieldMap rest
        (emit st (js " " ++ template (obj_get opMap value) ++ js " "))
  | TLogical value :: rest =>
      parseLoop fieldMap rest (emit st (js " " ++ toUpperCase value ++ js " "))
  | TString value :: rest => parseLoop fieldMap rest (bindParam st [] (VString value))
  | TNumber text :: rest => parseLoop fieldMap rest (bindParam st [] (VFloat text))
  | TDatetime value :: rest => parseLoop fieldMap rest (bindParam st [] (VString value))
  | TLiteral value :: rest => parseLoop fieldMap rest (emit st (literalSql value))
  | TFunction funcName :: rest =>
      match rest with
      | open :: rest1 =>
          if negb (isParen open "(") then Throw (js "Expected ( after " ++ funcName)
          else
            match rest1 with
            | TIdentifier fieldName :: rest2 =>
                if negb (has_key fieldMap fieldName) then
                  Throw (js "Unknown field: " ++ fieldName)
                else
                  match rest2 with
                  | TComma :: rest3 =>
                      match rest3 with
                      | TString value :: rest4 =>
                          match rest4 with
                          | close :: rest5 =>
                              if negb (isParen close ")") then
                                Throw (js "Expected ) after " ++ funcName)
                              else
                                parseLoop fieldMap rest5
                                  (applyFunction st funcName
                                     (template (obj_get fieldMap fieldName)) value)
                          | [] => Throw (js "Expected ) after " ++ funcName)
                          end
                      | _ => Throw (js "Expected string value in " ++ funcName ++ js "()")
                      end
                  | _ => Throw (js "Expected comma in " ++ funcName ++ js "()")
                  end
            | _ => Throw (js "Expected field name in " ++ funcName ++ js "()")
            end
      | [] => Throw (js "Expected ( after " ++ funcName)
      end
  | TParen value :: rest => parseLoop fieldMap rest (emit st value)
  | TComma :: _ => Throw (js "Unexpected token: " ++ commaJson)
  end.

Definition parseFilterTokens (tokens : list token) (fieldMap : jsobject jsstring)
  : result fragment :=
  st <- parseLoop fieldMap tokens (State [] [] 0) ;;
  Ok (Fragment (st_sql st) (st_params st)).

(** [parseFilter]: the empty filter compiles to nothing; every exception is
    re-thrown with the [Invalid $filter: ] prefix. *)
Definition parseFilter (filter : option jsstring) (fieldMap : jsobject jsstring)
  : result fragment :=
  match filter with
  | None | Some [] => Ok (Fragment [] [])
  | Some f =>
      match (tokens <- tokenizeFilter f ;; parseFilterTokens tokens fieldMap) with
      | Ok r => Ok r
      | Throw message => Throw (js "Invalid $filter: " ++ message)
      end
  end.

(* ================================================================== *)
(** * Clause parsers: [parseSelect], [parseOrderBy], [parseExpand] *)

(** A loop or [map] whose body may throw: the first failure wins. *)
Fixpoint mapM {A B} (f : A -> result B) (l : list A) : result (list B) :=
  match l with
  | [] => Ok []
  | x :: rest => y <- f x ;; ys <- mapM f rest ;; Ok (y :: ys)
  end.

Definition parseSelect (select : option jsstring) (fieldMap : jsobject jsstring)
  : result jsstring :=
  if negb (truthy_opt select) then Ok (join (js ", ") (obj_values fieldMap))
  else
    let fields := map trim (split_on 44 (template select)) in
    dbFields <- mapM (fun field =>
                  if negb (has_key fieldMap field) then
                    Throw (js "Invalid field in $select: " ++ field)
                  else Ok (template (obj_get fieldMap field))) fields ;;
    Ok (if (0 <? List.length dbFields)%nat then join (js ", ") dbFields
        else join (js ", ") (obj_values fieldMap)).

(** One comma-separated part of [$orderby]:
    [const [field, direction] = part.trim().split(/\s+/)]. *)
Definition orderByPart (fieldMap : jsobject jsstring) (part : jsstring)
  : result jsstring :=
  let pieces := split_spaces (trim part) in
  let field := hd [] pieces in
  let direction := nth_error pieces 1 in
  if negb (has_key fieldMap field) then
    Throw (js "Invalid field in $orderby: " ++ field)
  else
    let dbField := template (obj_get fieldMap field) in
    let dir :=
      match direction with
      | Some d => if jsstring_eqb (toLowerCase d) (js "desc") then js "DESC" else js "ASC"
      | None => js "ASC"
      end in
    Ok (dbField ++ js " " ++ dir).

Definition parseOrderBy (orderby : option jsstring) (fieldMap : jsobject jsstring)
  : result jsstring :=
  if negb (truthy_opt orderby) then Ok []
  else
    parts <- mapM (orderByPart fieldMap) (split_on 44 (template orderby)) ;;
    Ok (join (js ", ") parts).

Definition parseExpand (expand : option jsstring) (allowedExpansions : list jsstring)
  : result (list jsstring) :=
  if negb (truthy_opt expand) then Ok []
  else
    let expansions := map trim (split_on 44 (template expand)) in
    _ <- mapM (fun exp =>
           if negb (existsb (jsstring_eqb exp) allowedExpansions) then
             Throw (js "Invalid $expand: " ++ exp ++ js ". Allowed: "
                      ++ join (js ", ") allowedExpansions)
           else Ok exp) expansions ;;
    Ok expansions.

(* ================================================================== *)
(** * [parseInt] and the pagination arithmetic *)

Definition is_radix_digit (radix c : N) : bool :=
  if radix =? 16 then is_digit c || in_range 97 102 c || in_range 65 70 c
  else is_digit c.

(** [parseInt(input)] with no radix argument; [None] is [NaN].  White space
    is skipped, a sign is read, [0x]/[0X] selects radix 16, and the longest
    run of digits is read: the result is the Number value for the integer
    they denote.  An absent option is the text [undefined], which has no
    digits. *)
Definition parseInt (input : option jsstring) : option Z :=
  match input with
  | None => None
  | Some inputString =>
      let s := trimStart inputString in
      let '(negative, s) :=
        match s with
        | c :: r => if c =? 45 then (true, r) else if c =? 43 then (false, r) else (false, s)
        | [] => (false, s)
        end in
      let '(radix, s) :=
        match s with
        | z :: x :: r =>
            if (z =? 48) && ((x =? 120) || (x =? 88)) then (16, r) else (10, s)
        | _ => (10, s)
        end in
      let digits := fst (span (is_radix_digit radix) s) in
      match digits with
      | [] => None
      | _ => let n := Z.of_N (radix_value radix digits) in
             Some (roundDouble (if negative then (- n)%Z else n))
      end
  end.

(** [x || d] for a number [x]: [NaN] and zero are falsy. *)
Definition number_or (x : option Z) (d : Z) : Z :=
  match x with
  | Some z => if (z =? 0)%Z then d else z
  | None => d
  end.

(** The raw option map [req.query]: an option given in the request is a
    string, a field is [None] when the option is absent. *)
Record query_options : Type := Query {
  q_top : option jsstring;      (* $top *)
  q_skip : option jsstring;     (* $skip *)
  q_count : option jsstring;    (* $count *)
  q_select : option jsstring;   (* $select *)
  q_filter : option jsstring;   (* $filter *)
  q_orderby : option jsstring;  (* $orderby *)
  q_expand : option jsstring    (* $expand *)
}.

(** [Math.min(Math.max(parseInt(query.$top) || 100, 1), 1000)] *)
Definition query_top (query : query_options) : Z :=
  Z.min (Z.max (number_or (parseInt (q_top query)) 100) 1) 1000.

(** [Math.max(parseInt(query.$skip) || 0, 0)] *)
Definition query_skip (query : query_options) : Z :=
  Z.max (number_or (parseInt (q_skip query)) 0) 0.

(** [query.$count === 'true'] *)
Definition query_count (query : query_options) : bool :=
  match q_count query with
  | Some c => jsstring_eqb c (js "true")
  | None => false
  end.

(* ================================================================== *)
(** * UTF-8 and [URLSearchParams] *)

(** The scalar values of a string: a surrogate pair is one code point, a
    lone surrogate becomes U+FFFD. *)
Fixpoint code_points (s : jsstring) : list N :=
  match s with
  | [] => []
  | c :: rest =>
      if in_range 55296 56319 c then
        match rest with
        | d :: rest' =>
            if in_range 56320 57343 d then
              (65536 + (c - 55296) * 1024 + (d - 56320)) :: code_points rest'
            else 65533 :: code_points rest
        | [] => [65533]
        end
      else if in_range 56320 57343 c then 65533 :: code_points rest
      else c :: code_points rest
  end.

Definition utf8_bytes (cp : N) : list N :=
  if cp <? 128 then [cp]
  else if cp <? 2048 then [192 + cp / 64; 128 + cp mod 64]
  else if cp <? 65536 then
    [224 + cp / 4096; 128 + (cp / 64) mod 64; 128 + cp mod 64]
  else
    [240 + cp / 262144; 128 + (cp / 4096) mod 64; 128 + (cp / 64) mod 64;
     128 + cp mod 64].

(** The UTF-8 bytes of a string. *)
Definition utf8_encode (s : jsstring) : list N := flat_map utf8_bytes (code_points s).

(** The code units of a scalar value. *)
Definition utf16_units (cp : N) : jsstring :=
  if cp <? 65536 then [cp]
  else [55296 + (cp - 65536) / 1024; 56320 + (cp - 65536) mod 1024].

(** A multi-byte sequence under way: the bits read, the number of bytes
    still to come and the range the next one must lie in. *)
Record utf8_pending : Type := Pending {
  code_point : N;
  needed : nat;
  lower : N;
  upper : N
}.

(** The first byte of a sequence: what it gives at once, or the sequence it
    opens. *)
Definition utf8_lead (b : N) : jsstring + utf8_pending :=
  if b <? 128 then inl [b]
  else if in_range 194 223 b then inr (Pending (b - 192) 1 128 191)
  else if in_range 224 239 b then
    inr (Pending (b - 224) 2 (if b =? 224 then 160 else 128)
           (if b =? 237 then 159 else 191))
  else if in_range 240 244 b then
    inr (Pending (b - 240) 3 (if b =? 240 then 144 else 128)
           (if b =? 244 then 143 else 191))
  else inl [65533].

(** The UTF-8 decoder of [buffer.toString()].  A sequence that breaks off
    gives U+FFFD, and decoding starts again at the byte that did not fit. *)
Fixpoint utf8_decode_from (pending : option utf8_pending) (bytes : list N)
  : jsstring :=
  match bytes with
  | [] => match pending with Some _ => [65533] | None => [] end
  | b :: rest =>
      let fresh :=
        match utf8_lead b with
        | inl units => units ++ utf8_decode_from None rest
        | inr opened => utf8_decode_from (Some opened) rest
        end in
      match pending with
      | None => fresh
      | Some p =>
          if in_range (lower p) (upper p) b then
            let cp := code_point p * 64 + (b - 128) in
            match needed p with
            | S (S n) => utf8_decode_from (Some (Pending cp (S n) 128 191)) rest
            | _ => utf16_units cp ++ utf8_decode_from None rest
            end
          else 65533 :: fresh
      end
  end.

Definition utf8_decode (bytes : list N) : jsstring := utf8_decode_from None bytes.

Definition hex_digit (n : N) : N := if n <? 10 then 48 + n else 55 + n.

(** The [application/x-www-form-urlencoded] byte serializer. *)
Definition urlencode_byte (b : N) : jsstring :=
  if b =? 32 then [43]
  else if (b =? 42) || (b =? 45) || (b =? 46) || (b =? 95)
          || is_digit b || is_upper b || is_lower b then [b]
  else [37; hex_digit (b / 16); hex_digit (b mod 16)].

Definition urlencode (s : jsstring) : jsstring :=
  flat_map urlencode_byte (utf8_encode s).

(** [queryParams.toString()] *)
Definition URLSearchParams_toString (queryParams : jsobject jsstring) : jsstring :=
  join (js "&") (map (fun kv => urlencode (fst kv) ++ js "=" ++ urlencode (snd kv))
                     queryParams).

(** [if (value) queryParams.set(name, value)] *)
Definition set_if_truthy (queryParams : jsobject jsstring) (name : string)
  (value : option jsstring) : jsobject jsstring :=
  if truthy_opt value then obj_set queryParams (js name) (template value)
  else queryParams.

(* ================================================================== *)
(** * The query builder: [buildQuery] *)

(** A key handed to [buildQuery]: the route text or an integer. *)
Inductive keyvalue : Type :=
| KeyString (s : jsstring)
| KeyNumber (z : Z).

(** [if (keyValue)] *)
Definition truthy_key (k : option keyvalue) : bool :=
  match k with
  | Some (KeyString s) => truthy s
  | Some (KeyNumber z) => negb (z =? 0)%Z
  | None => false
  end.

Definition key_param (k : keyvalue) : jsvalue :=
  match k with KeyString s => VString s | KeyNumber z => VInt z end.

Record options : Type := Options {
  table : jsstring;
  fieldMap : jsobject jsstring;
  query : query_options;
  keyField : jsstring;
  keyValue : option keyvalue;
  baseUrl : option jsstring;
  baseWhere : option fragment
}.

(** The closure [nextLinkBuilder], with the variables it captures. *)
Definition nextLink (baseUrl : jsstring) (top skip : Z) (query : query_options)
  (totalCount : Z) : option jsstring :=
  if (roundDouble (skip + top) <? totalCount)%Z then
    let nextSkip := roundDouble (skip + top) in
    let queryParams := obj_set [] (js "$top") (Number_toString top) in
    let queryParams := obj_set queryParams (js "$skip") (Number_toString nextSkip) in
    let queryParams := set_if_truthy queryParams "$select" (q_select query) in
    let queryParams := set_if_truthy queryParams "$filter" (q_filter query) in
    let queryParams := set_if_truthy queryParams "$orderby" (q_orderby query) in
    let queryParams := set_if_truthy queryParams "$count" (q_count query) in
    Some (baseUrl ++ js "?" ++ URLSearchParams_toString queryParams)
  else None.

Record plan : Type := Plan {
  dataQuery : jsstring;
  countQuery : option jsstring;
  plan_params : jsobject jsvalue;
  top : Z;
  skip : Z;
  nextLinkBuilder : option (Z -> option jsstring)
}.

(** A line break followed by the four-space indentation of the templates. *)
Definition line : jsstring := 10 :: js "    ".

(** The conditions and parameters of the WHERE clause. *)
Definition buildWhere (o : options) : result (list jsstring * jsobject jsvalue) :=
  let '(whereConditions, ps) :=
    match baseWhere o with
    | Some b =>
        if truthy (sql b) then ([sql b], obj_assign [] (params b)) else ([], [])
    | None => ([], [])
    end in
  if truthy_key (keyValue o) then
    match keyValue o with
    | Some k =>
        Ok (whereConditions
              ++ [template (obj_member (fieldMap o) (keyField o)) ++ js " = @keyValue"],
            obj_set ps (js "keyValue") (key_param k))
    | None => Ok (whereConditions, ps)
    end
  else if truthy_opt (q_filter (query o)) then
    filter <- parseFilter (q_filter (query o)) (fieldMap o) ;;
    if truthy (sql filter) then
      Ok (whereConditions ++ [sql filter], obj_assign ps (params filter))
    else Ok (whereConditions, ps)
  else Ok (whereConditions, ps).

Definition whereClauseOf (whereConditions : list jsstring) : jsstring :=
  if (0 <? List.length whereConditions)%nat then
    js "WHERE " ++ join (js " AND ") whereConditions
  else [].

Definition buildQuery (o : options) : result plan :=
  let top := query_top (query o) in
  let skip := query_skip (query o) in
  let count := query_count (query o) in
  selectFields <- parseSelect (q_select (query o)) (fieldMap o) ;;
  w <- buildWhere o ;;
  let '(whereConditions, ps) := w in
  let whereClause := whereClauseOf whereConditions in
  orderBy <- parseOrderBy (q_orderby (query o)) (fieldMap o) ;;
  let orderByClause :=
    if truthy orderBy then js "ORDER BY " ++ orderBy
    else js "ORDER BY " ++ template (hd_error (obj_values (fieldMap o))) in
  let dataQuery :=
    line ++ js "SELECT " ++ selectFields
    ++ line ++ js "FROM " ++ table o
    ++ line ++ whereClause
    ++ line ++ orderByClause
    ++ line ++ js "OFFSET " ++ Number_toString skip ++ js " ROWS"
    ++ line ++ js "FETCH NEXT " ++ Number_toString top ++ js " ROWS ONLY"
    ++ 10 :: js "  " in
  let countQuery :=
    if count then
      Some (line ++ js "SELECT COUNT(*) as total"
            ++ line ++ js "FROM " ++ table o
            ++ line ++ whereClause
            ++ 10 :: js "  ")
    else None in
  let nextLinkBuilder :=
    if truthy_opt (baseUrl o) then
      Some (nextLink (template (baseUrl o)) top skip (query o))
    else None in
  Ok (Plan dataQuery countQuery ps top skip nextLinkBuilder).

(* ================================================================== *)
(** * SHA-256 ([crypto.createHash('sha256')], FIPS 180-4) *)

Module SHA256.

Definition w32 : N := 4294967296.
Definition add32 (a b : N) : N := (a + b) mod w32.
Definition rotr (n x : N) : N := N.lor (N.shiftr x n) (N.shiftl x (32 - n) mod w32).
Definition not32 (x : N) : N := N.lxor x 4294967295.

Definition Ch (x y z : N) : N := N.lxor (N.land x y) (N.land (not32 x) z).
Definition Maj (x y z : N) : N :=
  N.lxor (N.lxor (N.land x y) (N.land x z)) (N.land y z).
Definition Sigma0 (x : N) : N := N.lxor (N.lxor (rotr 2 x) (rotr 13 x)) (rotr 22 x).
Definition Sigma1 (x : N) : N := N.lxor (N.lxor (rotr 6 x) (rotr 11 x)) (rotr 25 x).
Definition sigma0 (x : N) : N := N.lxor (N.lxor (rotr 7 x) (rotr 18 x)) (N.shiftr x 3).
Definition sigma1 (x : N) : N := N.lxor (N.lxor (rotr 17 x) (rotr 19 x)) (N.shiftr x 10).

Definition K : list N :=
  [0x428a2f98; 0x71374491; 0xb5c0fbcf; 0xe9b5dba5; 0x3956c25b; 0x59f111f1;
   0x923f82a4; 0xab1c5ed5; 0xd807aa98; 0x12835b01; 0x243185be; 0x550c7dc3;
   0x72be5d74; 0x80deb1fe; 0x9bdc06a7; 0xc19bf174; 0xe49b69c1; 0xefbe4786;
   0x0fc19dc6; 0x240ca1cc; 0x2de92c6f; 0x4a7484aa; 0x5cb0a9dc; 0x76f988da;
   0x983e5152; 0xa831c66d; 0xb00327c8; 0xbf597fc7; 0xc6e00bf3; 0xd5a79147;
   0x06ca6351; 0x14292967; 0x27b70a85; 0x2e1b2138; 0x4d2c6dfc; 0x53380d13;
   0x650a7354; 0x766a0abb; 0x81c2c92e; 0x92722c85; 0xa2bfe8a1; 0xa81a664b;
   0xc24b8b70; 0xc76c51a3; 0xd192e819; 0xd6990624; 0xf40e3585; 0x106aa070;
   0x19a4c116; 0x1e376c08; 0x2748774c; 0x34b0bcb5; 0x391c0cb3; 0x4ed8aa4a;
   0x5b9cca4f; 0x682e6ff3; 0x748f82ee; 0x78a5636f; 0x84c87814; 0x8cc70208;
   0x90befffa; 0xa4506ceb; 0xbef9a3f7; 0xc67178f2].

(** The eight working variables, also the chaining value. *)
Record registers : Type :=
  Regs { ra : N; rb : N; rc : N; rd : N; re : N; rf : N; rg : N; rh : N }.

Definition H0 : registers :=
  Regs 0x6a09e667 0xbb67ae85 0x3c6ef372 0xa54ff53a
       0x510e527f 0x9b05688c 0x1f83d9ab 0x5be0cd19.

(** Message padding: a one bit, zeros up to 56 mod 64, the bit length on
    eight bytes. *)
Definition be_bytes (width : nat) (x : N) : list N :=
  map (fun i => (x / 256 ^ N.of_nat i) mod 256) (rev (seq 0 width)).

Definition pad (message : list N) : list N :=
  let len := List.length message in
  let zeros := ((64 - ((len + 9) mod 64)) mod 64)%nat in
  message ++ [128] ++ repeat 0 zeros ++ be_bytes 8 (8 * N.of_nat len).

Definition be_word (bytes : list N) : N :=
  fold_left (fun acc b => acc * 256 + b) bytes 0.

(** Cut a list into pieces of [size]. *)
Fixpoint chunks {A} (fuel size : nat) (l : list A) : list (list A) :=
  match fuel, l with
  | S fuel', _ :: _ => firstn size l :: chunks fuel' size (skipn size l)
  | _, _ => []
  end.

(** The message schedule: [window] holds the sixteen preceding words. *)
Fixpoint schedule (n : nat) (window : list N) : list N :=
  match n with
  | O => []
  | S n' =>
      let w := add32 (add32 (sigma1 (nth 14 window 0)) (nth 9 window 0))
                     (add32 (sigma0 (nth 1 window 0)) (nth 0 window 0)) in
      w :: schedule n' (tl window ++ [w])
  end.

Definition round (r : registers) (kw : N * N) : registers :=
  let t1 := add32 (add32 (add32 (rh r) (Sigma1 (re r))) (Ch (re r) (rf r) (rg r)))
                  (add32 (fst kw) (snd kw)) in
  let t2 := add32 (Sigma0 (ra r)) (Maj (ra r) (rb r) (rc r)) in
  Regs (add32 t1 t2) (ra r) (rb r) (rc r) (add32 (rd r) t1) (re r) (rf r) (rg r).

Definition compress (h : registers) (block : list N) : registers :=
  let w16 := map be_word (chunks 16 4 block) in
  let w := w16 ++ schedule 48 w16 in
  let r := fold_left round (combine K w) h in
  Regs (add32 (ra h) (ra r)) (add32 (rb h) (rb r)) (add32 (rc h) (rc r))
       (add32 (rd h) (rd r)) (add32 (re h) (re r)) (add32 (rf h) (rf r))
       (add32 (rg h) (rg r)) (add32 (rh h) (rh r)).

(** The 32-byte digest. *)
Definition digest (message : list N) : list N :=
  let padded := pad message in
  let h := fold_left compress (chunks (List.length padded) 64 padded) H0 in
  flat_map (be_bytes 4) [ra h; rb h; rc h; rd h; re h; rf h; rg h; rh h].

End SHA256.

(** [buffer.toString('hex')] *)
Definition hex_lower (n : N) : N := if n <? 10 then 48 + n else 87 + n.
Definition toHex (bytes : list N) : jsstring :=
  flat_map (fun b => [hex_lower (b / 16); hex_lower (b mod 16)]) bytes.

(* ================================================================== *)
(** * The Property key codec: [encodeListingKey] *)

(** [buf.readBigUInt64BE(offset)]: two 32-bit halves, each the sum of four
    shifted bytes; out of range when the first or last byte is missing. *)
Definition readBigUInt64BE (buf : list N) (offset : nat) : option N :=
  match skipn offset buf with
  | first :: b1 :: b2 :: b3 :: b4 :: b5 :: b6 :: last :: _ =>
      let hi := first * 2 ^ 24 + b1 * 2 ^ 16 + b2 * 2 ^ 8 + b3 in
      let lo := b4 * 2 ^ 24 + b5 * 2 ^ 16 + b6 * 2 ^ 8 + last in
      Some (N.shiftl hi 32 + lo)
  | _ => None
  end.

(** [null] for the empty key, else the masked digest prefix in decimal.
    The function is total: the digest always has the eight bytes read. *)
Definition encodeListingKey (str : jsstring) : option jsstring :=
  if negb (truthy str) then None
  else
    let hash := SHA256.digest (utf8_encode str) in
    match readBigUInt64BE hash 0 with
    | Some word =>
        let num := N.land word 0x7FFFFFFFFFFFFFFF in
        Some (N_toString num)
    | None => None
    end.

(* ================================================================== *)
(** * Resource drivers *)

(** The database gateway [db.query(sql, params)]: an oracle from the
    statement and its parameters to a recordset, or a rejection.  A handler
    returns its outcome together with the calls it issued, in order. *)
Definition row := jsobject jsvalue.
Definition db_call : Type := jsstring * jsobject jsvalue.
Definition gateway := jsstring -> jsobject jsvalue -> result (list row).

(** What a [get] handler has decided once the data query is answered.
    On a hit the first record goes on to reshaping and the requested
    expansions, which run only then. *)
Inductive get_outcome : Type :=
| Failed (message : jsstring)                      (* next(err) *)
| NotFound (message : jsstring)                    (* res.status(404).json(...) *)
| Found (record : row) (expansions : list jsstring).

(** [if (key.startsWith("'") && key.endsWith("'")) key = key.slice(1, -1)] *)
Definition stripQuotes (key : jsstring) : jsstring :=
  let startsWithQuote := match key with c :: _ => c =? quote | [] => false end in
  let endsWithQuote := match rev key with c :: _ => c =? quote | [] => false end in
  if startsWithQuote && endsWithQuote then removelast (tl key) else key.

(** [`${key}`] for a key. *)
Definition key_toString (k : keyvalue) : jsstring :=
  match k with KeyString s => s | KeyNumber z => Number_toString z end.

(** The part shared by the three [get] handlers after the key is computed:
    build the plan, run the data query, test the recordset. *)
Definition lookup (db : gateway) (setName : string) (o : options) (key : keyvalue)
  (expansions : list jsstring) : get_outcome * list db_call :=
  match buildQuery o with
  | Throw message => (Failed message, [])
  | Ok p =>
      let call := (dataQuery p, plan_params p) in
      match db (dataQuery p) (plan_params p) with
      | Throw message => (Failed message, [call])
      | Ok [] =>
          (NotFound (js setName ++ js " with key '" ++ key_toString key
                       ++ js "' not found"), [call])
      | Ok (record :: _) => (Found record expansions, [call])
      end
  end.

(** The statements a [list] handler hands to [db.query] inside
    [Promise.all]: the data query, and the count query when there is one. *)
Definition listCalls (p : plan) : list db_call :=
  (dataQuery p, plan_params p)
  :: match countQuery p with
     | Some c => [(c, plan_params p)]
     | None => []
     end.

Module Property.

Definition TABLE : jsstring := js "idc_agy.AGY_CMNCMN_VW".
Definition KEY_FIELD : jsstring := js "ListingKey".
Definition ALLOWED_EXPANSIONS : list jsstring := [js "ListAgent"; js "ListOffice"].

Definition fieldMap : jsobject jsstring :=
  map (fun kv => (js (fst kv), js (snd kv)))
  [("ListingKey", "IDCPROPERTYID"); ("ListingId", "IDCMLSNUMBER");
   ("OriginatingSystemName", "MLSBOARD"); ("ListPrice", "IDCLISTPRICE");
   ("StandardStatus", "IDCSTATUS"); ("ListingContractDate", "IDCLISTDATE");
   ("PropertyType", "PROPERTYTYPE"); ("YearBuilt", "YEARBUILT");
   ("BedroomsTotal", "BEDS"); ("BathroomsTotalInteger", "BATHSTOTAL");
   ("LivingArea", "SQFT"); ("LotSizeArea", "LOTSIZE"); ("LotSizeAcres", "ACRES");
   ("UnparsedAddress", "IDCADDRESS"); ("StreetNumber", "STREETNUMBER");
   ("StreetName", "STREETNAME"); ("City", "CITY"); ("StateOrProvince", "STATE");
   ("PostalCode", "ZIPCODE"); ("CountyOrParish", "COUNTY"); ("Country", "COUNTRY");
   ("Latitude", "IDCLATITUDE"); ("Longitude", "IDCLONGITUDE");
   ("PublicRemarks", "IDCREMARKS"); ("ListAgentKey", "IDCLISTAGENTKEY");
   ("ListOfficeKey", "IDCLISTOFFICEKEY"); ("ListingURL", "LISTINGDETAILURL");
   ("ModificationTimestamp", "LASTMODIFIED"); ("PhotoCount", "MLSPHOTOCOUNT");
   ("PhotosChangeTimestamp", "PHOTOMODIFIEDDATE");
   ("_PhotosXML", "PROPERTYPHOTOS")]%string.

(** [host] stands for [`${req.protocol}://${req.get('host')}${req.baseUrl}`]. *)
Definition list (host : jsstring) (query : query_options) : result (list db_call) :=
  _ <- parseExpand (q_expand query) ALLOWED_EXPANSIONS ;;
  p <- buildQuery (Options TABLE fieldMap query KEY_FIELD None
                     (Some (host ++ js "/Property")) None) ;;
  Ok (listCalls p).

(** The route key is used as it stands once the quotes are stripped. *)
Definition get (db : gateway) (routeKey : jsstring) (query : query_options)
  : get_outcome * Datatypes.list db_call :=
  let key := stripQuotes routeKey in
  match parseExpand (q_expand query) ALLOWED_EXPANSIONS with
  | Throw message => (Failed message, [])
  | Ok expansions =>
      lookup db "Property"
        (Options TABLE fieldMap query KEY_FIELD (Some (KeyString key)) None None)
        (KeyString key) expansions
  end.

End Property.

(** [key = parseInt(key) || key] *)
Definition parseIntOrKey (key : jsstring) : keyvalue :=
  match parseInt (Some key) with
  | Some z => if (z =? 0)%Z then KeyString key else KeyNumber z
  | None => KeyString key
  end.

Module Member.

Definition TABLE : jsstring := js "idc_agy.AGY_AGENT".
Definition KEY_FIELD : jsstring := js "MemberKey".

Definition fieldMap : jsobject jsstring :=
  map (fun kv => (js (fst kv), js (snd kv)))
  [("MemberKey", "AGENTKEY"); ("MemberMlsId", "AGYAGENTID");
   ("MemberFirstName", "GIVENNAME"); ("MemberMiddleName", "MIDDLENAME");
   ("MemberLastName", "SURNAME"); ("MemberEmail", "EMAILADDRESS1");
   ("MemberMobilePhone", "MOBILEPHONE"); ("MemberOfficePhone", "BUSINESSPHONE");
   ("MemberAddress1", "STREET"); ("MemberCity", "CITY");
   ("MemberStateOrProvince", "STATE"); ("MemberPostalCode", "ZIPCODE");
   ("MemberStateLicense", "LICENSENO"); ("MemberTitle", "PROFESSIONALTITLE");
   ("MemberComments", "BIOGRAPHY"); ("MemberPhotoURL", "PICTURE");
   ("MemberWebsiteURL", "AGENTPROFILEURL"); ("OfficeKey", "PARENTOFFICE");
   ("ModificationTimestamp", "LASTMODIFIED")]%string.

Definition list (query : query_options) : result (list db_call) :=
  p <- buildQuery (Options TABLE fieldMap query KEY_FIELD None None None) ;;
  Ok (listCalls p).

Definition get (db : gateway) (routeKey : jsstring) (query : query_options)
  : get_outcome * Datatypes.list db_call :=
  let key := parseIntOrKey (stripQuotes routeKey) in
  lookup db "Member" (Options TABLE fieldMap query KEY_FIELD (Some key) None None)
    key [].

End Member.

Module Office.

Definition TABLE : jsstring := js "idc_agy.AGY_OFFICE".
Definition KEY_FIELD : jsstring := js "OfficeKey".

Definition fieldMap : jsobject jsstring :=
  map (fun kv => (js (fst kv), js (snd kv)))
  [("OfficeKey", "OFFICEKEY"); ("OfficeName", "OFFICENAME");
   ("OfficeAddress1", "STREET"); ("OfficeCity", "CITY");
   ("OfficeStateOrProvince", "STATE"); ("OfficePostalCode", "ZIPCODE");
   ("OfficeCountry", "COUNTRY"); ("OfficePhone", "PHONE"); ("OfficeFax", "FAX");
   ("OfficeEmail", "EMAILADDRESS1"); ("OfficeLatitude", "IDCLATITUDE");
   ("OfficeLongitude", "IDCLONGITUDE");
   ("ModificationTimestamp", "LASTMODIFIED")]%string.

Definition list (query : query_options) : result (list db_call) :=
  p <- buildQuery (Options TABLE fieldMap query KEY_FIELD None None None) ;;
  Ok (listCalls p).

Definition get (db : gateway) (routeKey : jsstring) (query : query_options)
  : get_outcome * Datatypes.list db_call :=
  let key := parseIntOrKey (stripQuotes routeKey) in
  lookup db "Office" (Options TABLE fieldMap query KEY_FIELD (Some key) None None)
    key [].

End Office.

(* ================================================================== *)
(** * The bearer-token middleware *)

Module Auth.

(** A row of the token store, as [getToken] returns it. *)
Record token_data : Type := TokenData { clientId : jsstring; expiresAt : Z }.

(** The access-token table, keyed by token. *)
Definition token_store := jsobject token_data.

Inductive store_call : Type :=
| getToken (accessToken : jsstring)
| deleteToken (accessToken : jsstring).

(** [DELETE FROM oauth_tokens WHERE access_token = $1] *)
Definition delete (store : token_store) (accessToken : jsstring) : token_store :=
  filter (fun kv => negb (jsstring_eqb (fst kv) accessToken)) store.

Inductive outcome : Type :=
| Next (client : option jsstring)     (* next(), with [req.clientId] if set *)
| Unauthorized (message : jsstring).  (* res.status(401).json(...) *)

Definition startsWith (s prefix : jsstring) : bool :=
  jsstring_eqb (firstn (List.length prefix) s) prefix.

(** The middleware, given the two configured constants, the request's
    [Authorization] header, the store and [Date.now()].  It returns its
    outcome, the store afterwards and the store calls it made. *)
Definition middleware (CLIENT_ID CLIENT_SECRET authorization : option jsstring)
  (store : token_store) (now : Z) : outcome * token_store * list store_call :=
  if negb (truthy_opt CLIENT_ID) || negb (truthy_opt CLIENT_SECRET) then
    (Next None, store, [])
  else
    match authorization with
    | None =>
        (Unauthorized (js "Missing or invalid Authorization header. Use: Authorization: Bearer <token>"),
         store, [])
    | Some authHeader =>
        if negb (truthy authHeader) || negb (startsWith authHeader (js "Bearer ")) then
          (Unauthorized (js "Missing or invalid Authorization header. Use: Authorization: Bearer <token>"),
           store, [])
        else
          let token := skipn 7 authHeader in
          match obj_get store token with
          | None => (Unauthorized (js "Invalid or expired token"), store, [getToken token])
          | Some tokenData =>
              if (expiresAt tokenData <? now)%Z then
                (Unauthorized (js "Token has expired"), delete store token,
                 [getToken token; deleteToken token])
              else (Next (Some (clientId tokenData)), store, [getToken token])
          end
    end.

(** [router.use(auth.middleware)] in front of the resource routes: the
    route handler runs exactly when the middleware calls [next()]. *)
Definition protected {R} (decision : outcome) (handler : option jsstring -> R)
  : option R :=
  match decision with
  | Next client => Some (handler client)
  | Unauthorized _ => None
  end.

End Auth.

(* ================================================================== *)
(** * Row reshaping: [transformRow] *)

(** [Object.fromEntries(Object.entries(fieldMap).map(([k, v]) => [v, k]))],
    the [reverseFieldMap] of each resource. *)
Definition reverseFieldMap (fieldMap : jsobject jsstring) : jsobject jsstring :=
  fold_left (fun reversed kv => obj_set reversed (snd kv) (fst kv)) fieldMap [].

(** [transformRow(row, reverseFieldMap)]: every column for which
    [reverseFieldMap[dbField]] is truthy is copied under that key, the
    others are dropped.  The key is the RESO name of a mapped column; for a
    column that is not mapped but bears the name of a member of
    [Object.prototype] it is that member. *)
Definition transformRow {V} (row : jsobject V) (reverse : jsobject jsstring)
  : jsobject V :=
  fold_left
    (fun result entry =>
       match obj_member reverse (fst entry) with
       | Some resoField =>
           if truthy resoField then obj_put result resoField (snd entry) else result
       | None => result
       end)
    row [].


(* ================================================================== *)
(** * The token store and the token endpoint *)

(** [tokenStore.js].  A table maps a token (its primary key) to the client
    and the expiry instant; an instant is stored and read back as the same
    number of milliseconds. *)
Module TokenStore.

(** [INSERT ... ON CONFLICT (token) DO UPDATE SET expires_at = $3]: a token
    already stored keeps its client and gets the new expiry. *)
Fixpoint saveToken (table : Auth.token_store) (token clientId : jsstring)
  (expiresAt : Z) : Auth.token_store :=
  match table with
  | [] => [(token, Auth.TokenData clientId expiresAt)]
  | (t, d) :: rest =>
      if jsstring_eqb t token then (t, Auth.TokenData (Auth.clientId d) expiresAt) :: rest
      else (t, d) :: saveToken rest token clientId expiresAt
  end.

(** [SELECT client_id, expires_at ... WHERE token = $1], [null] without a
    row. *)
Definition getToken (table : Auth.token_store) (token : jsstring)
  : option Auth.token_data :=
  obj_get table token.

(** [DELETE ... WHERE token = $1] *)
Definition deleteToken (table : Auth.token_store) (token : jsstring)
  : Auth.token_store :=
  Auth.delete table token.

(** The refresh-token table has the same three statements. *)
Definition saveRefreshToken := saveToken.
Definition getRefreshToken := getToken.
Definition deleteRefreshToken := deleteToken.

(** [DELETE ... WHERE expires_at < $1], run on either table by [cleanup]. *)
Definition purge (table : Auth.token_store) (now : Z) : Auth.token_store :=
  filter (fun row => negb (Auth.expiresAt (snd row) <? now)%Z) table.

(** [cleanup()], with the pool open: both tables are purged at [now]. *)
Definition cleanup (tables : Auth.token_store * Auth.token_store) (now : Z)
  : Auth.token_store * Auth.token_store :=
  (purge (fst tables) now, purge (snd tables) now).

End TokenStore.

(** The token endpoint of the OAuth module: [tokenHandler] and
    [handleRefreshToken]. *)
Module TokenEndpoint.

Definition TOKEN_EXPIRY : Z := 3600.
Definition REFRESH_TOKEN_EXPIRY : Z := 86400 * 30.

(** [req.body], each field absent or a string. *)
Record body : Type := Body {
  grant_type : option jsstring;
  client_id : option jsstring;
  client_secret : option jsstring;
  refresh_token : option jsstring
}.

(** The two tables. *)
Record stores : Type := Stores {
  accessTokens : Auth.token_store;
  refreshTokens : Auth.token_store
}.

(** What the endpoint answers: an error with its status, or the token
    response, whose [token_type] is always [Bearer]. *)
Inductive reply : Type :=
| ErrorReply (status : N) (error error_description : jsstring)
| TokenReply (access_token : jsstring) (expires_in : Z) (refresh_token : jsstring).

(** [a !== b] on values that are a string or [undefined]. *)
Definition differs (a b : option jsstring) : bool :=
  match a, b with
  | Some x, Some y => negb (jsstring_eqb x y)
  | None, None => false
  | _, _ => true
  end.

(** [handleRefreshToken].  [accessToken] is what [generateToken()] returns;
    [now_check] and [now_issue] are the two readings of [Date.now()]. *)
Definition handleRefreshToken (refreshToken : option jsstring)
  (accessToken : jsstring) (now_check now_issue : Z) (st : stores) : reply * stores :=
  if negb (truthy_opt refreshToken) then
    (ErrorReply 400 (js "invalid_request") (js "refresh_token is required"), st)
  else
    let token := template refreshToken in
    match TokenStore.getRefreshToken (refreshTokens st) token with
    | None => (ErrorReply 401 (js "invalid_grant") (js "Invalid refresh token"), st)
    | Some tokenData =>
        if (Auth.expiresAt tokenData <? now_check)%Z then
          (ErrorReply 401 (js "invalid_grant") (js "Refresh token has expired"),
           Stores (accessTokens st)
                  (TokenStore.deleteRefreshToken (refreshTokens st) token))
        else
          let accessExpiresAt := (now_issue + TOKEN_EXPIRY * 1000)%Z in
          (TokenReply accessToken TOKEN_EXPIRY token,
           Stores (TokenStore.saveToken (accessTokens st) accessToken
                     (Auth.clientId tokenData) accessExpiresAt)
                  (refreshTokens st))
    end.

(** [tokenHandler].  [accessToken] and [refreshToken] are the two results of
    [generateToken()]; [now_access] and [now_refresh] the two readings of
    [Date.now()]. *)
Definition tokenHandler (CLIENT_ID CLIENT_SECRET : option jsstring) (b : body)
  (accessToken refreshToken : jsstring) (now_access now_refresh : Z) (st : stores)
  : reply * stores :=
  if match grant_type b with
     | Some g => jsstring_eqb g (js "refresh_token")
     | None => false
     end
  then handleRefreshToken (refresh_token b) accessToken now_access now_refresh st
  else if match grant_type b with
          | Some g => negb (jsstring_eqb g (js "client_credentials"))
          | None => true
          end
  then (ErrorReply 400 (js "unsupported_grant_type")
          (js "Supported grant types: client_credentials, refresh_token"), st)
  else if negb (truthy_opt CLIENT_ID) || negb (truthy_opt CLIENT_SECRET) then
    (ErrorReply 500 (js "server_error")
       (js "OAuth not configured. Set OAUTH_CLIENT_ID and OAUTH_CLIENT_SECRET in .env"),
     st)
  else if differs (client_id b) CLIENT_ID || differs (client_secret b) CLIENT_SECRET then
    (ErrorReply 401 (js "invalid_client") (js "Invalid client credentials"), st)
  else
    let accessExpiresAt := (now_access + TOKEN_EXPIRY * 1000)%Z in
    let refreshExpiresAt := (now_refresh + REFRESH_TOKEN_EXPIRY * 1000)%Z in
    let clientId := template (client_id b) in
    (TokenReply accessToken TOKEN_EXPIRY refreshToken,
     Stores (TokenStore.saveToken (accessTokens st) accessToken clientId accessExpiresAt)
            (TokenStore.saveRefreshToken (refreshTokens st) refreshToken clientId
               refreshExpiresAt)).

End TokenEndpoint.



(* ================================================================== *)
(** * Photos: [parsePhotosXML] *)

(** A literal piece of a pattern tried at the head of [s]: what follows it
    when it is there. *)
Fixpoint literal (text s : jsstring) : option jsstring :=
  match text, s with
  | [], _ => Some s
  | c :: text', d :: s' => if c =? d then literal text' s' else None
  | _ :: _, [] => None
  end.

(** One attempt of [/<URL>([^<]+)<\/URL>/] at the head of [s]: the captured
    group and what follows the match.  The group is greedy, and giving
    characters back never helps: after a shorter group comes a character of
    the group, not the [<] of the closing tag. *)
Definition matchURL (s : jsstring) : option (jsstring * jsstring) :=
  match literal (js "<URL>") s with
  | None => None
  | Some afterOpen =>
      let '(group, afterGroup) := span (fun c => negb (c =? 60)) afterOpen in
      match group with
      | [] => None
      | _ :: _ =>
          match literal (js "</URL>") afterGroup with
          | Some afterClose => Some (group, afterClose)
          | None => None
          end
      end
  end.

(** [while ((match = regex.exec(xml)) !== null) urls.push(match[1])] with
    the global flag: the leftmost match from [lastIndex] on, then on from
    its end.  [s] is the text from [lastIndex]. *)
Fixpoint execLoop (fuel : nat) (s : jsstring) : list jsstring :=
  match fuel with
  | O => []
  | S fuel' =>
      match s with
      | [] => []
      | _ :: rest =>
          match matchURL s with
          | Some (group, after) => group :: execLoop fuel' after
          | None => execLoop fuel' rest
          end
      end
  end.

(** [parsePhotosXML(xml)] for [xml] a string, [null] or [undefined]. *)
Definition parsePhotosXML (xml : option jsstring) : list jsstring :=
  match xml with
  | None => []
  | Some text =>
      if negb (truthy text) then [] else execLoop (List.length text) text
  end.


(* ================================================================== *)
(** * Entities: [transformPropertyRow] *)

(** A cell of a recordset: [null], a bit, a number, a string, a binary
    value (a [Buffer], given by its bytes) or a date (a [Date], given by
    the text [String] prints for it, which depends on the time zone of the
    process); and [undefined], which is what reading a property that is not
    there gives.  (Numbers are the integers and the infinities.) *)
Inductive cell : Type :=
| CUndefined
| CNull
| CBool (b : bool)
| CNumber (n : Z)
| CString (s : jsstring)
| CBuffer (bytes : list N)
| CDate (printed : jsstring).

(** A [Buffer] or a [Date] is an object, and so truthy whatever it holds. *)
Definition cell_truthy (c : cell) : bool :=
  match c with
  | CUndefined | CNull => false
  | CBool b => b
  | CNumber n => negb (n =? 0)%Z
  | CString s => truthy s
  | CBuffer _ | CDate _ => true
  end.

(** [String(c)], which [regex.exec] and [+] on a string apply to their
    argument. *)
Definition cell_toString (c : cell) : jsstring :=
  match c with
  | CUndefined => js "undefined"
  | CNull => js "null"
  | CBool true => js "true"
  | CBool false => js "false"
  | CNumber n => Number_toString n
  | CString s => s
  | CBuffer bytes => utf8_decode bytes
  | CDate printed => printed
  end.

(** The values of an entity: cells, and the arrays and objects the handlers
    build. *)
#[warnings="-register-all"] Inductive json : Type :=
| JCell (c : cell)
| JArray (items : list json)
| JObject (fields : list (jsstring * json)).

Definition entity := jsobject json.

(** [o.k], [undefined] when the property is not there. *)
Definition property (o : entity) (k : jsstring) : json :=
  match obj_get o k with
  | Some v => v
  | None => JCell CUndefined
  end.

Definition json_truthy (v : json) : bool :=
  match v with
  | JCell c => cell_truthy c
  | JArray _ | JObject _ => true
  end.

(** [delete o.k] *)
Definition obj_delete {V} (o : jsobject V) (k : jsstring) : jsobject V :=
  filter (fun kv => negb (jsstring_eqb (fst kv) k)) o.

(** [crypto.createHash('sha256').update(url).digest('hex').substring(0, 16)] *)
Definition mediaKey (url : jsstring) : jsstring :=
  firstn 16 (toHex (SHA256.digest (utf8_encode url))).

(** [urls.map((url, i) => ({ MediaKey, ResourceRecordKey, MediaURL, Order: i + 1 }))],
    from index [i] on. *)
Fixpoint mediaFrom (i : Z) (listingKey : json) (urls : list jsstring) : list json :=
  match urls with
  | [] => []
  | url :: rest =>
      JObject [(js "MediaKey", JCell (CString (mediaKey url)));
               (js "ResourceRecordKey", listingKey);
               (js "MediaURL", JCell (CString url));
               (js "Order", JCell (CNumber (i + 1)))]
      :: mediaFrom (i + 1) listingKey rest
  end.

(** A recordset row, whose cells become the values of the entity. *)
Definition record := jsobject cell.

Definition cells (row : record) : entity :=
  map (fun kv => (fst kv, JCell (snd kv))) row.

(** [encodeListingKey] on a truthy cell.  [hash.update] takes a string,
    which it encodes in UTF-8, or a [Buffer], whose bytes it takes as they
    are; on any other value it throws a [TypeError], here [None]. *)
Definition encodeListingKey_cell (c : cell) : option cell :=
  match c with
  | CString key =>
      Some (match encodeListingKey key with
            | Some digits => CString digits
            | None => CNull
            end)
  | CBuffer bytes =>
      Some (match readBigUInt64BE (SHA256.digest bytes) 0 with
            | Some word => CString (N_toString (N.land word 0x7FFFFFFFFFFFFFFF))
            | None => CNull
            end)
  | _ => None
  end.

(** [transformPropertyRow(row)].  [None] is the [TypeError] of
    [hash.update] on a key that is neither a string nor a [Buffer]. *)
Definition transformPropertyRow (row : record) : option entity :=
  let result := transformRow (cells row) (reverseFieldMap Property.fieldMap) in
  let encoded :=
    if json_truthy (property result (js "ListingKey")) then
      match property result (js "ListingKey") with
      | JCell key =>
          match encodeListingKey_cell key with
          | Some listingKey =>
              Some (obj_set result (js "ListingKey") (JCell listingKey))
          | None => None
          end
      | JArray _ | JObject _ => None
      end
    else Some result in
  match encoded with
  | None => None
  | Some result =>
      if json_truthy (property result (js "_PhotosXML")) then
        let xml :=
          match property result (js "_PhotosXML") with
          | JCell c => cell_toString c
          | JArray _ | JObject _ => []
          end in
        let media :=
          mediaFrom 0 (property result (js "ListingKey"))
            (parsePhotosXML (Some xml)) in
        Some (obj_delete (obj_set result (js "Media") (JArray media))
                (js "_PhotosXML"))
      else Some (obj_set result (js "Media") (JArray []))
  end.


(* ================================================================== *)
(** * Expansions: [expandListAgent] and [expandListOffice] *)

(** What a promise settles to. *)
Record js_error : Type := JsError {
  err_status : option N;        (* [err.status] *)
  err_code : option jsstring;   (* [err.code] *)
  err_message : jsstring        (* [err.message] *)
}.

Inductive settled (A : Type) : Type :=
| Fulfilled (a : A)
| Rejected (err : js_error).
Arguments Fulfilled {A} a.
Arguments Rejected {A} err.

(** [new Error(message)] *)
Definition Error (message : jsstring) : js_error := JsError None None message.

(** The database behind [db.query], by the kind of statement it is handed:
    a data statement of [buildQuery], a count statement (answered by its
    [total] column, a number), a statement whose parameters are cells (of
    rows read before, or of the request).  [countFirst] says which
    rejection [Promise.all] sees first when both of its statements are
    rejected. *)
Record database : Type := Database {
  select : jsstring -> jsobject jsvalue -> settled (list record);
  count : jsstring -> jsobject jsvalue -> settled (list Z);
  withCells : jsstring -> jsobject json -> settled (list record);
  countFirst : bool
}.

Inductive call : Type :=
| Select (text : jsstring) (bound : jsobject jsvalue)
| Count (text : jsstring) (bound : jsobject jsvalue)
| WithCells (text : jsstring) (bound : jsobject json).

(** SameValueZero on cells.  A [Buffer] or a [Date] is an object, the same
    as itself only, and two cells of a recordset are never one object. *)
Definition cell_eqb (a b : cell) : bool :=
  match a, b with
  | CUndefined, CUndefined => true
  | CNull, CNull => true
  | CBool x, CBool y => Bool.eqb x y
  | CNumber x, CNumber y => (x =? y)%Z
  | CString x, CString y => jsstring_eqb x y
  | _, _ => false
  end.

(** SameValueZero, the equality of [Set] members and [Map] keys.  An array
    or object is the same as itself only, and no array or object is met
    twice in a key position here. *)
Definition sameValueZero (a b : json) : bool :=
  match a, b with
  | JCell x, JCell y => cell_eqb x y
  | _, _ => false
  end.

(** [[...new Set(values)]]: the first occurrences, in order. *)
Definition Set_add (set : list json) (v : json) : list json :=
  if existsb (sameValueZero v) set then set else set ++ [v].

Definition Set_of (values : list json) : list json := fold_left Set_add values [].

(** A [Map] with its [set], [has] and [get]. *)
Fixpoint Map_set {V} (m : list (json * V)) (k : json) (v : V) : list (json * V) :=
  match m with
  | [] => [(k, v)]
  | (k', v') :: rest =>
      if sameValueZero k' k then (k', v) :: rest else (k', v') :: Map_set rest k v
  end.

Fixpoint Map_get {V} (m : list (json * V)) (k : json) : option V :=
  match m with
  | [] => None
  | (k', v) :: rest => if sameValueZero k' k then Some v else Map_get rest k
  end.

(** [l.map((x, i) => f x i)], from index [i] on. *)
Fixpoint mapi {A B} (f : A -> N -> B) (i : N) (l : list A) : list B :=
  match l with
  | [] => []
  | x :: rest => f x i :: mapi f (i + 1) rest
  end.

(** Member field map for [$expand]. *)
Definition memberFieldMap : jsobject jsstring :=
  map (fun kv => (js (fst kv), js (snd kv)))
  [("MemberKey", "AGENTKEY"); ("MemberMlsId", "AGYAGENTID");
   ("MemberFirstName", "GIVENNAME"); ("MemberLastName", "SURNAME");
   ("MemberEmail", "EMAILADDRESS1"); ("MemberMobilePhone", "MOBILEPHONE");
   ("MemberOfficePhone", "BUSINESSPHONE")]%string.

(** Office field map for [$expand]. *)
Definition officeFieldMap : jsobject jsstring :=
  map (fun kv => (js (fst kv), js (snd kv)))
  [("OfficeKey", "OFFICEKEY"); ("OfficeName", "OFFICENAME"); ("OfficeCity", "CITY");
   ("OfficeStateOrProvince", "STATE"); ("OfficePhone", "PHONE")]%string.

(** The body the two expansion functions share, with the names in which
    they differ: the property read for the key ([ListAgentKey]), the
    parameter prefix ([agent]), the field map, the table and its key column,
    the key of the related entity ([MemberKey]) and the property written
    ([ListAgent]).  The properties are updated in place; the function
    returns them with the statements it issued. *)
Definition expand (keyName prefix : string) (relatedFieldMap : jsobject jsstring)
  (relatedTable keyColumn relatedKey target : string)
  (db : database) (properties : list entity)
  : settled (list entity) * list call :=
  match properties with
  | [] => (Fulfilled properties, [])
  | _ :: _ =>
      let keys :=
        Set_of (filter json_truthy
                  (map (fun p => property p (js keyName)) properties)) in
      match keys with
      | [] => (Fulfilled properties, [])
      | _ :: _ =>
          let placeholders :=
            join (js ", ")
              (mapi (fun _ i => js "@" ++ js prefix ++ N_toString i) 0 keys) in
          let bound :=
            fold_left (fun ps entry => obj_set ps (fst entry) (snd entry))
              (mapi (fun key i => (js prefix ++ N_toString i, key)) 0 keys) [] in
          let text :=
            js "SELECT " ++ join (js ", ") (obj_values relatedFieldMap)
            ++ 10 :: js "     FROM " ++ js relatedTable
            ++ 10 :: js "     WHERE " ++ js keyColumn ++ js " IN (" ++ placeholders
            ++ js ")" in
          match withCells db text bound with
          | Rejected err => (Rejected err, [WithCells text bound])
          | Fulfilled recordset =>
              let relatedMap :=
                fold_left
                  (fun m row =>
                     let one :=
                       transformRow (cells row) (reverseFieldMap relatedFieldMap) in
                     Map_set m (property one (js relatedKey)) one)
                  recordset [] in
              (Fulfilled
                 (map (fun p =>
                         if json_truthy (property p (js keyName)) then
                           match Map_get relatedMap (property p (js keyName)) with
                           | Some one => obj_set p (js target) (JObject one)
                           | None => p
                           end
                         else p)
                    properties),
               [WithCells text bound])
          end
      end
  end.

Definition expandListAgent : database -> list entity -> settled (list entity) * list call :=
  expand "ListAgentKey" "agent" memberFieldMap "idc_agy.AGY_AGENT" "AGENTKEY"
    "MemberKey" "ListAgent".

Definition expandListOffice : database -> list entity -> settled (list entity) * list call :=
  expand "ListOfficeKey" "office" officeFieldMap "idc_agy.AGY_OFFICE" "OFFICEKEY"
    "OfficeKey" "ListOffice".


(* ================================================================== *)
(** * Collection responses: the [list] handlers and the error handler *)

(** What a handler does with the request: it answers with a status and a
    JSON body, or hands an error to [next].  A [TypeError] raised by the
    runtime is kept apart: its text is not modelled. *)
Inductive reply : Type :=
| Json (status : N) (body : entity)    (* [res.status(status).json(body)] *)
| NextError (err : js_error)           (* [next(err)] *)
| NextTypeError.                       (* [next(err)], [err] a runtime [TypeError] *)

(** [Promise.all([db.query(dataQuery, params),
                  countQuery ? db.query(countQuery, params) : Promise.resolve(null)])]:
    both statements are issued; the result is the recordset and, with a
    count statement, its totals. *)
Definition runBoth (db : database) (p : plan)
  : settled (list record * option (list Z)) * list call :=
  let data := select db (dataQuery p) (plan_params p) in
  match countQuery p with
  | None =>
      (match data with
       | Fulfilled recordset => Fulfilled (recordset, None)
       | Rejected err => Rejected err
       end,
       [Select (dataQuery p) (plan_params p)])
  | Some countQuery =>
      (match data, count db countQuery (plan_params p) with
       | Fulfilled recordset, Fulfilled totals => Fulfilled (recordset, Some totals)
       | Rejected err, Fulfilled _ => Rejected err
       | Fulfilled _, Rejected err => Rejected err
       | Rejected err, Rejected err' => Rejected (if countFirst db then err' else err)
       end,
       [Select (dataQuery p) (plan_params p); Count countQuery (plan_params p)])
  end.

(** [rows.map(f)] for an [f] that may throw: the first throw ends it. *)
Fixpoint traverse {A B} (f : A -> option B) (l : list A) : option (list B) :=
  match l with
  | [] => Some []
  | x :: rest =>
      match f x with
      | None => None
      | Some y =>
          match traverse f rest with
          | None => None
          | Some ys => Some (y :: ys)
          end
      end
  end.

(** [expansions.includes(name)] *)
Definition includes (expansions : list jsstring) (name : string) : bool :=
  existsb (fun e => jsstring_eqb e (js name)) expansions.

Definition entities (value : list entity) : json := JArray (map JObject value).

(** [list] of [property.js].  [host] stands for
    [`${req.protocol}://${req.get('host')}${req.baseUrl}`]. *)
Definition property_list (db : database) (host : jsstring) (query : query_options)
  : reply * list call :=
  match parseExpand (q_expand query) Property.ALLOWED_EXPANSIONS with
  | Throw message => (NextError (Error message), [])
  | Ok expansions =>
  match buildQuery (Options Property.TABLE Property.fieldMap query Property.KEY_FIELD
                      None (Some (host ++ js "/Property")) None) with
  | Throw message => (NextError (Error message), [])
  | Ok p =>
  match runBoth db p with
  | (Rejected err, calls) => (NextError err, calls)
  | (Fulfilled (recordset, countResult), calls) =>
  match traverse transformPropertyRow recordset with
  | None => (NextTypeError, calls)
  | Some value =>
  let '(withAgents, agentCalls) :=
    if includes expansions "ListAgent" then expandListAgent db value
    else (Fulfilled value, []) in
  match withAgents with
  | Rejected err => (NextError err, calls ++ agentCalls)
  | Fulfilled value =>
  let '(withOffices, officeCalls) :=
    if includes expansions "ListOffice" then expandListOffice db value
    else (Fulfilled value, []) in
  match withOffices with
  | Rejected err => (NextError err, calls ++ agentCalls ++ officeCalls)
  | Fulfilled value =>
      let issued := calls ++ agentCalls ++ officeCalls in
      let response : entity :=
        [(js "@odata.context", JCell (CString (host ++ js "/$metadata#Property")))] in
      match countResult with
      | None => (Json 200 (obj_set response (js "value") (entities value)), issued)
      | Some [] => (NextTypeError, issued)
      | Some (totalCount :: _) =>
          let response :=
            obj_set response (js "@odata.count") (JCell (CNumber totalCount)) in
          let response :=
            match nextLinkBuilder p with
            | Some builder =>
                match builder totalCount with
                | Some nextLink =>
                    if truthy nextLink then
                      obj_set response (js "@odata.nextLink") (JCell (CString nextLink))
                    else response
                | None => response
                end
            | None => response
            end in
          (Json 200 (obj_set response (js "value") (entities value)), issued)
      end
  end end end end end end.

(** The [list] of [member.js] and of [office.js], which differ in their
    table, field map, key field and entity set name. *)
Definition collection_list (TABLE : jsstring) (fieldMap : jsobject jsstring)
  (KEY_FIELD : jsstring) (setName : string)
  (db : database) (host : jsstring) (query : query_options) : reply * list call :=
  match buildQuery (Options TABLE fieldMap query KEY_FIELD None None None) with
  | Throw message => (NextError (Error message), [])
  | Ok p =>
  match runBoth db p with
  | (Rejected err, calls) => (NextError err, calls)
  | (Fulfilled (recordset, countResult), calls) =>
      let value :=
        map (fun row => transformRow (cells row) (reverseFieldMap fieldMap)) recordset in
      let response : entity :=
        [(js "@odata.context",
          JCell (CString (host ++ js "/$metadata#" ++ js setName)))] in
      match countResult with
      | None => (Json 200 (obj_set response (js "value") (entities value)), calls)
      | Some [] => (NextTypeError, calls)
      | Some (total :: _) =>
          let response := obj_set response (js "@odata.count") (JCell (CNumber total)) in
          (Json 200 (obj_set response (js "value") (entities value)), calls)
      end
  end end.

Definition member_list : database -> jsstring -> query_options -> reply * list call :=
  collection_list Member.TABLE Member.fieldMap Member.KEY_FIELD "Member".

Definition office_list : database -> jsstring -> query_options -> reply * list call :=
  collection_list Office.TABLE Office.fieldMap Office.KEY_FIELD "Office".

(** The router's error handler:
    [res.status(err.status || 500).json({ error: { code: err.code || 'ServerError',
                                                   message: err.message } })]. *)
Definition errorHandler (err : js_error) : reply :=
  let status :=
    match err_status err with
    | Some s => if s =? 0 then 500 else s
    | None => 500
    end in
  let code :=
    match err_code err with
    | Some c => if truthy c then c else js "ServerError"
    | None => js "ServerError"
    end in
  Json status
    [(js "error",
      JObject [(js "code", JCell (CString code));
               (js "message", JCell (CString (err_message err)))])].


(* ================================================================== *)
(** * The listing redirect: [listing] *)

(** [array.pop()]: the last element, [undefined] for the empty array. *)
Fixpoint pop {A} (l : list A) : option A :=
  match l with
  | [] => None
  | [x] => Some x
  | _ :: rest => pop rest
  end.

(** What the redirect handler answers: [res.status(code).end()] or
    [res.redirect(url)]. *)
Inductive answer : Type :=
| Status (code : N)
| Redirect (url : jsstring).

Definition listingQuery : jsstring :=
  js "SELECT TOP 1 LISTINGDETAILURL, MLSBOARD"
  ++ 10 :: js "       FROM idc_agy.AGY_CMNCMN_VW"
  ++ 10 :: js "       WHERE MLSNUMBER LIKE @mlsnumber OR IDCMLSNUMBER LIKE @mlsnumber"
  ++ 10 :: js "       ORDER BY CASE WHEN @mls IS NOT NULL AND MLSBOARD = @mls THEN 0 ELSE 1 END".

(** [listing], given [baseUrl], the route parameter [req.params.mlsnumber]
    and [req.query.mls] (a string or absent). *)
Definition listing (baseUrl : jsstring) (db : database)
  (param mlsQuery : option jsstring) : answer * list call :=
  let mlsnumber :=
    match param with
    | Some text => pop (split_on 45 text)
    | None => None
    end in
  let mls :=
    if truthy_opt mlsQuery then CString (template mlsQuery) else CNull in
  match mlsnumber with
  | None => (Status 400, [])
  | Some mlsnumber =>
      if negb (truthy mlsnumber) || (List.length mlsnumber <? 4)%nat then (Status 400, [])
      else
        let bound :=
          [(js "mlsnumber", JCell (CString (js "%" ++ mlsnumber)));
           (js "mls", JCell mls)] in
        match withCells db listingQuery bound with
        | Rejected _ => (Status 500, [WithCells listingQuery bound])
        | Fulfilled recordset =>
            match recordset with
            | row :: _ =>
                let found : cell :=
                  match obj_get row (js "LISTINGDETAILURL") with
                  | Some c => c
                  | None => CUndefined
                  end in
                if cell_truthy found then
                  (Redirect (baseUrl ++ cell_toString found),
                   [WithCells listingQuery bound])
                else (Status 404, [WithCells listingQuery bound])
            | [] => (Status 404, [WithCells listingQuery bound])
            end
        end
  end.

(* ================================================================== *)
(** * Specification-side vocabulary *)

(** [clamp(x, lo, hi)] *)
Definition clamp (x lo hi : Z) : Z :=
  if (x <? lo)%Z then lo else if (hi <? x)%Z then hi else x.

(** The unsigned integer a byte sequence denotes, first byte most
    significant. *)
Fixpoint big_endian (bytes : list N) : N :=
  match bytes with
  | [] => 0
  | b :: rest => b * 256 ^ N.of_nat (List.length rest) + big_endian rest
  end.

(** The clauses out of which a successful [buildQuery] assembles its plan. *)
Definition orderByClauseOf (orderBy : jsstring) (fieldMap : jsobject jsstring)
  : jsstring :=
  if truthy orderBy then js "ORDER BY " ++ orderBy
  else js "ORDER BY " ++ template (hd_error (obj_values fieldMap)).

Definition tail_of_data (p : plan) : jsstring :=
  line ++ js "OFFSET " ++ Number_toString (skip p) ++ js " ROWS"
  ++ line ++ js "FETCH NEXT " ++ Number_toString (top p) ++ js " ROWS ONLY"
  ++ 10 :: js "  ".

Definition no_options : query_options := Query None None None None None None None.

(** What one entry of a valid [$orderby] is rendered as: the backend column
    of its field, then [DESC] when a direction is given that reads [desc] in
    any letter case, [ASC] when none is given (or another word is). *)
Definition order_entry (fieldMap : jsobject jsstring) (part text : jsstring) : Prop :=
  let pieces := split_spaces (trim part) in
  exists field column dir,
    hd_error pieces = Some field
    /\ In (field, column) fieldMap
    /\ obj_get fieldMap field = Some column
    /\ text = column ++ js " " ++ dir
    /\ (nth_error pieces 1 = None -> dir = js "ASC")
    /\ (forall d, nth_error pieces 1 = Some d ->
                  toLowerCase d = js "desc" -> dir = js "DESC")
    /\ (forall d, nth_error pieces 1 = Some d ->
                  toLowerCase d <> js "desc" -> dir = js "ASC").


(** An option the client supplied, as the next link carries it. *)
Definition carried (name : string) (value : option jsstring) : jsstring :=
  if truthy_opt value then js "&%24" ++ js name ++ js "=" ++ urlencode (template value)
  else [].

(** The value a function call binds: the argument inside its LIKE
    wildcards. *)
Definition like_pattern (funcName value : jsstring) : jsvalue :=
  if jsstring_eqb funcName (js "contains") then VString (js "%" ++ value ++ js "%")
  else if jsstring_eqb funcName (js "startswith") then VString (value ++ js "%")
  else VString (js "%" ++ value).

(** The literal values of a token stream in the order the compiler reaches
    them: a function call contributes its wrapped string argument. *)
Fixpoint emitted_values (tokens : list token) : list jsvalue :=
  match tokens with
  | [] => []
  | TFunction f :: rest =>
      match rest with
      | _ :: _ :: _ :: TString v :: rest' => like_pattern f v :: emitted_values rest'
      | _ => emitted_values rest
      end
  | TString v :: rest => VString v :: emitted_values rest
  | TNumber text :: rest => VFloat text :: emitted_values rest
  | TDatetime v :: rest => VString v :: emitted_values rest
  | _ :: rest => emitted_values rest
  end.

(** [{ filter<start>: v0, filter<start+1>: v1, ... }] *)
Fixpoint named (start : N) (values : list jsvalue) : jsobject jsvalue :=
  match values with
  | [] => []
  | v :: rest => (paramName start, v) :: named (start + 1) rest
  end.

(** A token with its literal value blanked: what is left is the shape of
    the filter. *)
Definition erase (t : token) : token :=
  match t with
  | TString _ => TString []
  | TNumber _ => TNumber []
  | TDatetime _ => TDatetime []
  | _ => t
  end.

(** The texts the compiler writes on its own account. *)
Definition fixed_texts : list jsstring :=
  map js [" = "; " != "; " > "; " >= "; " < "; " <= "; " AND "; " OR "; " NOT ";
          "NULL"; "1"; "0"; "("; ")"; " LIKE "]%string.

(** The pieces a compiled WHERE fragment is made of. *)
Inductive sql_piece (fieldMap : jsobject jsstring) : jsstring -> Prop :=
| piece_column (name column : jsstring) :
    In (name, column) fieldMap -> obj_get fieldMap name = Some column ->
    sql_piece fieldMap column
| piece_fixed (text : jsstring) : In text fixed_texts -> sql_piece fieldMap text
| piece_placeholder (index : N) : sql_piece fieldMap (js "@" ++ paramName index).

(** The tokens the lexer can produce. *)
Definition lexed (t : token) : Prop :=
  match t with
  | TOperator v => word_in v operators = true
  | TLogical v => word_in v logicals = true
  | TFunction v => word_in v functions = true
  | TLiteral v => word_in v literals = true
  | TParen v => v = js "(" \/ v = js ")"
  | _ => True
  end.

(** Two compiler states that agree on the text written so far and on the
    next parameter index. *)
Definition same_text (a b : compiler_state) : Prop :=
  st_sql a = st_sql b /\ paramIndex a = paramIndex b.

(** [GET /odata/Property?$top=10&$skip=0&$count=true&$orderby=City desc]
    with a filter. *)
Definition sample_options : options :=
  Options Property.TABLE Property.fieldMap
    (Query (Some (js "10")) (Some (js "0")) (Some (js "true")) None
       (Some (js "City eq 'LA'")) (Some (js "City desc")) None)
    Property.KEY_FIELD None (Some (js "http://localhost/odata/Property")) None.

(** [tokens] in front of a lexer result. *)
Definition prefix_tokens (tokens : list token) (r : result (list token))
  : result (list token) :=
  match r with
  | Ok rest => Ok (tokens ++ rest)
  | Throw message => Throw message
  end.

(** An OData string literal for [value]: single quotes around it, each
    quote inside doubled. *)
Definition quoteLiteral (value : jsstring) : jsstring :=
  quote :: flat_map (fun c => if c =? quote then [quote; quote] else [c]) value
  ++ [quote].

(** A word the lexer reads as a field name: it starts with a letter or an
    underscore, goes on with letters, digits and underscores, and is no
    keyword. *)
Definition is_field_word (w : jsstring) : Prop :=
  match w with
  | [] => False
  | c :: _ =>
      is_word_start c = true /\ Forall (fun c => is_word_char c = true) w
      /\ classifyWord w = TIdentifier w
  end.

(** A compiled WHERE fragment cut into what the compiler wrote: texts and
    parameter placeholders. *)
Inductive compiled_piece : Type :=
| Text (text : jsstring)
| Placeholder (index : N).

Definition render_piece (p : compiled_piece) : jsstring :=
  match p with
  | Text text => text
  | Placeholder index => js "@" ++ paramName index
  end.

Definition placeholder_indices (pieces : list compiled_piece) : list N :=
  flat_map (fun p => match p with Placeholder i => [i] | Text _ => [] end) pieces.

(** The texts are backend columns or the compiler's own words. *)
Definition text_allowed (fieldMap : jsobject jsstring) (p : compiled_piece) : Prop :=
  match p with
  | Text text => In text (obj_values fieldMap) \/ In text fixed_texts
  | Placeholder _ => True
  end.

(** [start, start + 1, ...], [count] numbers. *)
Fixpoint count_from (start : N) (count : nat) : list N :=
  match count with
  | O => []
  | S count' => start :: count_from (start + 1) count'
  end.

(** The same request with another [$filter]. *)
Definition with_filter (o : options) (filter : option jsstring) : options :=
  let q := query o in
  Options (table o) (fieldMap o)
    (Query (q_top q) (q_skip q) (q_count q) (q_select q) filter (q_orderby q)
       (q_expand q))
    (keyField o) (keyValue o) (baseUrl o) (baseWhere o).

(** An option as the next link hands it on: dropped when it is empty. *)
Definition kept (value : option jsstring) : option jsstring :=
  if truthy_opt value then value else None.

(** The request a client sends when it follows the next link of a plan:
    [$top] and [$skip] as the link carries them, the non-empty ones of
    [$select], [$filter], [$orderby] and [$count], and no [$expand]. *)
Definition next_page (q : query_options) (p : plan) : query_options :=
  Query (Some (Number_toString (top p)))
    (Some (Number_toString (roundDouble (skip p + top p))))
    (kept (q_count q)) (kept (q_select q)) (kept (q_filter q))
    (kept (q_orderby q)) None.

(** The column whose value a reshaped row holds under the key [name]: the
    column of the RESO name [name]; or, when [name] is the key text of a
    member of [Object.prototype] whose name is not a mapped column, the
    column that bears the member's name.  [None]: the reshaped row holds
    nothing under [name]. *)
Definition column_of (fieldMap : jsobject jsstring) (name : jsstring)
  : option jsstring :=
  match obj_get fieldMap name with
  | Some column => Some column
  | None =>
      match find (fun member => jsstring_eqb (snd member) name) Object_prototype with
      | Some (inherited, _) =>
          if existsb (jsstring_eqb inherited) (obj_values fieldMap) then None
          else Some inherited
      | None => None
      end
  end.

(** A field map whose RESO names are ordinary: none is empty, none is
    [__proto__] and none is the key text of a member of
    [Object.prototype]. *)
Definition ordinary_names (fieldMap : jsobject jsstring) : Prop :=
  forall name, In name (obj_keys fieldMap) ->
    name <> [] /\ name <> js "__proto__" /\ ~ In name (obj_values Object_prototype).

(** No string occurs twice in a list. *)
Fixpoint distinctb (l : list jsstring) : bool :=
  match l with
  | [] => true
  | x :: rest => negb (existsb (jsstring_eqb x) rest) && distinctb rest
  end.


(** A [URL] element of the photos document. *)
Definition element (url : jsstring) : jsstring := js "<URL>" ++ url ++ js "</URL>".

(** What can stand inside a [URL] element: some text without [<]. *)
Definition is_url (url : jsstring) : Prop := url <> [] /\ ~ In 60 url.

(** A photos document: each URL element preceded by some text, and a
    trailer. *)
Fixpoint document (items : list (jsstring * jsstring)) (trailer : jsstring)
  : jsstring :=
  match items with
  | [] => trailer
  | (before, url) :: rest => before ++ element url ++ document rest trailer
  end.


(** The key values an expansion collects: the truthy values the properties
    hold under the key name, with repetitions. *)
Definition wanted (keyName : string) (properties : list entity) : list json :=
  filter json_truthy (map (fun p => property p (js keyName)) properties).

(** The first occurrences of the values of a list, in their order: each
    value once, compared as [Set] members are. *)
Fixpoint first_occurrences (values : list json) : list json :=
  match values with
  | [] => []
  | v :: rest =>
      v :: filter (fun w => negb (sameValueZero v w)) (first_occurrences rest)
  end.

(** The statement of an expansion for given parameter names. *)
Definition expansion_text (relatedFieldMap : jsobject jsstring)
  (relatedTable keyColumn : string) (names : list jsstring) : jsstring :=
  js "SELECT " ++ join (js ", ") (obj_values relatedFieldMap)
  ++ 10 :: js "     FROM " ++ js relatedTable
  ++ 10 :: js "     WHERE " ++ js keyColumn ++ js " IN ("
  ++ join (js ", ") (map (fun name => js "@" ++ name) names) ++ js ")".


(** The last element of a list that passes a test. *)
Fixpoint last_match {A} (test : A -> bool) (l : list A) : option A :=
  match l with
  | [] => None
  | x :: rest =>
      match last_match test rest with
      | Some y => Some y
      | None => if test x then Some x else None
      end
  end.

(** A property after an expansion answered by [recordset]: the reshaped
    last row of the recordset whose key is the property's truthy key is
    written under [target]; without such a row the property is as it was. *)
Definition attach (relatedFieldMap : jsobject jsstring)
  (keyName relatedKey target : string) (recordset : list record) (p : entity)
  : entity :=
  let reshaped row := transformRow (cells row) (reverseFieldMap relatedFieldMap) in
  match last_match
          (fun row =>
             sameValueZero (property (reshaped row) (js relatedKey))
               (property p (js keyName)))
          recordset with
  | Some row =>
      if json_truthy (property p (js keyName)) then
        obj_set p (js target) (JObject (reshaped row))
      else p
  | None => p
  end.

(* ================================================================== *)
(** * Basic facts *)

Lemma jsstring_eqb_eq (a b : jsstring) : jsstring_eqb a b = true <-> a = b.
Proof.
  revert b. induction a as [|x a IH]; intros [|y b]; simpl; split; intros H;
    try reflexivity; try discriminate.
  - apply andb_true_iff in H as [Hx Ha]. apply N.eqb_eq in Hx.
    apply IH in Ha. now subst.
  - injection H as -> ->. rewrite N.eqb_refl. simpl. now apply IH.
Qed.

Lemma jsstring_eqb_refl (a : jsstring) : jsstring_eqb a a = true.
Proof. now apply jsstring_eqb_eq. Qed.

Lemma jsstring_eqb_neq (a b : jsstring) : jsstring_eqb a b = false <-> a <> b.
Proof.
  split; intros H.
  - intros E. apply jsstring_eqb_eq in E. congruence.
  - destruct (jsstring_eqb a b) eqn:E; [|reflexivity].
    apply jsstring_eqb_eq in E. contradiction.
Qed.

Lemma has_key_get {V} (o : jsobject V) (k : jsstring) :
  has_key o k = true -> exists v, obj_get o k = Some v.
Proof.
  unfold has_key, obj_keys. induction o as [|[k' v] o IH]; simpl; [discriminate|].
  intros H. apply orb_true_iff in H as [H|H].
  - apply jsstring_eqb_eq in H. subst. rewrite jsstring_eqb_refl. eauto.
  - destruct (jsstring_eqb k' k); eauto.
Qed.

Lemma get_In {V} (o : jsobject V) (k : jsstring) (v : V) :
  obj_get o k = Some v -> In (k, v) o.
Proof.
  induction o as [|[k' v'] o IH]; simpl; [discriminate|].
  destruct (jsstring_eqb k' k) eqn:E.
  - apply jsstring_eqb_eq in E. intros [= ->]. subst. now left.
  - intros H. right. now apply IH.
Qed.

(** ** Decimal rendering *)

Lemma digits_of_app (fuel : nat) (n : N) (acc : jsstring) :
  digits_of fuel n acc = digits_of fuel n [] ++ acc.
Proof.
  revert n acc. induction fuel as [|fuel IH]; intros n acc; simpl; [reflexivity|].
  destruct (n <? 10); [reflexivity|].
  rewrite (IH _ (_ :: acc)), (IH _ [_]), <- app_assoc. reflexivity.
Qed.

Lemma radix_value_snoc (radix : N) (ds : jsstring) (d : N) :
  radix_value radix (ds ++ [d]) = radix_value radix ds * radix + digit_value d.
Proof. unfold radix_value. rewrite fold_left_app. reflexivity. Qed.

Lemma digit_value_digit (d : N) : d < 10 -> digit_value (48 + d) = d.
Proof.
  intros H. unfold digit_value, is_digit, in_range.
  replace (48 <=? 48 + d) with true by (symmetry; apply N.leb_le; lia).
  replace (48 + d <=? 57) with true by (symmetry; apply N.leb_le; lia).
  cbn [andb]. lia.
Qed.

Lemma digits_of_value (fuel : nat) (n : N) :
  n < 10 ^ N.of_nat fuel -> decimal_value (digits_of fuel n []) = n.
Proof.
  revert n. induction fuel as [|fuel IH]; intros n Hn.
  - change (10 ^ N.of_nat 0) with 1 in Hn. unfold decimal_value, radix_value.
    cbn [digits_of fold_left]. lia.
  - cbn [digits_of]. destruct (n <? 10) eqn:E.
    + apply N.ltb_lt in E. unfold decimal_value, radix_value. cbn [fold_left].
      rewrite digit_value_digit by (apply N.mod_lt; lia).
      rewrite N.mod_small by lia. lia.
    + rewrite digits_of_app. unfold decimal_value in *.
      rewrite radix_value_snoc, IH.
      * rewrite digit_value_digit by (apply N.mod_lt; lia).
        pose proof (N.div_mod n 10). lia.
      * rewrite Nat2N.inj_succ, N.pow_succ_r' in Hn.
        apply N.Div0.div_lt_upper_bound. lia.
Qed.

Lemma lt_pow10_size (n : N) : n < 10 ^ N.of_nat (S (N.to_nat (N.size n))).
Proof.
  rewrite Nat2N.inj_succ, N2Nat.id.
  destruct (N.eq_dec n 0) as [->|Hn]; [simpl; lia|].
  assert (n < 2 ^ N.size n) by (apply N.size_gt).
  assert (2 ^ N.size n <= 10 ^ N.size n) by (apply N.pow_le_mono_l; lia).
  assert (10 ^ N.size n <= 10 ^ N.succ (N.size n))
    by (apply N.pow_le_mono_r; lia).
  lia.
Qed.

Lemma N_toString_value (n : N) : decimal_value (N_toString n) = n.
Proof. apply digits_of_value, lt_pow10_size. Qed.

Lemma is_digit_offset (d : N) : d < 10 -> is_digit (48 + d) = true.
Proof.
  intros H. unfold is_digit, in_range. apply andb_true_iff; split; apply N.leb_le; lia.
Qed.

Lemma digits_of_digits (fuel : nat) (n : N) (acc : jsstring) :
  Forall (fun c => is_digit c = true) acc ->
  Forall (fun c => is_digit c = true) (digits_of fuel n acc).
Proof.
  revert n acc. induction fuel as [|fuel IH]; intros n acc Hacc; cbn [digits_of];
    [assumption|].
  assert (Hd : is_digit (48 + n mod 10) = true).
  { apply is_digit_offset, N.mod_lt. discriminate. }
  destruct (n <? 10); [|apply IH]; constructor; assumption.
Qed.

Lemma N_toString_digits (n : N) : Forall (fun c => is_digit c = true) (N_toString n).
Proof. apply digits_of_digits. constructor. Qed.

Lemma N_toString_nonempty (n : N) : N_toString n <> [].
Proof.
  unfold N_toString. cbn [digits_of]. destruct (n <? 10); [discriminate|].
  rewrite digits_of_app. intros H. apply app_eq_nil in H as [_ H]. discriminate.
Qed.

Lemma N_toString_inj (n m : N) : N_toString n = N_toString m -> n = m.
Proof.
  intros H. rewrite <- (N_toString_value n), <- (N_toString_value m). now rewrite H.
Qed.

(* ================================================================== *)
(** * The key codec *)

Lemma digest_shape (message : list N) :
  exists b0 b1 b2 b3 b4 b5 b6 b7 rest,
    SHA256.digest message = b0 :: b1 :: b2 :: b3 :: b4 :: b5 :: b6 :: b7 :: rest
    /\ List.length rest = 24%nat.
Proof.
  unfold SHA256.digest.
  generalize (fold_left SHA256.compress
                (SHA256.chunks (List.length (SHA256.pad message)) 64
                   (SHA256.pad message)) SHA256.H0).
  intros h. cbn [flat_map SHA256.be_bytes seq rev map app].
  repeat eexists.
Qed.

Lemma readBigUInt64BE_big_endian (b0 b1 b2 b3 b4 b5 b6 b7 : N) (rest : list N) :
  readBigUInt64BE (b0 :: b1 :: b2 :: b3 :: b4 :: b5 :: b6 :: b7 :: rest) 0
  = Some (big_endian [b0; b1; b2; b3; b4; b5; b6; b7]).
Proof.
  unfold readBigUInt64BE. cbn [skipn]. f_equal. rewrite N.shiftl_mul_pow2.
  cbn [big_endian List.length]. 
  change (N.of_nat 7) with 7. change (N.of_nat 6) with 6. change (N.of_nat 5) with 5.
  change (N.of_nat 4) with 4. change (N.of_nat 3) with 3. change (N.of_nat 2) with 2.
  change (N.of_nat 1) with 1. change (N.of_nat 0) with 0.
  change (256 ^ 7) with 72057594037927936. change (256 ^ 6) with 281474976710656.
  change (256 ^ 5) with 1099511627776. change (256 ^ 4) with 4294967296.
  change (256 ^ 3) with 16777216. change (256 ^ 2) with 65536.
  change (256 ^ 1) with 256. change (256 ^ 0) with 1.
  change (2 ^ 32) with 4294967296. change (2 ^ 24) with 16777216.
  change (2 ^ 16) with 65536. change (2 ^ 8) with 256. lia.
Qed.

Lemma mask63 (x : N) : N.land x 0x7FFFFFFFFFFFFFFF = x mod 2 ^ 63.
Proof. change 0x7FFFFFFFFFFFFFFF with (N.ones 63). apply N.land_ones. Qed.

Lemma encodeListingKey_value (str : jsstring) :
  str <> [] ->
  let prefix := firstn 8 (SHA256.digest (utf8_encode str)) in
  List.length prefix = 8%nat
  /\ encodeListingKey str = Some (N_toString (big_endian prefix mod 2 ^ 63)).
Proof.
  intros Hstr prefix. subst prefix. unfold encodeListingKey.
  destruct str as [|c str]; [contradiction|]. cbn [truthy negb].
  destruct (digest_shape (utf8_encode (c :: str)))
    as (b0 & b1 & b2 & b3 & b4 & b5 & b6 & b7 & rest & -> & _).
  rewrite readBigUInt64BE_big_endian, mask63. cbn [firstn]. split; reflexivity.
Qed.

(** C3. For a non-empty key, [encodeListingKey] is the decimal rendering of
    the first eight bytes of the SHA-256 digest of the key's UTF-8 bytes,
    read as a big-endian unsigned integer and reduced to 63 bits; the output
    holds decimal digits only, denotes that number, and equal inputs give
    equal outputs. *)
Theorem encodeListingKey_spec (str : jsstring) :
  str <> [] ->
  let prefix := firstn 8 (SHA256.digest (utf8_encode str)) in
  let num := big_endian prefix mod 2 ^ 63 in
  List.length prefix = 8%nat
  /\ encodeListingKey str = Some (N_toString num)
  /\ num < 2 ^ 63
  /\ Forall (fun c => is_digit c = true) (N_toString num)
  /\ decimal_value (N_toString num) = num
  /\ (forall str', str' = str -> encodeListingKey str' = encodeListingKey str).
Proof.
  intros Hstr prefix num.
  destruct (encodeListingKey_value str Hstr) as [Hlen Henc].
  split; [exact Hlen|]. split; [exact Henc|].
  split; [apply N.mod_lt; discriminate|].
  split; [apply N_toString_digits|].
  split; [apply N_toString_value|].
  intros str' ->. reflexivity.
Qed.

Lemma encodeListingKey_spec_witness :
  js "P1" <> []
  /\ encodeListingKey (js "P1") = Some (js "8929204029585077912").
Proof.
  split; [discriminate|].
  destruct (encodeListingKey_spec (js "P1")) as (_ & H & _); [discriminate|].
  rewrite H. vm_compute. reflexivity.
Defined.

(* ================================================================== *)
(** * The query builder *)

Lemma bind_Ok {A B} (r : result A) (k : A -> result B) (b : B) :
  bind r k = Ok b -> exists a, r = Ok a /\ k a = Ok b.
Proof. destruct r; simpl; [eauto|discriminate]. Qed.

Lemma buildQuery_inv (o : options) (p : plan) :
  buildQuery o = Ok p ->
  exists selectFields whereConditions orderBy,
    parseSelect (q_select (query o)) (fieldMap o) = Ok selectFields
    /\ buildWhere o = Ok (whereConditions, plan_params p)
    /\ parseOrderBy (q_orderby (query o)) (fieldMap o) = Ok orderBy
    /\ top p = query_top (query o)
    /\ skip p = query_skip (query o)
    /\ dataQuery p =
         (line ++ js "SELECT " ++ selectFields ++ line ++ js "FROM " ++ table o
          ++ line ++ whereClauseOf whereConditions ++ line)
         ++ orderByClauseOf orderBy (fieldMap o) ++ tail_of_data p
    /\ countQuery p =
         (if query_count (query o) then
            Some (line ++ js "SELECT COUNT(*) as total" ++ line ++ js "FROM "
                  ++ table o ++ line ++ whereClauseOf whereConditions
                  ++ 10 :: js "  ")
          else None)
    /\ nextLinkBuilder p =
         (if truthy_opt (baseUrl o) then
            Some (nextLink (template (baseUrl o)) (top p) (skip p) (query o))
          else None).
Proof.
  unfold buildQuery. intros H.
  apply bind_Ok in H as (selectFields & Hsel & H).
  apply bind_Ok in H as ([whereConditions ps] & Hw & H).
  apply bind_Ok in H as (orderBy & Hob & H).
  injection H as <-. exists selectFields, whereConditions, orderBy.
  cbn [top skip dataQuery countQuery nextLinkBuilder plan_params].
  repeat (split; [assumption || reflexivity|]).
  split; [|split; reflexivity].
  unfold orderByClauseOf, tail_of_data. cbn [top skip].
  destruct (truthy orderBy); repeat rewrite <- app_assoc; reflexivity.
Qed.

(** ** Pagination *)

Lemma query_top_range (q : query_options) : (1 <= query_top q <= 1000)%Z.
Proof. unfold query_top. lia. Qed.

Lemma query_skip_nonneg (q : query_options) : (0 <= query_skip q)%Z.
Proof. unfold query_skip. lia. Qed.

Lemma plan_pagination (o : options) (p : plan) :
  buildQuery o = Ok p -> top p = query_top (query o) /\ skip p = query_skip (query o).
Proof.
  intros H. apply buildQuery_inv in H as (? & ? & ? & _ & _ & _ & Ht & Hs & _).
  split; assumption.
Qed.

(** C4. The pagination values the builder computes are
    [top = clamp(parseInt($top) || 100, 1, 1000)] and
    [skip = max(parseInt($skip) || 0, 0)]: [top] lies in [1, 1000] and is 100
    when [$top] is absent, not a number or zero, 1 when it is negative and
    1000 when it is above 1000; [skip] is never negative and is 0 by default.
    A plan that is built carries exactly these values. *)
Theorem buildQuery_pagination (o : options) :
  let t := parseInt (q_top (query o)) in
  let s := parseInt (q_skip (query o)) in
  let top_ := query_top (query o) in
  let skip_ := query_skip (query o) in
  top_ = clamp (number_or t 100) 1 1000
  /\ skip_ = Z.max (number_or s 0) 0
  /\ (1 <= top_ <= 1000)%Z
  /\ (0 <= skip_)%Z
  /\ (t = None \/ t = Some 0%Z -> top_ = 100%Z)
  /\ (forall n, t = Some n -> (n < 0)%Z -> top_ = 1%Z)
  /\ (forall n, t = Some n -> (1000 < n)%Z -> top_ = 1000%Z)
  /\ (forall n, t = Some n -> (1 <= n <= 1000)%Z -> top_ = n)
  /\ (s = None \/ s = Some 0%Z -> skip_ = 0%Z)
  /\ (forall n, s = Some n -> (n < 0)%Z -> skip_ = 0%Z)
  /\ (forall n, s = Some n -> (0 <= n)%Z -> skip_ = n)
  /\ (forall p, buildQuery o = Ok p -> top p = top_ /\ skip p = skip_).
Proof.
  intros t s top_ skip_. subst top_ skip_. unfold query_top, query_skip.
  fold t. fold s. unfold clamp, number_or.
  split. { destruct t as [n|]; [destruct (n =? 0)%Z eqn:E|];
           repeat match goal with |- context [(?a <? ?b)%Z] =>
                    destruct (Z.ltb_spec a b) end; lia. }
  split; [reflexivity|].
  split. { destruct t as [n|]; [destruct (n =? 0)%Z|]; lia. }
  split. { destruct s as [n|]; [destruct (n =? 0)%Z|]; lia. }
  split. { intros [->| ->]; reflexivity. }
  split. { intros n -> Hn. destruct (Z.eqb_spec n 0); lia. }
  split. { intros n -> Hn. destruct (Z.eqb_spec n 0); lia. }
  split. { intros n -> Hn. destruct (Z.eqb_spec n 0); lia. }
  split. { intros [->| ->]; reflexivity. }
  split. { intros n -> Hn. destruct (Z.eqb_spec n 0); lia. }
  split. { intros n -> Hn. destruct (Z.eqb_spec n 0); lia. }
  intros p Hp. apply plan_pagination in Hp as [-> ->]. split; reflexivity.
Qed.

Lemma buildQuery_pagination_witness :
  let o := Options Property.TABLE Property.fieldMap
             (Query (Some (js "5000")) (Some (js "-3")) None None None None None)
             Property.KEY_FIELD None None None in
  exists p, buildQuery o = Ok p /\ top p = 1000%Z /\ skip p = 0%Z.
Proof.
  intros o.
  destruct (buildQuery o) as [p|] eqn:E; [|vm_compute in E; discriminate].
  exists p. split; [reflexivity|].
  destruct (buildQuery_pagination o) as (_ & _ & _ & _ & _ & _ & Hbig & _ & _ & Hneg & _ & Hp).
  destruct (Hp p E) as [-> ->]. split.
  - apply (Hbig 5000%Z); [vm_compute; reflexivity | lia].
  - apply (Hneg (-3)%Z); [vm_compute; reflexivity | lia].
Defined.

(* ================================================================== *)
(** * The lexer on an unterminated string literal *)

Lemma scanString_no_quote (body value : jsstring) :
  Forall (fun c => (c =? quote) = false) body ->
  scanString body value = (value ++ body, []).
Proof.
  intros H. revert value. induction H as [|c body Hc _ IH]; intros value.
  - cbn [scanString]. now rewrite app_nil_r.
  - cbn [scanString]. rewrite Hc, IH, <- app_assoc. reflexivity.
Qed.

(** Whatever follows an opening quote, up to the end of the input, is
    accepted as a string token when no closing quote comes. *)
Lemma tokenizeFilter_open_quote (body : jsstring) :
  Forall (fun c => (c =? quote) = false) body ->
  tokenizeFilter (quote :: body) = Ok [TString body].
Proof.
  intros H. unfold tokenizeFilter. cbn [List.length tokenizeLoop].
  change (is_space quote) with false. change (quote =? quote) with true.
  cbn iota. rewrite (scanString_no_quote body [] H). reflexivity.
Qed.

(** C8. On [City eq 'abc], whose string literal is never closed, the lexer
    returns a token stream ending in the string token [abc], and the filter
    compiles; no parse error is raised. *)
Theorem tokenizeFilter_unclosed_string :
  tokenizeFilter (js "City eq 'abc")
  = Ok [TIdentifier (js "City"); TOperator (js "eq"); TString (js "abc")]
  /\ parseFilter (Some (js "City eq 'abc")) Property.fieldMap
     = Ok (Fragment (js "CITY = @filter0") [(js "filter0", VString (js "abc"))]).
Proof. split; vm_compute; reflexivity. Qed.

(* ================================================================== *)
(** * Member and Office keys *)

Lemma lookup_calls (db : gateway) (setName : string) (o : options) (key : keyvalue)
  (expansions : list jsstring) (p : plan) :
  buildQuery o = Ok p ->
  snd (lookup db setName o key expansions) = [(dataQuery p, plan_params p)].
Proof.
  intros H. unfold lookup. rewrite H.
  destruct (db (dataQuery p) (plan_params p)) as [[|record records]|]; reflexivity.
Qed.

(** [parseInt(key) || key] is a number exactly when the key parses to a
    non-zero integer. *)
Lemma parseIntOrKey_number (key : jsstring) (z : Z) :
  parseIntOrKey key = KeyNumber z <-> parseInt (Some key) = Some z /\ z <> 0%Z.
Proof.
  unfold parseIntOrKey. destruct (parseInt (Some key)) as [n|].
  - destruct (Z.eqb_spec n 0); split.
    + discriminate.
    + intros [[= ->] H]. contradiction.
    + intros [= ->]. split; [reflexivity|assumption].
    + intros [[= ->] _]. reflexivity.
  - split; [discriminate|]. intros [H _]. discriminate.
Qed.

(** C9. The key [0] parses to the integer 0, yet [parseInt(key) || key]
    falls back to the text: the Member and the Office drivers issue their
    query with [keyValue] bound to the string ['0']. *)
Theorem zero_key_bound_as_string (db : gateway) :
  parseInt (Some (js "0")) = Some 0%Z
  /\ parseIntOrKey (js "0") = KeyString (js "0")
  /\ map snd (snd (Member.get db (js "0") no_options))
     = [[(js "keyValue", VString (js "0"))]]
  /\ map snd (snd (Office.get db (js "'0'") no_options))
     = [[(js "keyValue", VString (js "0"))]].
Proof.
  split; [reflexivity|]. split; [reflexivity|]. split.
  - unfold Member.get.
    change (parseIntOrKey (stripQuotes (js "0"))) with (KeyString (js "0")).
    destruct (buildQuery (Options Member.TABLE Member.fieldMap no_options
                Member.KEY_FIELD (Some (KeyString (js "0"))) None None))
      as [p|] eqn:E; [|vm_compute in E; discriminate].
    rewrite (lookup_calls _ _ _ _ _ p E). vm_compute in E. injection E as <-.
    reflexivity.
  - unfold Office.get.
    change (parseIntOrKey (stripQuotes (js "'0'"))) with (KeyString (js "0")).
    destruct (buildQuery (Options Office.TABLE Office.fieldMap no_options
                Office.KEY_FIELD (Some (KeyString (js "0"))) None None))
      as [p|] eqn:E; [|vm_compute in E; discriminate].
    rewrite (lookup_calls _ _ _ _ _ p E). vm_compute in E. injection E as <-.
    reflexivity.
Qed.

(* ================================================================== *)
(** * The middleware without configured credentials *)

(** C10. When [OAUTH_CLIENT_ID] or [OAUTH_CLIENT_SECRET] is not configured,
    the middleware calls [next()] for every request whatever its
    [Authorization] header: nothing is rejected, the token store is neither
    read nor changed, no client is attached, and the protected route handler
    runs. *)
Theorem middleware_unconfigured
  (CLIENT_ID CLIENT_SECRET authorization : option jsstring)
  (store : Auth.token_store) (now : Z) :
  truthy_opt CLIENT_ID = false \/ truthy_opt CLIENT_SECRET = false ->
  Auth.middleware CLIENT_ID CLIENT_SECRET authorization store now
  = (Auth.Next None, store, [])
  /\ forall (R : Type) (handler : option jsstring -> R),
       Auth.protected
         (fst (fst (Auth.middleware CLIENT_ID CLIENT_SECRET authorization store now)))
         handler
       = Some (handler None).
Proof.
  intros H.
  assert (E : Auth.middleware CLIENT_ID CLIENT_SECRET authorization store now
              = (Auth.Next None, store, [])).
  { unfold Auth.middleware. destruct H as [-> | ->]; [reflexivity|].
    rewrite orb_true_r. reflexivity. }
  split; [exact E|]. intros R handler. rewrite E. reflexivity.
Qed.

Lemma middleware_unconfigured_witness :
  (truthy_opt None = false \/ truthy_opt (Some (js "secret")) = false)
  /\ Auth.middleware None (Some (js "secret")) (Some (js "Bearer forged"))
       [(js "t", Auth.TokenData (js "client") 0)] 10
     = (Auth.Next None, [(js "t", Auth.TokenData (js "client") 0)], []).
Proof.
  split; [left; reflexivity|].
  apply (middleware_unconfigured None (Some (js "secret")) (Some (js "Bearer forged"))
           [(js "t", Auth.TokenData (js "client") 0)] 10).
  left. reflexivity.
Defined.

(* ================================================================== *)
(** * ORDER BY *)

Lemma mapM_Forall2 {A B} (f : A -> result B) (l : list A) (ys : list B) :
  mapM f l = Ok ys -> Forall2 (fun x y => f x = Ok y) l ys.
Proof.
  revert ys. induction l as [|x l IH]; intros ys H; cbn [mapM] in H.
  - injection H as <-. constructor.
  - apply bind_Ok in H as (y & Hy & H). apply bind_Ok in H as (ys' & Hys & H).
    injection H as <-. constructor; auto.
Qed.

Lemma split_spaces_from_nonempty (in_sep : bool) (s : jsstring) :
  split_spaces_from in_sep s <> [].
Proof.
  revert in_sep. induction s as [|c s IH]; intros in_sep; cbn [split_spaces_from].
  - discriminate.
  - destruct (is_space c).
    + destruct in_sep; [apply IH|discriminate].
    + destruct (split_spaces_from false s); discriminate.
Qed.

Lemma split_on_nonempty (sep : N) (s : jsstring) : split_on sep s <> [].
Proof.
  induction s as [|c s IH]; cbn [split_on]; [discriminate|].
  destruct (c =? sep); [discriminate|]. destruct (split_on sep s); discriminate.
Qed.

Lemma truthy_app_cons (a : jsstring) (c : N) (b : jsstring) :
  truthy (a ++ c :: b) = true.
Proof. destruct a; reflexivity. Qed.

Lemma truthy_join (sep x : jsstring) (l : list jsstring) :
  truthy x = true -> truthy (join sep (x :: l)) = true.
Proof.
  intros H. destruct x; [discriminate|]. destruct l; reflexivity.
Qed.

Lemma reassoc {A} (a b c d : list A) : a ++ (b ++ c) ++ d = a ++ b ++ c ++ d.
Proof. now rewrite <- (app_assoc b). Qed.

Lemma orderByPart_entry (fieldMap : jsobject jsstring) (part text : jsstring) :
  orderByPart fieldMap part = Ok text -> order_entry fieldMap part text.
Proof.
  unfold orderByPart, order_entry, split_spaces.
  pose proof (split_spaces_from_nonempty false (trim part)) as Hne.
  destruct (split_spaces_from false (trim part)) as [|field pieces]; [contradiction|].
  cbn [hd hd_error nth_error].
  destruct (has_key fieldMap field) eqn:Hk; cbn [negb]; [|discriminate].
  destruct (has_key_get _ _ Hk) as [column Hc]. rewrite Hc. cbn [template].
  intros [= <-].
  exists field, column.
  destruct pieces as [|d pieces]; cbn [nth_error].
  - exists (js "ASC"). repeat split; auto using get_In; intros; discriminate.
  - destruct (jsstring_eqb (toLowerCase d) (js "desc")) eqn:E.
    + exists (js "DESC"). apply jsstring_eqb_eq in E.
      repeat split; auto using get_In; try discriminate.
      intros d' [= <-] H. contradiction.
    + exists (js "ASC"). apply jsstring_eqb_neq in E.
      repeat split; auto using get_In; try discriminate.
      intros d' [= <-] H. contradiction.
Qed.

(** C5. The data statement of every plan has an ORDER BY clause, placed
    right before the OFFSET/FETCH tail.  With a non-empty [$orderby] the
    clause lists, in order, one entry per comma-separated part, each the
    backend column of the named field with its direction; with none it is
    the first column of the field map. *)
Theorem dataQuery_order_by (o : options) (p : plan) :
  buildQuery o = Ok p ->
  exists before clause,
    dataQuery p = before ++ js "ORDER BY " ++ clause ++ tail_of_data p
    /\ occurs_in (js "ORDER BY ") (dataQuery p)
    /\ (truthy_opt (q_orderby (query o)) = false ->
        clause = template (hd_error (obj_values (fieldMap o)))
        /\ forall name column rest,
             fieldMap o = (name, column) :: rest -> clause = column)
    /\ (forall orderby,
          q_orderby (query o) = Some orderby -> orderby <> [] ->
          exists entries,
            Forall2 (order_entry (fieldMap o)) (split_on 44 orderby) entries
            /\ clause = join (js ", ") entries).
Proof.
  intros H.
  apply buildQuery_inv in H
    as (sel & conds & orderBy & _ & _ & Hob & _ & _ & Hdata & _).
  unfold parseOrderBy in Hob.
  destruct (truthy_opt (q_orderby (query o))) eqn:Ht; cbn [negb] in Hob.
  - apply bind_Ok in Hob as (parts & Hparts & Hob). injection Hob as <-.
    apply mapM_Forall2 in Hparts.
    assert (Hentries : Forall2 (order_entry (fieldMap o))
                         (split_on 44 (template (q_orderby (query o)))) parts).
    { eapply Forall2_impl; [|exact Hparts]. intros a b. apply orderByPart_entry. }
    assert (Htruthy : truthy (join (js ", ") parts) = true).
    { pose proof (split_on_nonempty 44 (template (q_orderby (query o)))) as Hne.
      destruct Hentries as [|part text l l' He _].
      - contradiction.
      - destruct He as (field & column & dir & _ & _ & _ & -> & _).
        apply truthy_join. change (js " " ++ dir) with (32 :: dir).
        apply truthy_app_cons. }
    unfold orderByClauseOf in Hdata. rewrite Htruthy in Hdata.
    eexists. exists (join (js ", ") parts). split; [|split; [|split]].
    + rewrite Hdata. apply reassoc.
    + rewrite Hdata. eexists. eexists. apply reassoc.
    + discriminate.
    + intros orderby Hq _. rewrite Hq in Hentries. cbn [template] in Hentries.
      exists parts. split; [assumption|reflexivity].
  - injection Hob as <-. unfold orderByClauseOf in Hdata. cbn [truthy] in Hdata.
    eexists. exists (template (hd_error (obj_values (fieldMap o)))).
    split; [|split; [|split]].
    + rewrite Hdata. apply reassoc.
    + rewrite Hdata. eexists. eexists. apply reassoc.
    + intros _. split; [reflexivity|]. intros name column rest ->. reflexivity.
    + intros orderby Hq Hne. rewrite Hq in Ht. destruct orderby; [contradiction|].
      discriminate.
Qed.

(* ================================================================== *)
(** * The count query *)



(** The three [list] handlers issue exactly the calls of their plan. *)
Lemma list_handlers_calls (host : jsstring) (q : query_options) (calls : list db_call) :
  (Property.list host q = Ok calls ->
   exists p, buildQuery (Options Property.TABLE Property.fieldMap q Property.KEY_FIELD
                           None (Some (host ++ js "/Property")) None) = Ok p
             /\ calls = listCalls p)
  /\ (Member.list q = Ok calls ->
      exists p, buildQuery (Options Member.TABLE Member.fieldMap q Member.KEY_FIELD
                              None None None) = Ok p
                /\ calls = listCalls p)
  /\ (Office.list q = Ok calls ->
      exists p, buildQuery (Options Office.TABLE Office.fieldMap q Office.KEY_FIELD
                              None None None) = Ok p
                /\ calls = listCalls p).
Proof.
  unfold Property.list, Member.list, Office.list. repeat split; intros H.
  - apply bind_Ok in H as (? & _ & H). apply bind_Ok in H as (p & Hp & H).
    injection H as <-. eauto.
  - apply bind_Ok in H as (p & Hp & H). injection H as <-. eauto.
  - apply bind_Ok in H as (p & Hp & H). injection H as <-. eauto.
Qed.

(* ================================================================== *)
(** * The next link *)

Lemma code_points_ascii (s : jsstring) :
  Forall (fun c => c < 128) s -> code_points s = s.
Proof.
  induction 1 as [|c s Hc _ IH]; cbn [code_points]; [reflexivity|].
  unfold in_range.
  replace (55296 <=? c) with false by (symmetry; apply N.leb_gt; lia).
  replace (56320 <=? c) with false by (symmetry; apply N.leb_gt; lia).
  cbn [andb]. now rewrite IH.
Qed.

Lemma urlencode_digits (s : jsstring) :
  Forall (fun c => is_digit c = true) s -> urlencode s = s.
Proof.
  intros H. unfold urlencode, utf8_encode.
  rewrite code_points_ascii.
  - induction H as [|c s Hc _ IH]; cbn [flat_map]; [reflexivity|].
    unfold is_digit, in_range in Hc.
    apply andb_true_iff in Hc as [H1 H2]. apply N.leb_le in H1, H2.
    unfold utf8_bytes at 1.
    replace (c <? 128) with true by (symmetry; apply N.ltb_lt; lia).
    cbn [flat_map app]. rewrite IH. unfold urlencode_byte, is_digit, in_range.
    replace (c =? 32) with false by (symmetry; apply N.eqb_neq; lia).
    replace (48 <=? c) with true by (symmetry; apply N.leb_le; lia).
    replace (c <=? 57) with true by (symmetry; apply N.leb_le; lia).
    cbn [andb]. rewrite !orb_true_r. reflexivity.
  - eapply Forall_impl; [|exact H]. intros c Hc. unfold is_digit, in_range in Hc.
    apply andb_true_iff in Hc as [H1 H2]. apply N.leb_le in H1, H2. lia.
Qed.

Lemma urlencode_nonnegative (z : Z) : (0 <= z)%Z -> urlencode (Z_toString z) = Z_toString z.
Proof.
  intros H. apply urlencode_digits. destruct z; try apply N_toString_digits. lia.
Qed.

(** Closed sub-terms are evaluated, appends are flattened. *)
Ltac eval_key_tests :=
  repeat match goal with
    | |- context [jsstring_eqb (js ?a) (js ?b)] =>
        let v := eval vm_compute in (jsstring_eqb (js a) (js b)) in
        change (jsstring_eqb (js a) (js b)) with v
    end.

Ltac eval_constants :=
  repeat match goal with
    | |- context [js ?a] =>
        let v := eval vm_compute in (js a) in change (js a) with v
    end;
  repeat match goal with
    | |- context [urlencode (?a :: ?l)] =>
        lazymatch l with
        | context [template] => fail
        | _ => let v := eval vm_compute in (urlencode (a :: l)) in
               change (urlencode (a :: l)) with v
        end
    end.

Ltac normalize_app :=
  repeat (progress (repeat rewrite <- app_assoc; rewrite ?app_nil_r; cbn [app])).

(** Below [2^53] in size an integer is a double and prints as its decimal
    digits. *)
Lemma roundDouble_safe (z : Z) : (Z.abs z < 2 ^ 53)%Z -> roundDouble z = z.
Proof.
  intros H. unfold roundDouble.
  destruct (Z.ltb_spec (Z.abs z) (2 ^ 53)); [reflexivity|lia].
Qed.

Lemma Number_toString_safe (z : Z) :
  (Z.abs z < 2 ^ 53)%Z -> Number_toString z = Z_toString z.
Proof.
  intros H. unfold Number_toString.
  destruct (Z.ltb_spec (Z.abs z) (2 ^ 53)); [reflexivity|lia].
Qed.

(** C7, as the code computes it.  A plan built with a base URL has a
    next-link closure.  With [next] the sum [skip + top] as a double, the
    closure applied to a total returns null exactly when [next >= total];
    otherwise the URL [<baseUrl>?%24top=<top>&%24skip=<next>] followed by
    those of [$select], [$filter], [$orderby], [$count] the client supplied,
    names and values URL-encoded, so each [$] reads [%24].  While
    [skip + top] is below [2^53] the double is the sum itself and prints as
    its decimal digits. *)
Theorem nextLinkBuilder_spec (o : options) (p : plan) (base : jsstring) :
  buildQuery o = Ok p ->
  baseUrl o = Some base -> base <> [] ->
  exists builder,
    nextLinkBuilder p = Some builder
    /\ forall total : Z,
         let next := roundDouble (skip p + top p) in
         (builder total = None <-> (next >= total)%Z)
         /\ ((next < total)%Z ->
             builder total
             = Some (base ++ js "?%24top=" ++ Z_toString (top p)
                       ++ js "&%24skip=" ++ urlencode (Number_toString next)
                       ++ carried "select" (q_select (query o))
                       ++ carried "filter" (q_filter (query o))
                       ++ carried "orderby" (q_orderby (query o))
                       ++ carried "count" (q_count (query o))))
         /\ ((skip p + top p < 2 ^ 53)%Z ->
             next = (skip p + top p)%Z
             /\ urlencode (Number_toString next) = Z_toString (skip p + top p)).
Proof.
  intros H Hbase Hne.
  destruct (plan_pagination o p H) as [Et Es].
  pose proof (query_top_range (query o)) as Htop.
  pose proof (query_skip_nonneg (query o)) as Hskip.
  rewrite <- Et in Htop. rewrite <- Es in Hskip.
  apply buildQuery_inv in H as (_ & _ & _ & _ & _ & _ & _ & _ & _ & _ & Hnext).
  rewrite Hbase in Hnext. destruct base as [|c base]; [contradiction|].
  cbn [truthy_opt truthy template] in Hnext.
  eexists. split; [exact Hnext|]. intros total next. subst next. unfold nextLink.
  split; [|split].
  - destruct (Z.ltb_spec (roundDouble (skip p + top p)) total) as [Hlt|Hge].
    + split; [discriminate|lia].
    + split; [lia|reflexivity].
  - intros Hlt.
    destruct (Z.ltb_spec (roundDouble (skip p + top p)) total) as [_|Hge]; [|lia].
    f_equal.
    rewrite (Number_toString_safe (top p)) by lia.
    set (nextSkip := Number_toString (roundDouble (skip p + top p))).
    unfold set_if_truthy, carried, URLSearchParams_toString.
    destruct (truthy_opt (q_select (query o))), (truthy_opt (q_filter (query o))),
      (truthy_opt (q_orderby (query o))), (truthy_opt (q_count (query o)));
      repeat (cbn [obj_set]; eval_key_tests; cbn iota);
      cbn [map join fst snd];
      rewrite (urlencode_nonnegative (top p)) by lia;
      eval_constants; normalize_app; reflexivity.
  - intros Hsafe.
    rewrite (roundDouble_safe (skip p + top p)) by lia. split; [reflexivity|].
    rewrite (Number_toString_safe (skip p + top p)) by lia.
    apply urlencode_nonnegative. lia.
Qed.

(** C7, as the claim has it, fails from [2^53] on.  At [$skip=9007199254740992],
    [$top=1] the link carries the same [$skip], not [skip + top]; at
    [$skip=9007199254740994], [$top=1] and a total of [9007199254740996]
    the closure returns null although [skip + top] is below the total. *)
Lemma nextLink_rounds_from_2_53 :
  let request skipText :=
    Options Property.TABLE Property.fieldMap
      (Query (Some (js "1")) (Some skipText) None None None None None)
      Property.KEY_FIELD None (Some (js "http://localhost/odata/Property")) None in
  (exists p builder,
      buildQuery (request (js "9007199254740992")) = Ok p
      /\ top p = 1%Z /\ skip p = 9007199254740992%Z
      /\ nextLinkBuilder p = Some builder
      /\ builder (10 ^ 18)%Z
         = Some (js "http://localhost/odata/Property?%24top=1&%24skip=9007199254740992"))
  /\ (exists p builder,
         buildQuery (request (js "9007199254740994")) = Ok p
         /\ top p = 1%Z /\ skip p = 9007199254740994%Z
         /\ (skip p + top p < 9007199254740996)%Z
         /\ nextLinkBuilder p = Some builder
         /\ builder 9007199254740996%Z = None).
Proof.
  intros request. split.
  - destruct (buildQuery (request (js "9007199254740992"))) as [p|] eqn:E;
      [|vm_compute in E; discriminate].
    destruct (buildQuery_inv _ _ E) as (_ & _ & _ & _ & _ & _ & Ht & Hs & _ & _ & Hn).
    exists p. eexists. split; [reflexivity|]. split; [rewrite Ht; reflexivity|].
    split; [rewrite Hs; reflexivity|]. split; [exact Hn|].
    rewrite Ht, Hs. vm_compute. reflexivity.
  - destruct (buildQuery (request (js "9007199254740994"))) as [p|] eqn:E;
      [|vm_compute in E; discriminate].
    destruct (buildQuery_inv _ _ E) as (_ & _ & _ & _ & _ & _ & Ht & Hs & _ & _ & Hn).
    exists p. eexists. split; [reflexivity|]. split; [rewrite Ht; reflexivity|].
    split; [rewrite Hs; reflexivity|].
    split; [rewrite Ht, Hs; vm_compute; reflexivity|]. split; [exact Hn|].
    rewrite Ht, Hs. vm_compute. reflexivity.
Qed.

(* ================================================================== *)
(** * Single-entity lookup of a Property *)







(* ================================================================== *)
(** * Parameterization of the filter compiler *)

(** ** The lexer produces lexed tokens *)

Lemma classifyWord_lexed (word : jsstring) : lexed (classifyWord word).
Proof.
  unfold classifyWord.
  destruct (word_in (toLowerCase word) operators) eqn:E1; [exact E1|].
  destruct (word_in (toLowerCase word) logicals) eqn:E2; [exact E2|].
  destruct (word_in (toLowerCase word) functions) eqn:E3; [exact E3|].
  destruct (word_in (toLowerCase word) literals) eqn:E4; [exact E4|exact I].
Qed.

Lemma tokenizeLoop_lexed (fuel : nat) :
  forall rest tokens result,
    Forall lexed tokens ->
    tokenizeLoop fuel rest tokens = Some (Ok result) -> Forall lexed result.
Proof.
  induction fuel as [|fuel IH]; intros rest tokens result Hl H; cbn [tokenizeLoop] in H;
    [discriminate|].
  assert (Hsnoc : forall t, lexed t -> Forall lexed (tokens ++ [t])).
  { intros t Ht. apply Forall_app. split; [assumption|]. constructor; [assumption|constructor]. }
  destruct rest as [|c rest1]; [injection H as <-; assumption|].
  destruct (is_space c); [eauto|].
  destruct (c =? quote).
  { destruct (scanString rest1 []) as [v at_close]. eapply IH; [|exact H].
    apply Hsnoc. exact I. }
  destruct (is_number_start c).
  { destruct (isDatetime (c :: rest1)).
    - destruct (span is_datetime_char (c :: rest1)) as [v after].
      eapply IH; [|exact H]. apply Hsnoc. exact I.
    - destruct (span is_number_char (c :: rest1)) as [v after].
      eapply IH; [|exact H]. apply Hsnoc. exact I. }
  destruct ((c =? 40) || (c =? 41)) eqn:Ep.
  { eapply IH; [|exact H]. apply Hsnoc. cbn [lexed].
    apply orb_true_iff in Ep as [E|E]; apply N.eqb_eq in E; subst; auto. }
  destruct (c =? 44).
  { eapply IH; [|exact H]. apply Hsnoc. exact I. }
  destruct (is_word_start c); [|discriminate].
  destruct (span is_word_char (c :: rest1)) as [word after].
  eapply IH; [|exact H]. apply Hsnoc. apply classifyWord_lexed.
Qed.

Lemma tokenizeFilter_lexed (filter : jsstring) (tokens : list token) :
  tokenizeFilter filter = Ok tokens -> Forall lexed tokens.
Proof.
  unfold tokenizeFilter.
  destruct (tokenizeLoop (S (List.length filter)) filter []) as [r|] eqn:E;
    [|discriminate].
  intros ->. eapply tokenizeLoop_lexed; [|exact E]. constructor.
Qed.

(** ** Parameter names are fresh *)

Lemma paramName_inj (n m : N) : paramName n = paramName m -> n = m.
Proof.
  unfold paramName. intros H. apply app_inv_head in H. now apply N_toString_inj.
Qed.

Lemma obj_set_named (start : N) (values : list jsvalue) (v : jsvalue) :
  obj_set (named start values) (paramName (start + N.of_nat (List.length values))) v
  = named start (values ++ [v]).
Proof.
  revert start. induction values as [|w values IH]; intros start.
  - cbn [named List.length app obj_set]. now rewrite N.add_0_r.
  - cbn [named List.length app obj_set].
    destruct (jsstring_eqb (paramName start)
                (paramName (start + N.of_nat (S (List.length values))))) eqn:E.
    + apply jsstring_eqb_eq, paramName_inj in E. lia.
    + f_equal. rewrite <- IH. f_equal. f_equal. lia.
Qed.

(** ** The function-call branch *)

Lemma parseLoop_call (fm : jsobject jsstring) (f field v : jsstring)
  (rest : list token) (st : compiler_state) :
  has_key fm field = true ->
  parseLoop fm (TFunction f :: TParen (js "(") :: TIdentifier field :: TComma
                  :: TString v :: TParen (js ")") :: rest) st
  = parseLoop fm rest (applyFunction st f (template (obj_get fm field)) v).
Proof.
  intros H. cbn [parseLoop isParen]. rewrite !jsstring_eqb_refl. cbn [negb].
  rewrite H. reflexivity.
Qed.

Lemma isParen_true (t : token) (c : string) :
  isParen t c = true -> t = TParen (js c).
Proof.
  destruct t; cbn [isParen]; try discriminate. intros H.
  apply jsstring_eqb_eq in H. now subst.
Qed.

Lemma parseLoop_call_inv (fm : jsobject jsstring) (f : jsstring) (rest : list token)
  (st st' : compiler_state) :
  parseLoop fm (TFunction f :: rest) st = Ok st' ->
  exists field v rest5,
    rest = TParen (js "(") :: TIdentifier field :: TComma :: TString v
           :: TParen (js ")") :: rest5
    /\ has_key fm field = true
    /\ parseLoop fm rest5 (applyFunction st f (template (obj_get fm field)) v) = Ok st'.
Proof.
  cbn [parseLoop]. intros H.
  destruct rest as [|open rest1]; [discriminate|].
  destruct (isParen open "(") eqn:Eo; cbn [negb] in H; [|discriminate].
  apply isParen_true in Eo. subst open.
  destruct rest1 as [|[field| | | | | | | | |] rest2]; try discriminate.
  destruct (has_key fm field) eqn:Ek; cbn [negb] in H; [|discriminate].
  destruct rest2 as [|[] rest3]; try discriminate.
  destruct rest3 as [|[| | | |v| | | | |] rest4]; try discriminate.
  destruct rest4 as [|close rest5]; [discriminate|].
  destruct (isParen close ")") eqn:Ec; cbn [negb] in H; [|discriminate].
  apply isParen_true in Ec. subst close.
  exists field, v, rest5. auto.
Qed.

Lemma word_in_In (w : jsstring) (ws : list string) :
  word_in w ws = true -> exists k, In k ws /\ w = js k.
Proof.
  unfold word_in. intros H. apply existsb_exists in H as (k & Hk & E).
  apply jsstring_eqb_eq in E. eauto.
Qed.

Ltac one_of_words H :=
  apply word_in_In in H as (? & H & ->); cbn [In operators logicals functions literals] in H;
  repeat (destruct H as [<-|H]; [|]); try contradiction.

Ltac in_fixed := vm_compute; repeat (try (left; reflexivity); right).

Lemma operator_piece (v : jsstring) :
  word_in v operators = true ->
  In (js " " ++ template (obj_get opMap v) ++ js " ") fixed_texts.
Proof. intros H. one_of_words H; in_fixed. Qed.

Lemma logical_piece (v : jsstring) :
  word_in v logicals = true -> In (js " " ++ toUpperCase v ++ js " ") fixed_texts.
Proof. intros H. one_of_words H; in_fixed. Qed.

Lemma literal_piece (v : jsstring) :
  word_in v literals = true -> In (literalSql v) fixed_texts.
Proof. intros H. one_of_words H; in_fixed. Qed.

Lemma applyFunction_lexed (st : compiler_state) (f dbField v : jsstring) :
  word_in f functions = true ->
  applyFunction st f dbField v = bindParam st (dbField ++ js " LIKE ") (like_pattern f v).
Proof. intros H. one_of_words H; reflexivity. Qed.

(** ** What a successful walk has emitted *)

Lemma bindParam_named (st : compiler_state) (before : jsstring) (v : jsvalue)
  (values : list jsvalue) :
  st_params st = named 0 values -> paramIndex st = N.of_nat (List.length values) ->
  st_params (bindParam st before v) = named 0 (values ++ [v])
  /\ paramIndex (bindParam st before v) = N.of_nat (List.length (values ++ [v]))
  /\ st_sql (bindParam st before v)
     = st_sql st ++ before ++ js "@" ++ paramName (paramIndex st).
Proof.
  intros Hp Hi. unfold bindParam. cbn [st_params paramIndex st_sql].
  rewrite Hp, Hi. split; [|split; [|reflexivity]].
  - rewrite <- (obj_set_named 0 values v). reflexivity.
  - rewrite length_app. cbn [List.length]. lia.
Qed.

Lemma parseLoop_emits (fm : jsobject jsstring) (n : nat) :
  forall tokens, (List.length tokens <= n)%nat -> Forall lexed tokens ->
  forall st st' values,
    st_params st = named 0 values -> paramIndex st = N.of_nat (List.length values) ->
    parseLoop fm tokens st = Ok st' ->
    st_params st' = named 0 (values ++ emitted_values tokens)
    /\ exists pieces,
         Forall (sql_piece fm) pieces /\ st_sql st' = st_sql st ++ concat pieces.
Proof.
  induction n as [|n IH]; intros tokens Hlen Hlex st st' values Hp Hi H.
  { destruct tokens; [|cbn in Hlen; lia]. injection H as <-.
    cbn [emitted_values]. rewrite !app_nil_r. split; [assumption|]. exists [].
    split; [constructor|]. cbn [concat]. now rewrite app_nil_r. }
  destruct tokens as [|t rest].
  { injection H as <-. cbn [emitted_values]. rewrite !app_nil_r.
    split; [assumption|]. exists []. split; [constructor|]. cbn [concat].
    now rewrite app_nil_r. }
  cbn [List.length] in Hlen. inversion Hlex as [|? ? Ht Hrest]; subst.
  (* a token that writes [text] and binds nothing *)
  assert (Hemit : forall text,
            sql_piece fm text -> emitted_values (t :: rest) = emitted_values rest ->
            parseLoop fm rest (emit st text) = Ok st' ->
            st_params st' = named 0 (values ++ emitted_values (t :: rest))
            /\ exists pieces,
                 Forall (sql_piece fm) pieces /\ st_sql st' = st_sql st ++ concat pieces).
  { intros text Hpiece -> H'.
    destruct (IH rest ltac:(lia) Hrest (emit st text) st' values Hp Hi H')
      as (Hps & pieces & Hpieces & Hsql).
    split; [assumption|]. exists (text :: pieces). split; [constructor; assumption|].
    rewrite Hsql. cbn [emit st_sql concat]. now rewrite <- app_assoc. }
  (* a token that binds [v] *)
  assert (Hbind : forall v,
            emitted_values (t :: rest) = v :: emitted_values rest ->
            parseLoop fm rest (bindParam st [] v) = Ok st' ->
            st_params st' = named 0 (values ++ emitted_values (t :: rest))
            /\ exists pieces,
                 Forall (sql_piece fm) pieces /\ st_sql st' = st_sql st ++ concat pieces).
  { intros v -> H'.
    destruct (bindParam_named st [] v values Hp Hi) as (Hp' & Hi' & Hs').
    destruct (IH rest ltac:(lia) Hrest _ st' _ Hp' Hi' H')
      as (Hps & pieces & Hpieces & Hsql).
    split; [rewrite Hps, <- app_assoc; reflexivity|].
    exists ((js "@" ++ paramName (paramIndex st)) :: pieces).
    split; [constructor; [apply piece_placeholder|assumption]|].
    rewrite Hsql, Hs'. cbn [concat app]. now rewrite <- app_assoc. }
  destruct t as [field|v|v|f|v|text|v|v|v|]; cbn [parseLoop] in H.
  - destruct (has_key fm field) eqn:Ek; [|discriminate].
    destruct (has_key_get _ _ Ek) as [column Hc]. rewrite Hc in H. cbn [template] in H.
    apply (Hemit column); [|reflexivity|assumption].
    apply (piece_column fm field); [now apply get_In|assumption].
  - eapply Hemit; [|reflexivity|exact H]. apply piece_fixed, operator_piece, Ht.
  - eapply Hemit; [|reflexivity|exact H]. apply piece_fixed, logical_piece, Ht.
  - fold (parseLoop fm (TFunction f :: rest) st) in H.
    clear Hemit Hbind.
    change (match rest with
            | [] => Throw (js "Expected ( after " ++ f)
            | open :: rest1 => _
            end = Ok st') with (parseLoop fm (TFunction f :: rest) st = Ok st') in H.
    apply parseLoop_call_inv in H as (field & v & rest5 & -> & Ek & H).
    rewrite (applyFunction_lexed _ _ _ _ Ht) in H.
    destruct (has_key_get _ _ Ek) as [column Hc]. rewrite Hc in H. cbn [template] in H.
    destruct (bindParam_named st (column ++ js " LIKE ") (like_pattern f v) values Hp Hi)
      as (Hp' & Hi' & Hs').
    assert (Hrest5 : Forall lexed rest5).
    { do 5 (inversion Hrest as [|? ? _ Hrest']; subst; clear Hrest; rename Hrest' into Hrest).
      assumption. }
    cbn [List.length] in Hlen.
    destruct (IH rest5 ltac:(lia) Hrest5 _ st' _ Hp' Hi' H)
      as (Hps & pieces & Hpieces & Hsql).
    cbn [emitted_values]. split; [rewrite Hps, <- app_assoc; reflexivity|].
    exists (column :: js " LIKE " :: (js "@" ++ paramName (paramIndex st)) :: pieces).
    split.
    + constructor; [apply (piece_column fm field); [now apply get_In|assumption]|].
      constructor; [apply piece_fixed; in_fixed|].
      constructor; [apply piece_placeholder|assumption].
    + rewrite Hsql, Hs'. cbn [concat]. repeat rewrite <- app_assoc. reflexivity.
  - apply (Hbind (VString v)); [reflexivity|assumption].
  - apply (Hbind (VFloat text)); [reflexivity|assumption].
  - apply (Hbind (VString v)); [reflexivity|assumption].
  - eapply Hemit; [|reflexivity|exact H]. apply piece_fixed, literal_piece, Ht.
  - eapply Hemit; [|reflexivity|exact H]. apply piece_fixed.
    destruct Ht as [-> | ->]; in_fixed.
  - discriminate.
Qed.

(** ** The SQL text depends on the shape alone *)

Lemma same_text_emit (a b : compiler_state) (text : jsstring) :
  same_text a b -> same_text (emit a text) (emit b text).
Proof. intros [Hs Hi]. split; cbn [emit st_sql paramIndex]; congruence. Qed.

Lemma same_text_bindParam (a b : compiler_state) (before : jsstring) (v w : jsvalue) :
  same_text a b -> same_text (bindParam a before v) (bindParam b before w).
Proof. intros [Hs Hi]. split; cbn [bindParam st_sql paramIndex]; congruence. Qed.

Lemma same_text_applyFunction (a b : compiler_state) (f dbField v w : jsstring) :
  same_text a b -> same_text (applyFunction a f dbField v) (applyFunction b f dbField w).
Proof.
  intros H. unfold applyFunction.
  destruct (jsstring_eqb f (js "contains")); [now apply same_text_bindParam|].
  destruct (jsstring_eqb f (js "startswith")); [now apply same_text_bindParam|].
  destruct (jsstring_eqb f (js "endswith")); [now apply same_text_bindParam|].
  destruct H as [Hs Hi]. split; cbn [st_sql paramIndex]; congruence.
Qed.

Ltac invert_erase H :=
  match type of H with
  | erase ?t = _ => destruct t; cbn [erase] in H; try discriminate H
  end.

Lemma parseLoop_shape (fm : jsobject jsstring) (n : nat) :
  forall tokens1, (List.length tokens1 <= n)%nat ->
  forall tokens2 st1 st2 st1',
    map erase tokens2 = map erase tokens1 ->
    same_text st1 st2 ->
    parseLoop fm tokens1 st1 = Ok st1' ->
    exists st2', parseLoop fm tokens2 st2 = Ok st2' /\ same_text st1' st2'.
Proof.
  induction n as [|n IH]; intros tokens1 Hlen tokens2 st1 st2 st1' Hshape Hst H.
  { destruct tokens1; [|cbn in Hlen; lia]. destruct tokens2; [|discriminate].
    injection H as <-. exists st2. split; [reflexivity|assumption]. }
  destruct tokens1 as [|t1 rest1].
  { destruct tokens2; [|discriminate]. injection H as <-.
    exists st2. split; [reflexivity|assumption]. }
  destruct tokens2 as [|t2 rest2]; [discriminate|].
  cbn [map] in Hshape. injection Hshape as Ht Hrest. cbn [List.length] in Hlen.
  destruct t1 as [field|v|v|f|v|text|v|v|v|].
  - invert_erase Ht. injection Ht as ->. cbn [parseLoop] in H |- *.
    destruct (has_key fm field); [|discriminate].
    eapply (IH rest1); [lia|exact Hrest|apply same_text_emit, Hst|exact H].
  - invert_erase Ht. injection Ht as ->. cbn [parseLoop] in H |- *.
    eapply (IH rest1); [lia|exact Hrest|apply same_text_emit, Hst|exact H].
  - invert_erase Ht. injection Ht as ->. cbn [parseLoop] in H |- *.
    eapply (IH rest1); [lia|exact Hrest|apply same_text_emit, Hst|exact H].
  - invert_erase Ht. injection Ht as ->.
    apply parseLoop_call_inv in H as (field & v & rest5 & -> & Ek & H).
    cbn [map erase] in Hrest.
    destruct rest2 as [|t rest2]; [discriminate|]. injection Hrest as Ht Hrest.
    invert_erase Ht. injection Ht as ->.
    destruct rest2 as [|t rest2]; [discriminate|]. injection Hrest as Ht Hrest.
    invert_erase Ht. injection Ht as ->.
    destruct rest2 as [|t rest2]; [discriminate|]. injection Hrest as Ht Hrest.
    invert_erase Ht. clear Ht.
    destruct rest2 as [|t rest2]; [discriminate|]. injection Hrest as Ht Hrest.
    invert_erase Ht. clear Ht.
    destruct rest2 as [|t rest2]; [discriminate|]. injection Hrest as Ht Hrest.
    invert_erase Ht. injection Ht as ->.
    rewrite (parseLoop_call _ _ _ _ _ _ Ek). cbn [List.length] in Hlen.
    eapply (IH rest5); [lia|exact Hrest|apply same_text_applyFunction, Hst|exact H].
  - invert_erase Ht. cbn [parseLoop] in H |- *.
    eapply (IH rest1); [lia|exact Hrest|apply same_text_bindParam, Hst|exact H].
  - invert_erase Ht. cbn [parseLoop] in H |- *.
    eapply (IH rest1); [lia|exact Hrest|apply same_text_bindParam, Hst|exact H].
  - invert_erase Ht. cbn [parseLoop] in H |- *.
    eapply (IH rest1); [lia|exact Hrest|apply same_text_bindParam, Hst|exact H].
  - invert_erase Ht. injection Ht as ->. cbn [parseLoop] in H |- *.
    eapply (IH rest1); [lia|exact Hrest|apply same_text_emit, Hst|exact H].
  - invert_erase Ht. injection Ht as ->. cbn [parseLoop] in H |- *.
    eapply (IH rest1); [lia|exact Hrest|apply same_text_emit, Hst|exact H].
  - discriminate.
Qed.

(** ** The invariant *)

Lemma parseFilter_inv (filter : jsstring) (fm : jsobject jsstring) (r : fragment) :
  parseFilter (Some filter) fm = Ok r ->
  exists tokens st,
    tokenizeFilter filter = Ok tokens
    /\ parseLoop fm tokens (State [] [] 0) = Ok st
    /\ r = Fragment (st_sql st) (st_params st).
Proof.
  unfold parseFilter. destruct filter as [|c filter].
  - intros [= <-]. exists [], (State [] [] 0). repeat split; reflexivity.
  - destruct (tokenizeFilter (c :: filter)) as [tokens|] eqn:Et; cbn [bind];
      [|discriminate].
    unfold parseFilterTokens.
    destruct (parseLoop fm tokens (State [] [] 0)) as [st|] eqn:Ep; cbn [bind];
      [|discriminate].
    intros [= <-]. eauto.
Qed.

Lemma parseFilter_intro (filter : jsstring) (fm : jsobject jsstring)
  (tokens : list token) (st : compiler_state) :
  tokenizeFilter filter = Ok tokens ->
  parseLoop fm tokens (State [] [] 0) = Ok st ->
  exists r, parseFilter (Some filter) fm = Ok r /\ sql r = st_sql st.
Proof.
  intros Et Ep. unfold parseFilter. destruct filter as [|c filter].
  - vm_compute in Et. injection Et as <-. injection Ep as <-. eauto.
  - rewrite Et. cbn [bind]. unfold parseFilterTokens. rewrite Ep. cbn [bind]. eauto.
Qed.

(** C1, as the compiler is written.  For every accepted [$filter], the
    literal values (strings, numbers, datetimes, and function arguments
    inside their LIKE wildcards) are exactly the values of [params], under
    the names [filter0], [filter1], ... in emission order; the [sql] text is
    a concatenation of backend columns looked up in the field map, of the
    compiler's own operator, keyword and parenthesis texts and of
    [@filterN] placeholders; and it is the same for every filter of the same
    shape, whatever the literal values are. *)
Theorem parseFilter_parameterized (filter : jsstring) (fm : jsobject jsstring)
  (r : fragment) :
  parseFilter (Some filter) fm = Ok r ->
  exists tokens pieces,
    tokenizeFilter filter = Ok tokens
    /\ params r = named 0 (emitted_values tokens)
    /\ sql r = concat pieces
    /\ Forall (sql_piece fm) pieces
    /\ forall filter' tokens',
         tokenizeFilter filter' = Ok tokens' ->
         map erase tokens' = map erase tokens ->
         exists r', parseFilter (Some filter') fm = Ok r' /\ sql r' = sql r.
Proof.
  intros H. apply parseFilter_inv in H as (tokens & st & Et & Ep & ->).
  destruct (parseLoop_emits fm (List.length tokens) tokens (le_n _)
              (tokenizeFilter_lexed _ _ Et) (State [] [] 0) st [] eq_refl eq_refl Ep)
    as (Hparams & pieces & Hpieces & Hsql).
  exists tokens, pieces. cbn [sql params]. repeat split; try assumption.
  intros filter' tokens' Et' Hshape.
  destruct (parseLoop_shape fm (List.length tokens) tokens (le_n _) tokens'
              (State [] [] 0) (State [] [] 0) st Hshape (conj eq_refl eq_refl) Ep)
    as (st' & Ep' & Hs & _).
  destruct (parseFilter_intro _ _ _ _ Et' Ep') as (r' & Hr' & Hsql').
  exists r'. split; [assumption|]. congruence.
Qed.

Lemma parseFilter_parameterized_witness :
  exists r,
    parseFilter (Some (js "City eq 'x' and contains(City, 'y')")) Property.fieldMap = Ok r
    /\ params r = [(js "filter0", VString (js "x")); (js "filter1", VString (js "%y%"))]
    /\ sql r = js "CITY = @filter0 AND CITY LIKE @filter1".
Proof.
  destruct (parseFilter (Some (js "City eq 'x' and contains(City, 'y')"))
              Property.fieldMap) as [r|] eqn:E; [|vm_compute in E; discriminate].
  exists r. split; [reflexivity|].
  destruct (parseFilter_parameterized _ _ _ E) as (tokens & pieces & Et & Hp & _).
  split.
  - rewrite Hp. vm_compute in Et. injection Et as <-. vm_compute. reflexivity.
  - vm_compute in E. injection E as <-. reflexivity.
Defined.

(** C1, as the claim has it, fails on [City eq 'CITY']: the filter is
    accepted, its literal is bound to [filter0], and the literal's text
    occurs in the returned SQL all the same, as the name of the column. *)
Lemma literal_occurs_in_sql :
  exists r,
    parseFilter (Some (js "City eq 'CITY'")) Property.fieldMap = Ok r
    /\ tokenizeFilter (js "City eq 'CITY'")
       = Ok [TIdentifier (js "City"); TOperator (js "eq"); TString (js "CITY")]
    /\ params r = [(js "filter0", VString (js "CITY"))]
    /\ sql r = js "CITY = @filter0"
    /\ occurs_in (js "CITY") (sql r).
Proof.
  eexists. split; [vm_compute; reflexivity|]. cbn [sql params].
  repeat split. exists [], (js " = @filter0"). reflexivity.
Qed.

(* ================================================================== *)
(** * The lexer terminates *)

Lemma span_length (p : N -> bool) (s : jsstring) :
  (List.length (snd (span p s)) <= List.length s)%nat.
Proof.
  induction s as [|c s IH]; cbn [span]; [apply le_n|].
  destruct (p c); [|apply le_n].
  destruct (span p s) as [run after]. cbn [snd List.length] in *. lia.
Qed.

Lemma span_consumes (p : N -> bool) (c : N) (s : jsstring) :
  p c = true -> (List.length (snd (span p (c :: s))) <= List.length s)%nat.
Proof.
  intros H. cbn [span]. rewrite H. pose proof (span_length p s) as Hs.
  destruct (span p s) as [run after]. exact Hs.
Qed.

Lemma scanString_length (n : nat) :
  forall rest value, (List.length rest <= n)%nat ->
    (List.length (snd (scanString rest value)) <= List.length rest)%nat.
Proof.
  induction n as [|n IH]; intros rest value Hn.
  - destruct rest; [apply le_n|cbn in Hn; lia].
  - destruct rest as [|c rest1]; [apply le_n|]. cbn [scanString].
    cbn [List.length] in Hn.
    destruct (c =? quote).
    + destruct rest1 as [|c1 rest2]; [apply le_n|].
      destruct (c1 =? quote); [|apply le_n].
      cbn [List.length] in *.
      specialize (IH rest2 (value ++ [quote]) ltac:(lia)). lia.
    + specialize (IH rest1 (value ++ [c]) ltac:(lia)). cbn [List.length]. lia.
Qed.

Lemma tl_length {A} (l : list A) : (List.length (tl l) <= List.length l)%nat.
Proof. destruct l; cbn; lia. Qed.

Lemma isDatetime_digit (c : N) (rest : jsstring) :
  isDatetime (c :: rest) = true -> is_datetime_char c = true.
Proof.
  unfold isDatetime.
  destruct rest as [|? [|? [|? [|? [|? [|? [|? [|? [|? ?]]]]]]]]]; try discriminate.
  intros H. do 9 (apply andb_true_iff in H as [H _]).
  unfold is_datetime_char. now rewrite H.
Qed.

Lemma number_start_char (c : N) : is_number_start c = true -> is_number_char c = true.
Proof.
  unfold is_number_start, is_number_char. intros H.
  apply orb_true_iff in H as [H|H]; [apply orb_true_iff in H as [H|H]|];
    rewrite H; rewrite ?orb_true_r; reflexivity.
Qed.

Lemma word_start_char (c : N) : is_word_start c = true -> is_word_char c = true.
Proof. unfold is_word_char. now intros ->. Qed.

(** Fuel above the length of the input is never used up. *)
Lemma tokenizeLoop_total (fuel : nat) :
  forall rest tokens, (List.length rest < fuel)%nat ->
    exists r, tokenizeLoop fuel rest tokens = Some r.
Proof.
  induction fuel as [|fuel IH]; intros rest tokens Hlen; [lia|].
  cbn [tokenizeLoop]. destruct rest as [|c rest1]; [eauto|].
  cbn [List.length] in Hlen.
  destruct (is_space c); [apply IH; lia|].
  destruct (c =? quote).
  { pose proof (scanString_length _ rest1 [] (le_n _)) as Hs.
    destruct (scanString rest1 []) as [v at_close]. cbn [snd] in Hs.
    apply IH. pose proof (tl_length at_close). lia. }
  destruct (is_number_start c) eqn:En.
  { destruct (isDatetime (c :: rest1)) eqn:Ed.
    - pose proof (span_consumes _ c rest1 (isDatetime_digit _ _ Ed)) as Hs.
      destruct (span is_datetime_char (c :: rest1)) as [v after]. apply IH.
      cbn [snd] in Hs. lia.
    - pose proof (span_consumes _ c rest1 (number_start_char _ En)) as Hs.
      destruct (span is_number_char (c :: rest1)) as [v after]. apply IH.
      cbn [snd] in Hs. lia. }
  destruct ((c =? 40) || (c =? 41)); [apply IH; lia|].
  destruct (c =? 44); [apply IH; lia|].
  destruct (is_word_start c) eqn:Ew; [|eauto].
  pose proof (span_consumes _ c rest1 (word_start_char _ Ew)) as Hs.
  destruct (span is_word_char (c :: rest1)) as [word after]. apply IH.
  cbn [snd] in Hs. lia.
Qed.

(** [tokenizeFilter] returns what the loop computes: tokens or a parse
    error, never the out-of-fuel mark. *)
Lemma tokenizeFilter_total (filter : jsstring) :
  tokenizeLoop (S (List.length filter)) filter [] = Some (tokenizeFilter filter).
Proof.
  unfold tokenizeFilter.
  destruct (tokenizeLoop_total (S (List.length filter)) filter [] (le_n _)) as [r ->].
  reflexivity.
Qed.

(* ================================================================== *)
(** * The theorems at concrete requests *)

Lemma dataQuery_order_by_witness :
  exists p,
    buildQuery sample_options = Ok p
    /\ occurs_in (js "ORDER BY ") (dataQuery p)
    /\ exists entries,
         Forall2 (order_entry Property.fieldMap) [js "City desc"] entries.
Proof.
  destruct (buildQuery sample_options) as [p|] eqn:E; [|vm_compute in E; discriminate].
  exists p. split; [reflexivity|].
  destruct (dataQuery_order_by sample_options p E)
    as (before & clause & _ & Hoccurs & _ & Hgiven).
  split; [exact Hoccurs|].
  destruct (Hgiven (js "City desc") eq_refl ltac:(discriminate)) as (entries & H & _).
  exists entries. exact H.
Defined.


Lemma nextLinkBuilder_spec_witness :
  exists p builder,
    buildQuery sample_options = Ok p
    /\ nextLinkBuilder p = Some builder
    /\ builder 5%Z = None
    /\ builder 100%Z
       = Some (js "http://localhost/odata/Property?%24top=10&%24skip=10&%24filter=City+eq+%27LA%27&%24orderby=City+desc&%24count=true").
Proof.
  destruct (buildQuery sample_options) as [p|] eqn:E; [|vm_compute in E; discriminate].
  destruct (nextLinkBuilder_spec sample_options p
              (js "http://localhost/odata/Property") E eq_refl ltac:(discriminate))
    as (builder & Hb & Hspec).
  destruct (plan_pagination sample_options p E) as [Ht Hs].
  assert (Et : top p = 10%Z) by (rewrite Ht; reflexivity).
  assert (Es : skip p = 0%Z) by (rewrite Hs; reflexivity).
  exists p, builder. split; [reflexivity|]. split; [exact Hb|]. split.
  - destruct (Hspec 5%Z) as [Hnull _]. apply Hnull. rewrite Et, Es.
    change (roundDouble (0 + 10)) with 10%Z. lia.
  - destruct (Hspec 100%Z) as (_ & H & _). rewrite H.
    + rewrite Et, Es. vm_compute. reflexivity.
    + rewrite Et, Es. change (roundDouble (0 + 10)) with 10%Z. lia.
Defined.

(** ** Cases of the repository's test suite *)

Example tokenizes_function_call :
  tokenizeFilter (js "contains(City, 'Angeles')")
  = Ok [TFunction (js "contains"); TParen (js "("); TIdentifier (js "City"); TComma;
        TString (js "Angeles"); TParen (js ")")].
Proof. reflexivity. Qed.

Example tokenizes_escaped_quote :
  tokenizeFilter (js "City eq 'O''Brien'")
  = Ok [TIdentifier (js "City"); TOperator (js "eq"); TString (js "O'Brien")].
Proof. reflexivity. Qed.

Example rejects_equals_sign :
  tokenizeFilter (js "City = 'LA'") = Throw (js "Unexpected character in filter: =").
Proof. reflexivity. Qed.

Example parses_compound_filter :
  parseFilter (Some (js "ListPrice gt 500000 and City eq 'LA'")) Property.fieldMap
  = Ok (Fragment (js "IDCLISTPRICE > @filter0 AND CITY = @filter1")
          [(js "filter0", VFloat (js "500000")); (js "filter1", VString (js "LA"))]).
Proof. reflexivity. Qed.

Example rejects_unknown_field :
  parseFilter (Some (js "InvalidField eq 'test'")) Property.fieldMap
  = Throw (js "Invalid $filter: Unknown field: InvalidField").
Proof. reflexivity. Qed.

Example parses_select_with_spaces :
  parseSelect (Some (js "ListingKey, City, ListPrice")) Property.fieldMap
  = Ok (js "IDCPROPERTYID, CITY, IDCLISTPRICE").
Proof. reflexivity. Qed.

Example rejects_injected_select :
  parseSelect (Some (js "ListingKey; DROP TABLE users")) Property.fieldMap
  = Throw (js "Invalid field in $select: ListingKey; DROP TABLE users").
Proof. reflexivity. Qed.

Example parses_orderby :
  parseOrderBy (Some (js "ListPrice desc, City")) Property.fieldMap
  = Ok (js "IDCLISTPRICE DESC, CITY ASC").
Proof. reflexivity. Qed.

Example rejects_invalid_expand :
  parseExpand (Some (js "InvalidExpand")) Property.ALLOWED_EXPANSIONS
  = Throw (js "Invalid $expand: InvalidExpand. Allowed: ListAgent, ListOffice").
Proof. reflexivity. Qed.

Example sha256_abc :
  toHex (SHA256.digest (utf8_encode (js "abc")))
  = js "ba7816bf8f01cfea414140de5dae2223b00361a396177a9cb410ff61f20015ad".
Proof. vm_compute. reflexivity. Qed.

Example valid_token_passes :
  Auth.middleware (Some (js "id")) (Some (js "secret")) (Some (js "Bearer t"))
    [(js "t", Auth.TokenData (js "client") 20)] 10
  = (Auth.Next (Some (js "client")), [(js "t", Auth.TokenData (js "client") 20)],
     [Auth.getToken (js "t")]).
Proof. reflexivity. Qed.

Example expired_token_is_deleted :
  Auth.middleware (Some (js "id")) (Some (js "secret")) (Some (js "Bearer t"))
    [(js "t", Auth.TokenData (js "client") 5)] 10
  = (Auth.Unauthorized (js "Token has expired"), [],
     [Auth.getToken (js "t"); Auth.deleteToken (js "t")]).
Proof. reflexivity. Qed.

(* ================================================================== *)
(** * The lexer, one token at a time *)

Lemma prefix_tokens_app (a b : list token) (r : result (list token)) :
  prefix_tokens a (prefix_tokens b r) = prefix_tokens (a ++ b) r.
Proof. destruct r; cbn [prefix_tokens]; [now rewrite app_assoc|reflexivity]. Qed.

Lemma prefix_tokens_nil (r : result (list token)) : prefix_tokens [] r = r.
Proof. destruct r; reflexivity. Qed.

(** The tokens already collected only sit in front of what the loop adds. *)
Lemma tokenizeLoop_acc (fuel : nat) :
  forall rest tokens,
    tokenizeLoop fuel rest tokens
    = option_map (prefix_tokens tokens) (tokenizeLoop fuel rest []).
Proof.
  induction fuel as [|fuel IH]; intros rest tokens; [reflexivity|].
  assert (Hstep : forall r t,
            tokenizeLoop fuel r (tokens ++ [t])
            = option_map (prefix_tokens tokens) (tokenizeLoop fuel r ([] ++ [t]))).
  { intros r t. rewrite (IH r (tokens ++ [t])), (IH r ([] ++ [t])).
    destruct (tokenizeLoop fuel r []) as [res|]; [|reflexivity].
    cbn [option_map app]. now rewrite prefix_tokens_app. }
  cbn [tokenizeLoop]. destruct rest as [|c rest1].
  { cbn [option_map prefix_tokens]. now rewrite app_nil_r. }
  destruct (is_space c); [apply IH|].
  destruct (c =? quote).
  { destruct (scanString rest1 []) as [v at_close]. apply Hstep. }
  destruct (is_number_start c).
  { destruct (isDatetime (c :: rest1)).
    - destruct (span is_datetime_char (c :: rest1)) as [v after]. apply Hstep.
    - destruct (span is_number_char (c :: rest1)) as [v after]. apply Hstep. }
  destruct ((c =? 40) || (c =? 41)); [apply Hstep|].
  destruct (c =? 44); [apply Hstep|].
  destruct (is_word_start c); [|reflexivity].
  destruct (span is_word_char (c :: rest1)) as [word after]. apply Hstep.
Qed.

(** Any fuel above the length of the input gives the same result. *)
Lemma tokenizeLoop_fuel (f1 : nat) :
  forall f2 rest tokens,
    (List.length rest < f1)%nat -> (List.length rest < f2)%nat ->
    tokenizeLoop f1 rest tokens = tokenizeLoop f2 rest tokens.
Proof.
  induction f1 as [|f1 IH]; intros f2 rest tokens H1 H2; [lia|].
  destruct f2 as [|f2]; [lia|].
  cbn [tokenizeLoop]. destruct rest as [|c rest1]; [reflexivity|].
  cbn [List.length] in H1, H2.
  destruct (is_space c); [apply IH; lia|].
  destruct (c =? quote).
  { pose proof (scanString_length _ rest1 [] (le_n _)) as Hs.
    destruct (scanString rest1 []) as [v at_close]. cbn [snd] in Hs.
    pose proof (tl_length at_close). apply IH; lia. }
  destruct (is_number_start c) eqn:En.
  { destruct (isDatetime (c :: rest1)) eqn:Ed.
    - pose proof (span_consumes _ c rest1 (isDatetime_digit _ _ Ed)) as Hs.
      destruct (span is_datetime_char (c :: rest1)) as [v after].
      cbn [snd] in Hs. apply IH; lia.
    - pose proof (span_consumes _ c rest1 (number_start_char _ En)) as Hs.
      destruct (span is_number_char (c :: rest1)) as [v after].
      cbn [snd] in Hs. apply IH; lia. }
  destruct ((c =? 40) || (c =? 41)); [apply IH; lia|].
  destruct (c =? 44); [apply IH; lia|].
  destruct (is_word_start c) eqn:Ew; [|reflexivity].
  pose proof (span_consumes _ c rest1 (word_start_char _ Ew)) as Hs.
  destruct (span is_word_char (c :: rest1)) as [word after].
  cbn [snd] in Hs. apply IH; lia.
Qed.

(** What the loop does on a shorter input with enough fuel is what
    [tokenizeFilter] does on it. *)
Lemma tokenizeLoop_rest (fuel : nat) (rest : jsstring) (tokens : list token) :
  (List.length rest < fuel)%nat ->
  tokenizeLoop fuel rest tokens = Some (prefix_tokens tokens (tokenizeFilter rest)).
Proof.
  intros H. rewrite tokenizeLoop_acc.
  rewrite (tokenizeLoop_fuel fuel (S (List.length rest)) rest [] H (le_n _)).
  now rewrite tokenizeFilter_total.
Qed.

(** [tokenizeFilter] as a recursion on the input. *)
Lemma tokenizeFilter_unfold (filter : jsstring) :
  tokenizeFilter filter
  = match filter with
    | [] => Ok []
    | c :: rest1 =>
        if is_space c then tokenizeFilter rest1
        else if c =? quote then
          let '(v, at_close) := scanString rest1 [] in
          prefix_tokens [TString v] (tokenizeFilter (tl at_close))
        else if is_number_start c then
          if isDatetime filter then
            let '(v, after) := span is_datetime_char filter in
            prefix_tokens [TDatetime v] (tokenizeFilter after)
          else
            let '(v, after) := span is_number_char filter in
            prefix_tokens [TNumber v] (tokenizeFilter after)
        else if (c =? 40) || (c =? 41) then
          prefix_tokens [TParen [c]] (tokenizeFilter rest1)
        else if c =? 44 then prefix_tokens [TComma] (tokenizeFilter rest1)
        else if is_word_start c then
          let '(word, after) := span is_word_char filter in
          prefix_tokens [classifyWord word] (tokenizeFilter after)
        else Throw (js "Unexpected character in filter: " ++ [c])
    end.
Proof.
  destruct filter as [|c rest1]; [reflexivity|].
  unfold tokenizeFilter at 1. cbn [List.length].
  remember (S (List.length rest1)) as fuel eqn:Hfuel. cbn [tokenizeLoop app].
  destruct (is_space c).
  { rewrite tokenizeLoop_rest by lia. now rewrite prefix_tokens_nil. }
  destruct (c =? quote).
  { pose proof (scanString_length _ rest1 [] (le_n _)) as Hs.
    destruct (scanString rest1 []) as [v at_close]. cbn [snd] in Hs.
    pose proof (tl_length at_close). rewrite tokenizeLoop_rest by lia. reflexivity. }
  destruct (is_number_start c) eqn:En.
  { destruct (isDatetime (c :: rest1)) eqn:Ed.
    - pose proof (span_consumes _ c rest1 (isDatetime_digit _ _ Ed)) as Hs.
      destruct (span is_datetime_char (c :: rest1)) as [v after].
      cbn [snd] in Hs. rewrite tokenizeLoop_rest by lia. reflexivity.
    - pose proof (span_consumes _ c rest1 (number_start_char _ En)) as Hs.
      destruct (span is_number_char (c :: rest1)) as [v after].
      cbn [snd] in Hs. rewrite tokenizeLoop_rest by lia. reflexivity. }
  destruct ((c =? 40) || (c =? 41)).
  { rewrite tokenizeLoop_rest by lia. reflexivity. }
  destruct (c =? 44).
  { rewrite tokenizeLoop_rest by lia. reflexivity. }
  destruct (is_word_start c) eqn:Ew; [|reflexivity].
  pose proof (span_consumes _ c rest1 (word_start_char _ Ew)) as Hs.
  destruct (span is_word_char (c :: rest1)) as [word after].
  cbn [snd] in Hs. rewrite tokenizeLoop_rest by lia. reflexivity.
Qed.

(** The string-literal loop reads an escaped value back, up to the closing
    quote. *)
Lemma scanString_escaped (value acc rest : jsstring) :
  (match rest with c :: _ => (c =? quote) = false | [] => True end) ->
  scanString (flat_map (fun c => if c =? quote then [quote; quote] else [c]) value
                ++ quote :: rest) acc
  = (acc ++ value, quote :: rest).
Proof.
  intros Hrest. revert acc.
  induction value as [|c value IH]; intros acc.
  - cbn [flat_map app scanString]. change (quote =? quote) with true. cbn iota.
    rewrite app_nil_r. destruct rest as [|c rest]; [reflexivity|]. now rewrite Hrest.
  - cbn [flat_map]. destruct (c =? quote) eqn:E.
    + apply N.eqb_eq in E. subst c. cbn [app scanString].
      change (quote =? quote) with true. cbn iota.
      rewrite IH, <- app_assoc. reflexivity.
    + cbn [app scanString]. rewrite E, IH, <- app_assoc. reflexivity.
Qed.

(** A quoted literal at the head of a filter is read as one string token;
    lexing goes on after its closing quote. *)
Lemma tokenizeFilter_literal_then (value rest : jsstring) :
  (match rest with c :: _ => (c =? quote) = false | [] => True end) ->
  tokenizeFilter (quoteLiteral value ++ rest)
  = prefix_tokens [TString value] (tokenizeFilter rest).
Proof.
  intros Hrest. unfold quoteLiteral. cbn [app]. rewrite <- app_assoc. cbn [app].
  rewrite tokenizeFilter_unfold.
  change (is_space quote) with false. change (quote =? quote) with true. cbn iota.
  rewrite (scanString_escaped value [] rest Hrest). cbn [app tl]. reflexivity.
Qed.

(** X1. A string literal written with its quotes doubled lexes to one string
    token holding the original value, whatever the value is. *)
Theorem tokenizeFilter_quoteLiteral (value : jsstring) :
  tokenizeFilter (quoteLiteral value) = Ok [TString value].
Proof.
  rewrite <- (app_nil_r (quoteLiteral value)).
  rewrite (tokenizeFilter_literal_then value [] I).
  rewrite tokenizeFilter_unfold. reflexivity.
Qed.

Ltac decide_char_tests :=
  repeat match goal with
    | |- context [?a <=? ?b] =>
        first [ replace (a <=? b) with true by (symmetry; apply N.leb_le; lia)
              | replace (a <=? b) with false by (symmetry; apply N.leb_gt; lia) ]
    | |- context [?a =? ?b] =>
        first [ replace (a =? b) with false by (symmetry; apply N.eqb_neq; lia)
              | replace (a =? b) with true by (symmetry; apply N.eqb_eq; lia) ]
    end.

Lemma word_start_range (c : N) :
  is_word_start c = true -> 97 <= c <= 122 \/ 65 <= c <= 90 \/ c = 95.
Proof.
  unfold is_word_start, is_lower, is_upper, in_range. intros H.
  apply orb_true_iff in H as [H|H]; [apply orb_true_iff in H as [H|H]|].
  - apply andb_true_iff in H as [H1 H2]. apply N.leb_le in H1, H2. lia.
  - apply andb_true_iff in H as [H1 H2]. apply N.leb_le in H1, H2. lia.
  - apply N.eqb_eq in H. lia.
Qed.

(** A letter or underscore falls in none of the lexer's earlier branches. *)
Lemma word_start_other_classes (c : N) :
  is_word_start c = true ->
  is_space c = false /\ (c =? quote) = false /\ is_number_start c = false
  /\ ((c =? 40) || (c =? 41)) = false /\ (c =? 44) = false.
Proof.
  intros H. apply word_start_range in H.
  unfold is_space, is_number_start, is_digit, in_range, quote.
  destruct H as [H|[H|H]]; repeat split; decide_char_tests; reflexivity.
Qed.

Lemma span_app (p : N -> bool) (run rest : jsstring) :
  Forall (fun c => p c = true) run ->
  (match rest with c :: _ => p c = false | [] => True end) ->
  span p (run ++ rest) = (run, rest).
Proof.
  intros Hrun Hrest. induction Hrun as [|c run Hc _ IH]; cbn [app span].
  - destruct rest as [|c rest]; [reflexivity|]. cbn [span]. now rewrite Hrest.
  - now rewrite Hc, IH.
Qed.

Lemma tokenizeFilter_word (w rest : jsstring) :
  (match w with c :: _ => is_word_start c = true | [] => False end) ->
  Forall (fun c => is_word_char c = true) w ->
  (match rest with c :: _ => is_word_char c = false | [] => True end) ->
  tokenizeFilter (w ++ rest) = prefix_tokens [classifyWord w] (tokenizeFilter rest).
Proof.
  intros Hstart Hw Hrest. destruct w as [|c w]; [contradiction|].
  rewrite tokenizeFilter_unfold. cbn [app].
  destruct (word_start_other_classes c Hstart) as (-> & -> & -> & -> & ->).
  rewrite Hstart. change (c :: w ++ rest) with ((c :: w) ++ rest).
  now rewrite (span_app _ _ _ Hw Hrest).
Qed.

Lemma tokenizeFilter_space (rest : jsstring) :
  tokenizeFilter (32 :: rest) = tokenizeFilter rest.
Proof. now rewrite tokenizeFilter_unfold. Qed.

(** X2. Comparing a field with a string literal compiles, for every value
    of the literal, to the same text [<column> = @filter0] with the value
    bound unchanged to [filter0].  The field is a key of the field map that
    the lexer reads as an identifier: it starts with a letter or an
    underscore, goes on with letters, digits and underscores, and is not,
    in any letter case, one of the words [eq], [ne], [gt], [ge], [lt],
    [le], [and], [or], [not], [contains], [startswith], [endswith],
    [null], [true], [false]. *)
Theorem parseFilter_eq_literal (fm : jsobject jsstring) (field column value : jsstring) :
  is_field_word field ->
  obj_get fm field = Some column ->
  parseFilter (Some (field ++ js " eq " ++ quoteLiteral value)) fm
  = Ok (Fragment (column ++ js " = @filter0") [(js "filter0", VString value)]).
Proof.
  intros Hword Hcol.
  assert (Htokens : tokenizeFilter (field ++ js " eq " ++ quoteLiteral value)
                    = Ok [TIdentifier field; TOperator (js "eq"); TString value]).
  { destruct field as [|c field]; [contradiction|].
    destruct Hword as (Hstart & Hchars & Hclass).
    rewrite tokenizeFilter_word; [|exact Hstart|exact Hchars|reflexivity].
    rewrite Hclass. change (js " eq " ++ quoteLiteral value)
      with (32 :: js "eq" ++ 32 :: quoteLiteral value).
    rewrite tokenizeFilter_space.
    rewrite tokenizeFilter_word;
      [|reflexivity|repeat constructor|reflexivity].
    rewrite tokenizeFilter_space.
    rewrite <- (app_nil_r (quoteLiteral value)).
    rewrite (tokenizeFilter_literal_then value [] I).
    rewrite tokenizeFilter_unfold. reflexivity. }
  assert (Hkey : has_key fm field = true).
  { unfold has_key, obj_keys. apply existsb_exists. exists field. split.
    - apply in_map_iff. exists (field, column). split; [reflexivity|].
      now apply get_In.
    - apply jsstring_eqb_refl. }
  unfold parseFilter.
  destruct (field ++ js " eq " ++ quoteLiteral value) as [|c f] eqn:E.
  { destruct field; [contradiction|discriminate]. }
  rewrite Htokens. cbn [bind]. unfold parseFilterTokens. cbn [parseLoop].
  rewrite Hkey, Hcol.
  cbn [bind emit bindParam st_sql st_params paramIndex template app obj_set].
  rewrite <- app_assoc. reflexivity.
Qed.

Lemma parseFilter_eq_literal_witness :
  is_field_word (js "City")
  /\ parseFilter (Some (js "City eq 'x'' OR 1=1 --'")) Property.fieldMap
     = Ok (Fragment (js "CITY = @filter0") [(js "filter0", VString (js "x' OR 1=1 --"))]).
Proof.
  assert (H : is_field_word (js "City")).
  { split; [reflexivity|]. split; [repeat constructor|reflexivity]. }
  split; [exact H|].
  apply (parseFilter_eq_literal Property.fieldMap (js "City") (js "CITY")
           (js "x' OR 1=1 --") H).
  reflexivity.
Defined.

(* ================================================================== *)
(** * Placeholders and field names of a compiled filter *)

Lemma named_keys (start : N) (values : list jsvalue) :
  obj_keys (named start values)
  = map paramName (count_from start (List.length values)).
Proof.
  revert start. induction values as [|v values IH]; intros start; [reflexivity|].
  cbn [named obj_keys map List.length count_from fst].
  f_equal. apply IH.
Qed.

Lemma named_length (start : N) (values : list jsvalue) :
  List.length (named start values) = List.length values.
Proof.
  revert start. induction values as [|v values IH]; intros start; [reflexivity|].
  cbn [named List.length]. now rewrite IH.
Qed.

Lemma In_values {V} (o : jsobject V) (k : jsstring) (v : V) :
  obj_get o k = Some v -> In v (obj_values o).
Proof.
  intros H. apply get_In in H. unfold obj_values. apply in_map_iff.
  exists (k, v). auto.
Qed.

Lemma parseLoop_pieces (fm : jsobject jsstring) (n : nat) :
  forall tokens, (List.length tokens <= n)%nat -> Forall lexed tokens ->
  forall st st',
    parseLoop fm tokens st = Ok st' ->
    (forall name, In (TIdentifier name) tokens -> has_key fm name = true)
    /\ exists pieces,
         st_sql st' = st_sql st ++ concat (map render_piece pieces)
         /\ Forall (text_allowed fm) pieces
         /\ placeholder_indices pieces
            = count_from (paramIndex st) (List.length (emitted_values tokens)).
Proof.
  induction n as [|n IH]; intros tokens Hlen Hlex st st' H.
  { destruct tokens; [|cbn in Hlen; lia]. injection H as <-.
    split; [intros name []|]. exists []. cbn. rewrite app_nil_r. auto. }
  destruct tokens as [|t rest].
  { injection H as <-. split; [intros name []|]. exists []. cbn.
    rewrite app_nil_r. auto. }
  cbn [List.length] in Hlen. inversion Hlex as [|? ? Ht Hrest]; subst.
  (* a token that is no field name, writes [text] and binds nothing *)
  assert (Hemit : forall text,
            (forall name, t <> TIdentifier name) ->
            In text fixed_texts ->
            emitted_values (t :: rest) = emitted_values rest ->
            parseLoop fm rest (emit st text) = Ok st' ->
            (forall name, In (TIdentifier name) (t :: rest) -> has_key fm name = true)
            /\ exists pieces,
                 st_sql st' = st_sql st ++ concat (map render_piece pieces)
                 /\ Forall (text_allowed fm) pieces
                 /\ placeholder_indices pieces
                    = count_from (paramIndex st)
                        (List.length (emitted_values (t :: rest)))).
  { intros text Hnot Htext -> H'.
    destruct (IH rest ltac:(lia) Hrest (emit st text) st' H')
      as (Hnames & pieces & Hsql & Hall & Hidx).
    split.
    { intros name [E|Hin]; [now apply Hnot in E|auto]. }
    exists (Text text :: pieces). split; [|split].
    - rewrite Hsql. cbn [emit st_sql map concat render_piece].
      now rewrite <- app_assoc.
    - constructor; [right; exact Htext|assumption].
    - exact Hidx. }
  (* a token that binds a value *)
  assert (Hbind : forall v,
            (forall name, t <> TIdentifier name) ->
            emitted_values (t :: rest) = v :: emitted_values rest ->
            parseLoop fm rest (bindParam st [] v) = Ok st' ->
            (forall name, In (TIdentifier name) (t :: rest) -> has_key fm name = true)
            /\ exists pieces,
                 st_sql st' = st_sql st ++ concat (map render_piece pieces)
                 /\ Forall (text_allowed fm) pieces
                 /\ placeholder_indices pieces
                    = count_from (paramIndex st)
                        (List.length (emitted_values (t :: rest)))).
  { intros v Hnot -> H'.
    destruct (IH rest ltac:(lia) Hrest (bindParam st [] v) st' H')
      as (Hnames & pieces & Hsql & Hall & Hidx).
    split.
    { intros name [E|Hin]; [now apply Hnot in E|auto]. }
    exists (Placeholder (paramIndex st) :: pieces). split; [|split].
    - rewrite Hsql. cbn [bindParam st_sql map concat render_piece app].
      now rewrite <- app_assoc.
    - constructor; [exact I|assumption].
    - cbn [placeholder_indices flat_map app List.length count_from].
      f_equal. exact Hidx. }
  destruct t as [field|v|v|f|v|text|v|v|v|].
  - cbn [parseLoop] in H.
    destruct (has_key fm field) eqn:Ek; [|discriminate].
    destruct (has_key_get _ _ Ek) as [column Hc]. rewrite Hc in H. cbn [template] in H.
    destruct (IH rest ltac:(lia) Hrest (emit st column) st' H)
      as (Hnames & pieces & Hsql & Hall & Hidx).
    split.
    { intros name [[= <-]|Hin]; auto. }
    exists (Text column :: pieces). split; [|split].
    + rewrite Hsql. cbn [emit st_sql map concat render_piece].
      now rewrite <- app_assoc.
    + constructor; [left; eapply In_values; exact Hc|assumption].
    + exact Hidx.
  - cbn [parseLoop] in H. eapply Hemit; [discriminate| |reflexivity|exact H].
    apply operator_piece, Ht.
  - cbn [parseLoop] in H. eapply Hemit; [discriminate| |reflexivity|exact H].
    apply logical_piece, Ht.
  - clear Hemit Hbind.
    apply parseLoop_call_inv in H as (field & v & rest5 & -> & Ek & H).
    rewrite (applyFunction_lexed _ _ _ _ Ht) in H.
    destruct (has_key_get _ _ Ek) as [column Hc]. rewrite Hc in H. cbn [template] in H.
    assert (Hrest5 : Forall lexed rest5).
    { do 5 (inversion Hrest as [|? ? _ Hrest']; subst; clear Hrest; rename Hrest' into Hrest).
      assumption. }
    cbn [List.length] in Hlen.
    destruct (IH rest5 ltac:(lia) Hrest5 _ st' H)
      as (Hnames & pieces & Hsql & Hall & Hidx).
    split.
    { intros name [E|[E|[E|[E|[E|[E|Hin]]]]]]; try discriminate; auto.
      injection E as <-. exact Ek. }
    exists (Text column :: Text (js " LIKE ") :: Placeholder (paramIndex st) :: pieces).
    split; [|split].
    + rewrite Hsql. cbn [bindParam st_sql map concat render_piece].
      repeat rewrite <- app_assoc. reflexivity.
    + constructor; [left; eapply In_values; exact Hc|].
      constructor; [right; in_fixed|]. constructor; [exact I|assumption].
    + cbn [placeholder_indices flat_map app emitted_values List.length count_from].
      f_equal. exact Hidx.
  - cbn [parseLoop] in H. apply (Hbind (VString v)); [discriminate|reflexivity|exact H].
  - cbn [parseLoop] in H. apply (Hbind (VFloat text)); [discriminate|reflexivity|exact H].
  - cbn [parseLoop] in H. apply (Hbind (VString v)); [discriminate|reflexivity|exact H].
  - cbn [parseLoop] in H. eapply Hemit; [discriminate| |reflexivity|exact H].
    apply literal_piece, Ht.
  - cbn [parseLoop] in H. eapply Hemit; [discriminate| |reflexivity|exact H].
    destruct Ht as [-> | ->]; in_fixed.
  - discriminate.
Qed.

(** X3. In the SQL of an accepted filter the placeholders are exactly
    [@filter0], [@filter1], ..., each once and in this order, one for each
    entry of [params] and named as its key; every other piece of the text is
    a backend column of the field map or one of the compiler's fixed
    texts. *)
Theorem parseFilter_placeholders (filter : jsstring) (fm : jsobject jsstring)
  (r : fragment) :
  parseFilter (Some filter) fm = Ok r ->
  exists pieces,
    sql r = concat (map render_piece pieces)
    /\ Forall (text_allowed fm) pieces
    /\ placeholder_indices pieces = count_from 0 (List.length (params r))
    /\ obj_keys (params r) = map paramName (placeholder_indices pieces).
Proof.
  intros H. apply parseFilter_inv in H as (tokens & st & Et & Ep & ->).
  pose proof (tokenizeFilter_lexed _ _ Et) as Hlex.
  destruct (parseLoop_emits fm (List.length tokens) tokens (le_n _) Hlex
              (State [] [] 0) st [] eq_refl eq_refl Ep) as (Hparams & _).
  destruct (parseLoop_pieces fm (List.length tokens) tokens (le_n _) Hlex
              (State [] [] 0) st Ep) as (_ & pieces & Hsql & Hall & Hidx).
  cbn [app] in Hparams. cbn [st_sql paramIndex app] in Hsql, Hidx.
  exists pieces. cbn [sql params]. rewrite Hparams.
  rewrite named_length, named_keys, Hidx. auto.
Qed.

Lemma parseFilter_placeholders_witness :
  exists r pieces,
    parseFilter (Some (js "City eq 'x' and contains(City, 'y')")) Property.fieldMap = Ok r
    /\ sql r = concat (map render_piece pieces)
    /\ placeholder_indices pieces = [0; 1].
Proof.
  destruct (parseFilter (Some (js "City eq 'x' and contains(City, 'y')"))
              Property.fieldMap) as [r|] eqn:E; [|vm_compute in E; discriminate].
  destruct (parseFilter_placeholders _ _ _ E) as (pieces & Hsql & _ & Hidx & _).
  exists r, pieces. split; [reflexivity|]. split; [exact Hsql|].
  rewrite Hidx. vm_compute in E. injection E as <-. reflexivity.
Defined.

(** X4. Every field name written in an accepted filter, inside a function
    call or outside, is a key of the field map. *)
Theorem parseFilter_fields_whitelisted (filter : jsstring) (fm : jsobject jsstring)
  (r : fragment) (tokens : list token) (name : jsstring) :
  parseFilter (Some filter) fm = Ok r ->
  tokenizeFilter filter = Ok tokens ->
  In (TIdentifier name) tokens ->
  In name (obj_keys fm) /\ exists column, obj_get fm name = Some column.
Proof.
  intros H Et Hin. apply parseFilter_inv in H as (tokens' & st & Et' & Ep & _).
  rewrite Et in Et'. injection Et' as <-.
  destruct (parseLoop_pieces fm (List.length tokens) tokens (le_n _)
              (tokenizeFilter_lexed _ _ Et) (State [] [] 0) st Ep) as (Hnames & _).
  specialize (Hnames name Hin). split; [|now apply has_key_get].
  unfold has_key in Hnames. apply existsb_exists in Hnames as (k & Hk & E).
  apply jsstring_eqb_eq in E. now subst.
Qed.

Lemma parseFilter_fields_whitelisted_witness :
  In (js "ListPrice") (obj_keys Property.fieldMap)
  /\ exists column, obj_get Property.fieldMap (js "ListPrice") = Some column.
Proof.
  destruct (parseFilter (Some (js "ListPrice gt 5")) Property.fieldMap) as [r|] eqn:E;
    [|vm_compute in E; discriminate].
  apply (parseFilter_fields_whitelisted (js "ListPrice gt 5") Property.fieldMap r
           [TIdentifier (js "ListPrice"); TOperator (js "gt"); TNumber (js "5")]
           (js "ListPrice") E); [reflexivity|left; reflexivity].
Defined.

(* ================================================================== *)
(** * [$select] and [$expand] *)

Lemma mapM_Ok {A B} (f : A -> result B) (l : list A) (ys : list B) :
  Forall2 (fun x y => f x = Ok y) l ys -> mapM f l = Ok ys.
Proof.
  induction 1 as [|x y l ys Hxy _ IH]; cbn [mapM]; [reflexivity|].
  rewrite Hxy. cbn [bind]. rewrite IH. reflexivity.
Qed.

(** A failing loop fails at its first failing element. *)
Lemma mapM_Throw {A B} (f : A -> result B) (l : list A) (message : jsstring) :
  mapM f l = Throw message ->
  exists before x after,
    l = before ++ x :: after
    /\ Forall (fun y => exists b, f y = Ok b) before
    /\ f x = Throw message.
Proof.
  induction l as [|x l IH]; cbn [mapM]; [discriminate|].
  destruct (f x) as [b|m] eqn:Ex; cbn [bind].
  - destruct (mapM f l) as [ys|m] eqn:El; cbn [bind]; [discriminate|].
    intros [= <-]. destruct (IH eq_refl) as (before & y & after & -> & Hb & Hy).
    exists (x :: before), y, after. split; [reflexivity|]. split; [|assumption].
    constructor; eauto.
  - intros [= <-]. exists [], x, l. split; [reflexivity|]. split; [constructor|assumption].
Qed.

Lemma Forall2_map_l {A B C} (f : A -> B) (P : B -> C -> Prop) (l : list A)
  (ys : list C) :
  Forall2 P (map f l) ys <-> Forall2 (fun x y => P (f x) y) l ys.
Proof.
  revert ys. induction l as [|x l IH]; intros ys; cbn [map]; split; intros H;
    inversion H; subst; constructor; auto; now apply IH.
Qed.

Lemma get_has_key {V} (o : jsobject V) (k : jsstring) (v : V) :
  obj_get o k = Some v -> has_key o k = true.
Proof.
  intros H. unfold has_key, obj_keys. apply existsb_exists. exists k. split.
  - apply in_map_iff. exists (k, v). split; [reflexivity|now apply get_In].
  - apply jsstring_eqb_refl.
Qed.

(** X5. [$select] is all or nothing.  Absent or empty it selects every
    column of the field map in declaration order.  Otherwise it succeeds
    exactly when every comma-separated name, trimmed, is a key of the field
    map, and then lists their columns in the order asked; when it fails, the
    error names the first name that is no key. *)
Theorem parseSelect_whitelist (select : option jsstring) (fm : jsobject jsstring) :
  (truthy_opt select = false ->
   parseSelect select fm = Ok (join (js ", ") (obj_values fm)))
  /\ (forall s, select = Some s -> s <> [] ->
      (forall text,
          parseSelect select fm = Ok text <->
          exists columns,
            Forall2 (fun part column => obj_get fm (trim part) = Some column)
              (split_on 44 s) columns
            /\ text = join (js ", ") columns)
      /\ (forall message,
             parseSelect select fm = Throw message ->
             exists before field after,
               map trim (split_on 44 s) = before ++ field :: after
               /\ Forall (fun name => has_key fm name = true) before
               /\ has_key fm field = false
               /\ message = js "Invalid field in $select: " ++ field)).
Proof.
  split.
  { intros H. unfold parseSelect. rewrite H. reflexivity. }
  intros s -> Hs. unfold parseSelect.
  destruct s as [|c s]; [contradiction|]. cbn [truthy_opt truthy negb template].
  set (check := fun field => if negb (has_key fm field)
                             then Throw (js "Invalid field in $select: " ++ field)
                             else Ok (template (obj_get fm field))).
  assert (Hcheck : forall field column,
            check field = Ok column <-> obj_get fm field = Some column).
  { intros field column. unfold check. split.
    - destruct (has_key fm field) eqn:Ek; cbn [negb]; [|discriminate].
      destruct (has_key_get _ _ Ek) as [col Hc]. rewrite Hc. cbn [template].
      now intros [= <-].
    - intros H. rewrite (get_has_key _ _ _ H), H. reflexivity. }
  split.
  - intros text. split.
    + intros H. apply bind_Ok in H as (dbFields & Hm & H).
      apply mapM_Forall2 in Hm. rewrite Forall2_map_l in Hm.
      assert (Hcols : Forall2 (fun part column => obj_get fm (trim part) = Some column)
                        (split_on 44 (c :: s)) dbFields).
      { eapply Forall2_impl; [|exact Hm]. intros a b. apply Hcheck. }
      exists dbFields. split; [exact Hcols|].
      pose proof (split_on_nonempty 44 (c :: s)) as Hne.
      destruct Hcols; [contradiction|]. cbn [List.length Nat.ltb Nat.leb] in H.
      now injection H as <-.
    + intros (columns & Hcols & ->).
      assert (Hm : mapM check (map trim (split_on 44 (c :: s))) = Ok columns).
      { apply mapM_Ok. rewrite Forall2_map_l.
        eapply Forall2_impl; [|exact Hcols]. intros a b. apply Hcheck. }
      rewrite Hm. cbn [bind].
      pose proof (split_on_nonempty 44 (c :: s)) as Hne.
      destruct Hcols; [contradiction|]. reflexivity.
  - intros message H.
    destruct (mapM check (map trim (split_on 44 (c :: s)))) as [dbFields|m] eqn:Hm;
      cbn [bind] in H; [discriminate|]. injection H as <-.
    apply mapM_Throw in Hm as (before & field & after & Hsplit & Hb & Hf).
    exists before, field, after. split; [exact Hsplit|]. split.
    + eapply Forall_impl; [|exact Hb]. intros name [b Hbn]. unfold check in Hbn.
      destruct (has_key fm name); [reflexivity|discriminate].
    + unfold check in Hf. destruct (has_key fm field); cbn [negb] in Hf;
        [discriminate|]. injection Hf as <-. auto.
Qed.

Lemma parseSelect_whitelist_witness :
  parseSelect (Some (js "City, Nope")) Property.fieldMap
  = Throw (js "Invalid field in $select: Nope")
  /\ exists before field after,
       map trim (split_on 44 (js "City, Nope")) = before ++ field :: after
       /\ has_key Property.fieldMap field = false.
Proof.
  split; [reflexivity|].
  destruct (parseSelect_whitelist (Some (js "City, Nope")) Property.fieldMap)
    as [_ H].
  destruct (H (js "City, Nope") eq_refl ltac:(discriminate)) as [_ Hthrow].
  destruct (Hthrow (js "Invalid field in $select: Nope") eq_refl)
    as (before & field & after & Hs & _ & Hk & _).
  exists before, field, after. auto.
Defined.

(** X6. [$expand] returns the comma-separated names, trimmed and in order,
    exactly when each of them is an allowed expansion; absent or empty it
    returns none; when it fails, the error names the first name that is not
    allowed and lists the allowed ones. *)
Theorem parseExpand_allowed (expand : option jsstring) (allowed : list jsstring) :
  (truthy_opt expand = false -> parseExpand expand allowed = Ok [])
  /\ (forall s, expand = Some s -> s <> [] ->
      let names := map trim (split_on 44 s) in
      (forall expansions,
          parseExpand expand allowed = Ok expansions <->
          expansions = names /\ Forall (fun name => In name allowed) names)
      /\ (forall message,
             parseExpand expand allowed = Throw message ->
             exists before name after,
               names = before ++ name :: after
               /\ Forall (fun n => In n allowed) before
               /\ ~ In name allowed
               /\ message = js "Invalid $expand: " ++ name ++ js ". Allowed: "
                              ++ join (js ", ") allowed)).
Proof.
  split.
  { intros H. unfold parseExpand. rewrite H. reflexivity. }
  intros s -> Hs names. unfold parseExpand.
  destruct s as [|c s]; [contradiction|]. cbn [truthy_opt truthy negb template].
  fold names.
  set (check := fun exp => if negb (existsb (jsstring_eqb exp) allowed)
                           then Throw (js "Invalid $expand: " ++ exp
                                         ++ js ". Allowed: " ++ join (js ", ") allowed)
                           else Ok exp).
  assert (Hin : forall name, existsb (jsstring_eqb name) allowed = true <-> In name allowed).
  { intros name. rewrite existsb_exists. split.
    - intros (k & Hk & E). apply jsstring_eqb_eq in E. now subst.
    - intros H. exists name. split; [assumption|apply jsstring_eqb_refl]. }
  split.
  - intros expansions. split.
    + intros H. apply bind_Ok in H as (checked & Hm & H). injection H as <-.
      split; [reflexivity|]. apply mapM_Forall2 in Hm.
      clear -Hm Hin. induction Hm as [|x y l l' Hxy _ IH]; constructor; [|exact IH].
      unfold check in Hxy. destruct (existsb (jsstring_eqb x) allowed) eqn:E;
        [now apply Hin|discriminate].
    + intros [-> Hall].
      assert (Hm : mapM check names = Ok names).
      { apply mapM_Ok. clear -Hall Hin.
        induction Hall as [|x l Hx _ IH]; constructor; [|exact IH].
        unfold check. apply Hin in Hx. now rewrite Hx. }
      rewrite Hm. reflexivity.
  - intros message H.
    destruct (mapM check names) as [checked|m] eqn:Hm; cbn [bind] in H;
      [discriminate|]. injection H as <-.
    apply mapM_Throw in Hm as (before & name & after & Hsplit & Hb & Hf).
    exists before, name, after. split; [exact Hsplit|]. split; [|].
    + eapply Forall_impl; [|exact Hb]. intros n [b Hbn]. unfold check in Hbn.
      destruct (existsb (jsstring_eqb n) allowed) eqn:E; [now apply Hin|discriminate].
    + unfold check in Hf. destruct (existsb (jsstring_eqb name) allowed) eqn:E;
        cbn [negb] in Hf; [discriminate|]. injection Hf as <-. split; [|reflexivity].
      intros Hn. apply Hin in Hn. congruence.
Qed.

Lemma parseExpand_allowed_witness :
  parseExpand (Some (js "ListAgent, ListOffice")) Property.ALLOWED_EXPANSIONS
  = Ok [js "ListAgent"; js "ListOffice"].
Proof.
  destruct (parseExpand_allowed (Some (js "ListAgent, ListOffice"))
              Property.ALLOWED_EXPANSIONS) as [_ H].
  destruct (H (js "ListAgent, ListOffice") eq_refl ltac:(discriminate)) as [Hok _].
  apply Hok. split; [reflexivity|].
  change (map trim (split_on 44 (js "ListAgent, ListOffice")))
    with [js "ListAgent"; js "ListOffice"].
  constructor; [left; reflexivity|]. constructor; [right; left; reflexivity|].
  constructor.
Defined.

(* ================================================================== *)
(** * Key lookups and page chaining *)

Lemma buildWhere_with_filter (o : options) (filter : option jsstring) :
  truthy_key (keyValue o) = true ->
  buildWhere (with_filter o filter) = buildWhere o.
Proof.
  intros H. unfold buildWhere, with_filter.
  cbn [baseWhere keyValue fieldMap keyField query q_filter]. rewrite H. reflexivity.
Qed.

(** X7. In a key lookup the key wins over [$filter]: whatever [$filter] the
    request carries, valid or not, the builder gives the same outcome, and
    a plan has the same statements, parameters and page; with no base
    predicate its only parameter is [keyValue]. *)
Theorem buildQuery_key_ignores_filter (o : options) (filter : option jsstring) :
  truthy_key (keyValue o) = true ->
  match buildQuery o, buildQuery (with_filter o filter) with
  | Ok p, Ok p' =>
      dataQuery p' = dataQuery p /\ countQuery p' = countQuery p
      /\ plan_params p' = plan_params p /\ top p' = top p /\ skip p' = skip p
      /\ (baseWhere o = None ->
          exists k, keyValue o = Some k
                    /\ plan_params p = [(js "keyValue", key_param k)])
  | Throw m, Throw m' => m' = m
  | _, _ => False
  end.
Proof.
  intros H. unfold buildQuery. rewrite (buildWhere_with_filter o filter H).
  unfold query_top, query_skip, query_count.
  cbn [with_filter query fieldMap table baseUrl q_select q_orderby q_top q_skip q_count].
  destruct (parseSelect (q_select (query o)) (fieldMap o)) as [sel|]; cbn [bind];
    [|reflexivity].
  destruct (buildWhere o) as [[conds ps]|] eqn:Ew; cbn [bind]; [|reflexivity].
  destruct (parseOrderBy (q_orderby (query o)) (fieldMap o)) as [ob|]; cbn [bind];
    [|reflexivity].
  cbn [dataQuery countQuery plan_params top skip].
  repeat (split; [reflexivity|]).
  intros Hbase. unfold buildWhere in Ew. rewrite Hbase, H in Ew.
  destruct (keyValue o) as [k|]; [|discriminate]. injection Ew as _ <-.
  exists k. split; reflexivity.
Qed.

Lemma buildQuery_key_ignores_filter_witness :
  let o := Options Member.TABLE Member.fieldMap no_options Member.KEY_FIELD
             (Some (KeyNumber 12)) None None in
  exists p p',
    buildQuery o = Ok p
    /\ buildQuery (with_filter o (Some (js "NoSuchField eq ("))) = Ok p'
    /\ dataQuery p' = dataQuery p
    /\ plan_params p' = [(js "keyValue", VInt 12)].
Proof.
  intros o.
  pose proof (buildQuery_key_ignores_filter o (Some (js "NoSuchField eq (")) eq_refl)
    as H.
  destruct (buildQuery o) as [p|] eqn:E; [|vm_compute in E; discriminate].
  destruct (buildQuery (with_filter o (Some (js "NoSuchField eq (")))) as [p'|];
    [|contradiction].
  destruct H as (Hd & _ & Hp & _ & _ & Hk).
  exists p, p'. repeat split; [exact Hd|]. rewrite Hp.
  destruct (Hk eq_refl) as (k & Ek & ->). injection Ek as <-. reflexivity.
Defined.

Lemma digit_other_classes (c : N) :
  is_digit c = true ->
  is_space c = false /\ (c =? 45) = false /\ (c =? 43) = false
  /\ ((c =? 120) || (c =? 88)) = false.
Proof.
  unfold is_digit, in_range. intros H. apply andb_true_iff in H as [H1 H2].
  apply N.leb_le in H1, H2. unfold is_space, in_range.
  repeat split; decide_char_tests; reflexivity.
Qed.

Lemma parseInt_digits (digits : jsstring) :
  digits <> [] -> Forall (fun c => is_digit c = true) digits ->
  parseInt (Some digits) = Some (roundDouble (Z.of_N (decimal_value digits)))
  /\ parseInt (Some (45 :: digits))
     = Some (roundDouble (- Z.of_N (decimal_value digits))).
Proof.
  intros Hne Hd. destruct digits as [|d ds]; [contradiction|].
  inversion Hd as [|? ? Hdig Hds]; subst.
  destruct (digit_other_classes d Hdig) as (Hsp & Hminus & Hplus & _).
  assert (Hhex : forall neg,
            (let '(radix, s) :=
               match d :: ds with
               | z :: x :: r =>
                   if (z =? 48) && ((x =? 120) || (x =? 88)) then (16, r) else (10, d :: ds)
               | _ => (10, d :: ds)
               end in
             let digits := fst (span (is_radix_digit radix) s) in
             match digits with
             | [] => None
             | _ => let n := Z.of_N (radix_value radix digits) in
                    Some (roundDouble (if neg : bool then (- n)%Z else n))
             end)
            = Some (roundDouble (if neg then (- Z.of_N (decimal_value (d :: ds)))%Z
                                 else Z.of_N (decimal_value (d :: ds))))).
  { intros neg.
    assert (Hspan : span (is_radix_digit 10) (d :: ds) = (d :: ds, [])).
    { rewrite <- (app_nil_r (d :: ds)) at 1. apply span_app; [exact Hd|exact I]. }
    destruct ds as [|x r].
    - rewrite Hspan. reflexivity.
    - inversion Hds as [|? ? Hx _]; subst.
      destruct (digit_other_classes x Hx) as (_ & _ & _ & ->).
      rewrite andb_false_r, Hspan. reflexivity. }
  split.
  - unfold parseInt. cbn [trimStart]. rewrite Hsp, Hminus, Hplus. apply (Hhex false).
  - unfold parseInt. cbn [trimStart]. change (is_space 45) with false.
    change (45 =? 45) with true. cbn iota. apply (Hhex true).
Qed.

(** [parseInt] reads an integer back from its decimal text, as a double. *)
Lemma parseInt_toString (z : Z) :
  parseInt (Some (Z_toString z)) = Some (roundDouble z).
Proof.
  destruct z as [|p|p]; unfold Z_toString.
  - reflexivity.
  - change (Z.to_N (Z.pos p)) with (N.pos p).
    destruct (parseInt_digits (N_toString (N.pos p)))
      as [H _]; [apply N_toString_nonempty|apply N_toString_digits|].
    rewrite N_toString_value in H. exact H.
  - destruct (parseInt_digits (N_toString (N.pos p)))
      as [_ H]; [apply N_toString_nonempty|apply N_toString_digits|].
    rewrite N_toString_value in H. exact H.
Qed.

(** The text of the next link. *)
Lemma nextLink_text (base : jsstring) (top skip : Z) (q : query_options) (total : Z) :
  nextLink base top skip q total
  = if (roundDouble (skip + top) <? total)%Z then
      Some (base ++ js "?%24top=" ++ urlencode (Number_toString top)
            ++ js "&%24skip=" ++ urlencode (Number_toString (roundDouble (skip + top)))
            ++ carried "select" (q_select q) ++ carried "filter" (q_filter q)
            ++ carried "orderby" (q_orderby q) ++ carried "count" (q_count q))
    else None.
Proof.
  unfold nextLink. destruct (roundDouble (skip + top) <? total)%Z; [|reflexivity].
  f_equal.
  set (topText := Number_toString top).
  set (nextSkip := Number_toString (roundDouble (skip + top))).
  unfold set_if_truthy, carried, URLSearchParams_toString.
  destruct (truthy_opt (q_select q)), (truthy_opt (q_filter q)),
    (truthy_opt (q_orderby q)), (truthy_opt (q_count q));
    repeat (cbn [obj_set]; eval_key_tests; cbn iota);
    cbn [map join fst snd];
    eval_constants; normalize_app; reflexivity.
Qed.

Lemma carried_kept (name : string) (value : option jsstring) :
  carried name (kept value) = carried name value.
Proof.
  unfold carried, kept. destruct (truthy_opt value) eqn:E; [now rewrite E|reflexivity].
Qed.

(** X8. The next link of a plan is the base URL followed by the query
    string of the next page: [$top], [$skip] and the non-empty ones of
    [$select], [$filter], [$orderby], [$count], URL-encoded; it carries no
    [$expand].  Following it asks for the page that comes next, as long as
    the offset stays exact: the [$top] it carries is read back as the same
    page size, and while [skip + top] is below [2^53] the [$skip] it
    carries is read back as the offset advanced by one page.  (From [2^53]
    on the sum is rounded to a double and the link need not advance.) *)
Theorem next_page_advances (o : options) (p : plan) :
  buildQuery o = Ok p ->
  let next := next_page (query o) p in
  (forall builder total link,
      nextLinkBuilder p = Some builder -> builder total = Some link ->
      link = template (baseUrl o)
             ++ js "?%24top=" ++ urlencode (template (q_top next))
             ++ js "&%24skip=" ++ urlencode (template (q_skip next))
             ++ carried "select" (q_select next) ++ carried "filter" (q_filter next)
             ++ carried "orderby" (q_orderby next) ++ carried "count" (q_count next)
             ++ carried "expand" (q_expand next))
  /\ query_top next = top p
  /\ ((skip p + top p < 2 ^ 53)%Z -> query_skip next = (skip p + top p)%Z).
Proof.
  intros H next. destruct (plan_pagination o p H) as [Et Es].
  pose proof (query_top_range (query o)) as Htop.
  pose proof (query_skip_nonneg (query o)) as Hskip.
  rewrite <- Et in Htop. rewrite <- Es in Hskip.
  split.
  { apply buildQuery_inv in H as (_ & _ & _ & _ & _ & _ & _ & _ & _ & _ & Hnext).
    intros builder total link Hb Hl. rewrite Hnext in Hb.
    destruct (truthy_opt (baseUrl o)); [|discriminate]. injection Hb as <-.
    rewrite nextLink_text in Hl.
    destruct (roundDouble (skip p + top p) <? total)%Z; [|discriminate].
    injection Hl as <-. subst next. unfold next_page.
    cbn [q_top q_skip q_select q_filter q_orderby q_count q_expand template].
    rewrite !carried_kept. change (carried "expand" None) with (@nil N).
    now rewrite app_nil_r. }
  subst next. unfold query_top, query_skip, next_page. cbn [q_top q_skip]. split.
  - rewrite (Number_toString_safe (top p)) by lia.
    rewrite parseInt_toString, (roundDouble_safe (top p)) by lia. unfold number_or.
    destruct (Z.eqb_spec (top p) 0); lia.
  - intros Hsafe. rewrite (roundDouble_safe (skip p + top p)) by lia.
    rewrite (Number_toString_safe (skip p + top p)) by lia.
    rewrite parseInt_toString, (roundDouble_safe (skip p + top p)) by lia.
    unfold number_or. destruct (Z.eqb_spec (skip p + top p) 0); lia.
Qed.

Lemma next_page_advances_witness :
  exists p,
    buildQuery sample_options = Ok p
    /\ query_top (next_page (query sample_options) p) = 10%Z
    /\ query_skip (next_page (query sample_options) p) = 10%Z.
Proof.
  destruct (buildQuery sample_options) as [p|] eqn:E; [|vm_compute in E; discriminate].
  exists p. split; [reflexivity|].
  destruct (next_page_advances sample_options p E) as (_ & Ht & Hs).
  destruct (plan_pagination sample_options p E) as [Et Es].
  rewrite Ht, Hs; rewrite Et, Es; [split; reflexivity|vm_compute; reflexivity].
Defined.

(* ================================================================== *)
(** * Reshaping rows *)

Lemma get_set_same {V} (o : jsobject V) (k : jsstring) (v : V) :
  obj_get (obj_set o k v) k = Some v.
Proof.
  induction o as [|[k' v'] o IH]; cbn [obj_set obj_get].
  - now rewrite jsstring_eqb_refl.
  - destruct (jsstring_eqb k' k) eqn:E; cbn [obj_get]; rewrite E; auto.
Qed.

Lemma get_set_other {V} (o : jsobject V) (k k' : jsstring) (v : V) :
  k <> k' -> obj_get (obj_set o k v) k' = obj_get o k'.
Proof.
  intros Hk. induction o as [|[k0 v0] o IH]; cbn [obj_set obj_get].
  - apply jsstring_eqb_neq in Hk. now rewrite Hk.
  - destruct (jsstring_eqb k0 k) eqn:E; cbn [obj_get].
    + apply jsstring_eqb_eq in E. subst k0. apply jsstring_eqb_neq in Hk.
      now rewrite Hk.
    + destruct (jsstring_eqb k0 k'); auto.
Qed.

Lemma get_None_not_key {V} (o : jsobject V) (k : jsstring) :
  obj_get o k = None <-> ~ In k (obj_keys o).
Proof.
  induction o as [|[k' v] o IH]; cbn [obj_get obj_keys map fst In].
  - tauto.
  - destruct (jsstring_eqb k' k) eqn:E.
    + apply jsstring_eqb_eq in E. split; [discriminate|]. intros H. exfalso. auto.
    + apply jsstring_eqb_neq in E. rewrite IH. unfold obj_keys. tauto.
Qed.

Lemma In_get {V} (o : jsobject V) (k : jsstring) (v : V) :
  NoDup (obj_keys o) -> In (k, v) o -> obj_get o k = Some v.
Proof.
  induction o as [|[k' v'] o IH]; cbn [obj_keys map fst In obj_get]; [tauto|].
  intros Hnd [E|Hin]; inversion Hnd as [|? ? Hnot Hnd']; subst.
  - injection E as -> ->. now rewrite jsstring_eqb_refl.
  - destruct (jsstring_eqb k' k) eqn:E.
    + apply jsstring_eqb_eq in E. subst k'. exfalso. apply Hnot.
      apply in_map_iff. exists (k, v). auto.
    + now apply IH.
Qed.

Lemma obj_set_fresh {V} (o : jsobject V) (k : jsstring) (v : V) :
  ~ In k (obj_keys o) -> obj_set o k v = o ++ [(k, v)].
Proof.
  induction o as [|[k' v'] o IH]; cbn [obj_keys map fst In obj_set app]; [reflexivity|].
  intros H. destruct (jsstring_eqb k' k) eqn:E.
  - apply jsstring_eqb_eq in E. tauto.
  - rewrite IH; [reflexivity|]. unfold obj_keys. tauto.
Qed.

(** With no column used twice, the reverse map is the field map with each
    pair swapped. *)
Lemma reverseFieldMap_swap (fm : jsobject jsstring) :
  NoDup (obj_values fm) ->
  reverseFieldMap fm = map (fun kv => (snd kv, fst kv)) fm.
Proof.
  unfold reverseFieldMap. intros H.
  enough (Hgen : forall acc,
             (forall c, In c (obj_keys acc) -> ~ In c (obj_values fm)) ->
             fold_left (fun reversed kv => obj_set reversed (snd kv) (fst kv)) fm acc
             = acc ++ map (fun kv => (snd kv, fst kv)) fm).
  { apply (Hgen []). intros c []. }
  induction fm as [|[k c] fm IH]; intros acc Hacc; cbn [fold_left map app fst snd].
  - now rewrite app_nil_r.
  - cbn [obj_values map snd] in H. inversion H as [|? ? Hnot Hnd]; subst.
    rewrite obj_set_fresh.
    + rewrite IH; [now rewrite <- app_assoc|exact Hnd|].
      intros c' Hc' Hin. unfold obj_keys in Hc'. rewrite map_app in Hc'.
      apply in_app_iff in Hc' as [Hc'|[<-|[]]]; [|exact (Hnot Hin)].
      apply (Hacc c' Hc'). right. exact Hin.
    + intros Hin. apply (Hacc c Hin). left. reflexivity.
Qed.

Lemma reverseFieldMap_get (fm : jsobject jsstring) (name column : jsstring) :
  NoDup (obj_values fm) ->
  (obj_get (reverseFieldMap fm) column = Some name <-> In (name, column) fm).
Proof.
  intros H. rewrite (reverseFieldMap_swap fm H). split.
  - intros Hg. apply get_In in Hg. apply in_map_iff in Hg as ([k c] & [= -> ->] & Hin).
    exact Hin.
  - intros Hin. apply In_get.
    + unfold obj_keys. rewrite map_map. exact H.
    + apply in_map_iff. exists (name, column). auto.
Qed.

Lemma existsb_In_true (x : jsstring) (l : list jsstring) :
  In x l -> existsb (jsstring_eqb x) l = false -> False.
Proof.
  intros Hin H. assert (Ht : existsb (jsstring_eqb x) l = true).
  { apply existsb_exists. exists x. split; [assumption|apply jsstring_eqb_refl]. }
  congruence.
Qed.

Lemma existsb_eqb_In (x : jsstring) (l : list jsstring) :
  existsb (jsstring_eqb x) l = true <-> In x l.
Proof.
  rewrite existsb_exists. split.
  - intros (y & Hy & E). apply jsstring_eqb_eq in E. now subst.
  - intros H. exists x. split; [assumption|apply jsstring_eqb_refl].
Qed.

Lemma distinctb_NoDup (l : list jsstring) : distinctb l = true -> NoDup l.
Proof.
  induction l as [|x l IH]; cbn [distinctb]; [constructor|].
  intros H. apply andb_true_iff in H as [Hx Hl]. constructor; [|auto].
  intros Hin. apply negb_true_iff in Hx. exact (existsb_In_true x l Hin Hx).
Qed.

(** Reading an object by value: with distinct values the entry found is
    the one the key gives, and conversely. *)
Lemma find_by_value (o : jsobject jsstring) (k t : jsstring) :
  NoDup (obj_values o) -> obj_get o k = Some t ->
  find (fun member => jsstring_eqb (snd member) t) o = Some (k, t).
Proof.
  induction o as [|[k' t'] o IH]; cbn [obj_values map snd obj_get find];
    [discriminate|].
  intros Hnd Hg. inversion Hnd as [|? ? Hnot Hnd']; subst.
  destruct (jsstring_eqb k' k) eqn:Ek.
  - apply jsstring_eqb_eq in Ek. injection Hg as ->. subst k'.
    now rewrite jsstring_eqb_refl.
  - destruct (jsstring_eqb t' t) eqn:Et; [|now apply IH].
    apply jsstring_eqb_eq in Et. subst t'. exfalso. apply Hnot.
    exact (In_values o k t Hg).
Qed.

Lemma find_by_value_inv (o : jsobject jsstring) (k t t' : jsstring) :
  NoDup (obj_keys o) ->
  find (fun member => jsstring_eqb (snd member) t) o = Some (k, t') ->
  t' = t /\ obj_get o k = Some t.
Proof.
  intros Hnd H. apply find_some in H as [Hin E]. cbn [snd] in E.
  apply jsstring_eqb_eq in E. subst t'. split; [reflexivity|].
  now apply In_get.
Qed.

(** The members of [Object.prototype] have distinct names and distinct key
    texts, none of them empty or [__proto__]. *)
Lemma Object_prototype_members :
  NoDup (obj_keys Object_prototype) /\ NoDup (obj_values Object_prototype)
  /\ forall text, In text (obj_values Object_prototype) ->
       truthy text = true /\ jsstring_eqb text (js "__proto__") = false.
Proof.
  split; [apply distinctb_NoDup; vm_compute; reflexivity|].
  split; [apply distinctb_NoDup; vm_compute; reflexivity|].
  assert (H : forallb (fun text => truthy text
                                   && negb (jsstring_eqb text (js "__proto__")))
                (obj_values Object_prototype) = true) by (vm_compute; reflexivity).
  intros text Hin. rewrite forallb_forall in H. specialize (H text Hin).
  apply andb_true_iff in H as [Ht Hp]. apply negb_true_iff in Hp. auto.
Qed.

(** The key under which the reshaping loop writes the value of a column. *)
Lemma transformRow_key (fm : jsobject jsstring) (column name : jsstring) :
  NoDup (obj_keys fm) -> NoDup (obj_values fm) -> ordinary_names fm ->
  (match obj_member (reverseFieldMap fm) column with
   | Some resoField =>
       truthy resoField && negb (jsstring_eqb resoField (js "__proto__"))
       && jsstring_eqb resoField name
   | None => false
   end = true
   <-> column_of fm name = Some column).
Proof.
  intros Hkeys Hvals Hord.
  destruct Object_prototype_members as (Hpk & Hpv & Hpt).
  unfold obj_member, column_of.
  destruct (obj_get (reverseFieldMap fm) column) as [n|] eqn:Er.
  - (* a mapped column *)
    apply (reverseFieldMap_get fm n column Hvals) in Er.
    assert (Hn : obj_get fm n = Some column) by (now apply In_get).
    assert (Hin : In n (obj_keys fm)).
    { apply in_map_iff. exists (n, column). auto. }
    destruct (Hord n Hin) as (Hne & Hproto & _).
    assert (Ht : truthy n = true) by (destruct n; [contradiction|reflexivity]).
    apply jsstring_eqb_neq in Hproto. rewrite Ht, Hproto. cbn [andb negb].
    rewrite jsstring_eqb_eq. split.
    + intros <-. now rewrite Hn.
    + destruct (obj_get fm name) as [c|] eqn:En.
      * intros [= ->]. apply get_In in En.
        assert (H1 : obj_get (reverseFieldMap fm) column = Some name)
          by (now apply reverseFieldMap_get).
        assert (H2 : obj_get (reverseFieldMap fm) column = Some n)
          by (now apply reverseFieldMap_get).
        congruence.
      * destruct (find _ Object_prototype) as [[inherited text]|]; [|discriminate].
        destruct (existsb (jsstring_eqb inherited) (obj_values fm)) eqn:Ex;
          [discriminate|].
        intros [= ->]. exfalso. apply (existsb_In_true column (obj_values fm)); [|exact Ex].
        apply in_map_iff. exists (n, column). auto.
  - (* a column the map does not know *)
    assert (Hnot : ~ In column (obj_values fm)).
    { intros Hin. apply in_map_iff in Hin as ([n c] & E & Hin). cbn [snd] in E.
      subst c. apply (reverseFieldMap_get fm n column Hvals) in Hin. congruence. }
    destruct (obj_get Object_prototype column) as [text|] eqn:Ep.
    + destruct (Hpt text (In_values _ _ _ Ep)) as [Ht Hproto].
      rewrite Ht, Hproto. cbn [andb negb]. rewrite jsstring_eqb_eq. split.
      * intros <-.
        assert (Hn : obj_get fm text = None).
        { apply get_None_not_key. intros Hin.
          destruct (Hord text Hin) as (_ & _ & H). apply H.
          exact (In_values _ _ _ Ep). }
        rewrite Hn, (find_by_value _ _ _ Hpv Ep).
        destruct (existsb (jsstring_eqb column) (obj_values fm)) eqn:Ex;
          [|reflexivity].
        apply existsb_eqb_In in Ex. contradiction.
      * destruct (obj_get fm name) as [c|] eqn:En.
        { intros [= ->]. exfalso. apply Hnot. exact (In_values _ _ _ En). }
        destruct (find _ Object_prototype) as [[inherited text']|] eqn:Ef;
          [|discriminate].
        apply (find_by_value_inv _ _ _ _ Hpk) in Ef as [-> Hg].
        destruct (existsb _ _); [discriminate|]. intros [= ->]. congruence.
    + split; [discriminate|].
      destruct (obj_get fm name) as [c|] eqn:En.
      { intros [= ->]. exfalso. apply Hnot. exact (In_values _ _ _ En). }
      destruct (find _ Object_prototype) as [[inherited text']|] eqn:Ef;
        [|discriminate].
      apply (find_by_value_inv _ _ _ _ Hpk) in Ef as [-> Hg].
      destruct (existsb _ _); [discriminate|]. intros [= ->]. congruence.
Qed.

(** The reshaping loop from any partial result: a key whose column the row
    holds gets that value, every other key keeps what it had. *)
Lemma transformRow_from {V} (row : jsobject V) (fm : jsobject jsstring)
  (name : jsstring) :
  NoDup (obj_keys fm) -> NoDup (obj_values fm) -> ordinary_names fm ->
  NoDup (obj_keys row) ->
  forall acc : jsobject V,
    obj_get
      (fold_left
         (fun result entry =>
            match obj_member (reverseFieldMap fm) (fst entry) with
            | Some resoField =>
                if truthy resoField then obj_put result resoField (snd entry)
                else result
            | None => result
            end) row acc) name
    = match column_of fm name with
      | Some column =>
          match obj_get row column with
          | Some v => Some v
          | None => obj_get acc name
          end
      | None => obj_get acc name
      end.
Proof.
  intros Hkeys Hvals Hord Hrow.
  set (step := fun (result : jsobject V) (entry : jsstring * V) =>
                 match obj_member (reverseFieldMap fm) (fst entry) with
                 | Some resoField =>
                     if truthy resoField then obj_put result resoField (snd entry)
                     else result
                 | None => result
                 end).
  induction row as [|[c v] row IH]; intros acc; cbn [fold_left].
  { destruct (column_of fm name); reflexivity. }
  cbn [obj_keys map fst] in Hrow. inversion Hrow as [|? ? Hnot Hnd]; subst.
  rewrite (IH Hnd). clear IH.
  (* what the step on [(c, v)] leaves under [name] *)
  assert (Hstep : obj_get (step acc (c, v)) name
                  = if match column_of fm name with
                       | Some column => jsstring_eqb c column
                       | None => false
                       end
                    then Some v else obj_get acc name).
  { pose proof (transformRow_key fm c name Hkeys Hvals Hord) as Hkey.
    unfold step. cbn [fst snd].
    destruct (obj_member (reverseFieldMap fm) c) as [r|].
    - destruct (truthy r); cbn [andb] in Hkey.
      + unfold obj_put.
        destruct (jsstring_eqb r (js "__proto__")); cbn [negb andb] in Hkey.
        * destruct (column_of fm name) as [column|]; [|reflexivity].
          destruct (jsstring_eqb c column) eqn:E; [|reflexivity].
          apply jsstring_eqb_eq in E. subst column.
          destruct Hkey as [_ Hkey]. discriminate (Hkey eq_refl).
        * destruct (jsstring_eqb r name) eqn:Ern.
          -- apply jsstring_eqb_eq in Ern. subst r.
             destruct Hkey as [Hkey _]. rewrite (Hkey eq_refl).
             rewrite jsstring_eqb_refl. apply get_set_same.
          -- apply jsstring_eqb_neq in Ern. rewrite (get_set_other _ _ _ _ Ern).
             destruct (column_of fm name) as [column|]; [|reflexivity].
             destruct (jsstring_eqb c column) eqn:E; [|reflexivity].
             apply jsstring_eqb_eq in E. subst column.
             destruct Hkey as [_ Hkey]. discriminate (Hkey eq_refl).
      + destruct (column_of fm name) as [column|]; [|reflexivity].
        destruct (jsstring_eqb c column) eqn:E; [|reflexivity].
        apply jsstring_eqb_eq in E. subst column.
        destruct Hkey as [_ Hkey]. discriminate (Hkey eq_refl).
    - destruct (column_of fm name) as [column|]; [|reflexivity].
      destruct (jsstring_eqb c column) eqn:E; [|reflexivity].
      apply jsstring_eqb_eq in E. subst column.
      destruct Hkey as [_ Hkey]. discriminate (Hkey eq_refl). }
  rewrite Hstep. destruct (column_of fm name) as [column|]; [|reflexivity].
  cbn [obj_get]. destruct (jsstring_eqb c column) eqn:E; [|reflexivity].
  apply jsstring_eqb_eq in E. subst column.
  assert (Hnone : obj_get row c = None) by (now apply get_None_not_key).
  now rewrite Hnone.
Qed.

(** X9. The reshape law.  For a field map with no name and no column used
    twice and with ordinary names (none empty, [__proto__] or the key text
    of a member of [Object.prototype]), and a row with distinct columns,
    the reshaped row holds under each RESO name the value the row holds
    under its column.  A column the map does not know is dropped, unless it
    bears the name of a member of [Object.prototype] ([constructor],
    [toString], ...): its value is kept, under the key text of that member.
    The reshaped row holds nothing under any other key. *)
Theorem transformRow_reshape {V} (row : jsobject V) (fm : jsobject jsstring)
  (name : jsstring) :
  NoDup (obj_keys fm) -> NoDup (obj_values fm) -> ordinary_names fm ->
  NoDup (obj_keys row) ->
  obj_get (transformRow row (reverseFieldMap fm)) name
  = match obj_get fm name with
    | Some column => obj_get row column
    | None =>
        match find (fun member => jsstring_eqb (snd member) name) Object_prototype with
        | Some (inherited, _) =>
            if existsb (jsstring_eqb inherited) (obj_values fm) then None
            else obj_get row inherited
        | None => None
        end
    end.
Proof.
  intros Hkeys Hvals Hord Hrow. unfold transformRow.
  rewrite (transformRow_from row fm name Hkeys Hvals Hord Hrow []).
  unfold column_of. destruct (obj_get fm name) as [column|].
  - destruct (obj_get row column); reflexivity.
  - destruct (find _ Object_prototype) as [[inherited text]|]; [|reflexivity].
    destruct (existsb _ _); [reflexivity|].
    destruct (obj_get row inherited); reflexivity.
Qed.

Lemma ordinary_names_check (fm : jsobject jsstring) :
  forallb (fun name => truthy name && negb (jsstring_eqb name (js "__proto__"))
                       && negb (existsb (jsstring_eqb name)
                                  (obj_values Object_prototype)))
    (obj_keys fm) = true ->
  ordinary_names fm.
Proof.
  intros H name Hin. rewrite forallb_forall in H. specialize (H name Hin).
  apply andb_true_iff in H as [H Hp]. apply andb_true_iff in H as [Ht Hproto].
  apply negb_true_iff in Hproto, Hp. split; [|split].
  - intros ->. discriminate.
  - now apply jsstring_eqb_neq.
  - intros Hin'. apply existsb_eqb_In in Hin'. congruence.
Qed.

Lemma fieldMaps_bijective :
  NoDup (obj_keys Property.fieldMap) /\ NoDup (obj_values Property.fieldMap)
  /\ ordinary_names Property.fieldMap
  /\ NoDup (obj_keys Member.fieldMap) /\ NoDup (obj_values Member.fieldMap)
  /\ ordinary_names Member.fieldMap
  /\ NoDup (obj_keys Office.fieldMap) /\ NoDup (obj_values Office.fieldMap)
  /\ ordinary_names Office.fieldMap.
Proof.
  repeat match goal with |- _ /\ _ => split end;
    first [apply distinctb_NoDup; vm_compute; reflexivity
          | apply ordinary_names_check; vm_compute; reflexivity].
Qed.

Lemma transformRow_reshape_witness :
  let row := [(js "CITY", VString (js "Los Angeles")); (js "EXTRA", VInt 1);
              (js "constructor", VInt 2); (js "IDCLISTPRICE", VInt 500000)] in
  obj_get (transformRow row (reverseFieldMap Property.fieldMap)) (js "City")
  = Some (VString (js "Los Angeles"))
  /\ obj_get (transformRow row (reverseFieldMap Property.fieldMap)) (js "EXTRA") = None
  /\ obj_get (transformRow row (reverseFieldMap Property.fieldMap))
       (js "function Object() { [native code] }") = Some (VInt 2).
Proof.
  intros row.
  destruct fieldMaps_bijective as (Hk & Hv & He & _).
  assert (Hrow : NoDup (obj_keys row)) by (apply distinctb_NoDup; vm_compute; reflexivity).
  split; [|split].
  - rewrite (transformRow_reshape row Property.fieldMap (js "City") Hk Hv He Hrow).
    reflexivity.
  - rewrite (transformRow_reshape row Property.fieldMap (js "EXTRA") Hk Hv He Hrow).
    reflexivity.
  - rewrite (transformRow_reshape row Property.fieldMap
               (js "function Object() { [native code] }") Hk Hv He Hrow).
    reflexivity.
Defined.

(* ================================================================== *)
(** * Bearer tokens: issue, verify, expire *)

Lemma get_saveToken_same (table : Auth.token_store) (token clientId : jsstring)
  (expiresAt : Z) :
  obj_get (TokenStore.saveToken table token clientId expiresAt) token
  = Some (Auth.TokenData
            (match obj_get table token with
             | Some d => Auth.clientId d
             | None => clientId
             end) expiresAt).
Proof.
  induction table as [|[t d] table IH]; cbn [TokenStore.saveToken obj_get].
  - now rewrite jsstring_eqb_refl.
  - destruct (jsstring_eqb t token) eqn:E; cbn [obj_get]; rewrite E; auto.
Qed.

Lemma get_saveToken_other (table : Auth.token_store) (token clientId other : jsstring)
  (expiresAt : Z) :
  other <> token ->
  obj_get (TokenStore.saveToken table token clientId expiresAt) other
  = obj_get table other.
Proof.
  intros Hne. induction table as [|[t d] table IH]; cbn [TokenStore.saveToken obj_get].
  - apply not_eq_sym, jsstring_eqb_neq in Hne. now rewrite Hne.
  - destruct (jsstring_eqb t token) eqn:E; cbn [obj_get].
    + apply jsstring_eqb_eq in E. subst t.
      destruct (jsstring_eqb token other) eqn:E'; [|reflexivity].
      apply jsstring_eqb_eq in E'. congruence.
    + destruct (jsstring_eqb t other); auto.
Qed.

Lemma get_delete_same (table : Auth.token_store) (token : jsstring) :
  obj_get (Auth.delete table token) token = None.
Proof.
  unfold Auth.delete. induction table as [|[t d] table IH]; cbn [filter fst]; [reflexivity|].
  destruct (jsstring_eqb t token) eqn:E; cbn [negb obj_get]; [exact IH|].
  now rewrite E.
Qed.

Lemma get_delete_other (table : Auth.token_store) (token other : jsstring) :
  other <> token ->
  obj_get (Auth.delete table token) other = obj_get table other.
Proof.
  intros Hne. unfold Auth.delete.
  induction table as [|[t d] table IH]; cbn [filter fst]; [reflexivity|].
  destruct (jsstring_eqb t token) eqn:E; cbn [negb obj_get].
  - apply jsstring_eqb_eq in E. subst t.
    destruct (jsstring_eqb token other) eqn:E'; [|exact IH].
    apply jsstring_eqb_eq in E'. congruence.
  - destruct (jsstring_eqb t other); auto.
Qed.

(** The middleware on a well-formed bearer header, with credentials
    configured: the token is looked up and judged by its expiry. *)
Lemma middleware_bearer (id secret token : jsstring) (store : Auth.token_store)
  (now : Z) :
  id <> [] -> secret <> [] ->
  Auth.middleware (Some id) (Some secret) (Some (js "Bearer " ++ token)) store now
  = match obj_get store token with
    | None =>
        (Auth.Unauthorized (js "Invalid or expired token"), store, [Auth.getToken token])
    | Some tokenData =>
        if (Auth.expiresAt tokenData <? now)%Z then
          (Auth.Unauthorized (js "Token has expired"), Auth.delete store token,
           [Auth.getToken token; Auth.deleteToken token])
        else (Auth.Next (Some (Auth.clientId tokenData)), store, [Auth.getToken token])
    end.
Proof.
  intros Hid Hsecret. unfold Auth.middleware.
  destruct id; [contradiction|]. destruct secret; [contradiction|]. reflexivity.
Qed.

(** X10. A token issued for the configured client credentials passes the
    middleware as that client, leaving the store as it is, at every instant
    up to 3600 seconds after the issue; after that it is rejected as expired
    and deleted. *)
Theorem issued_token_verifies (id secret accessToken refreshToken : jsstring)
  (supplied : option jsstring) (now_access now_refresh : Z)
  (st : TokenEndpoint.stores) :
  id <> [] -> secret <> [] ->
  obj_get (TokenEndpoint.accessTokens st) accessToken = None ->
  let request :=
    TokenEndpoint.Body (Some (js "client_credentials")) (Some id) (Some secret) supplied in
  let outcome :=
    TokenEndpoint.tokenHandler (Some id) (Some secret) request accessToken refreshToken
      now_access now_refresh st in
  let store := TokenEndpoint.accessTokens (snd outcome) in
  fst outcome = TokenEndpoint.TokenReply accessToken 3600 refreshToken
  /\ forall now : Z,
       ((now <= now_access + 3600000)%Z ->
        Auth.middleware (Some id) (Some secret) (Some (js "Bearer " ++ accessToken))
          store now
        = (Auth.Next (Some id), store, [Auth.getToken accessToken]))
       /\ ((now_access + 3600000 < now)%Z ->
           Auth.middleware (Some id) (Some secret) (Some (js "Bearer " ++ accessToken))
             store now
           = (Auth.Unauthorized (js "Token has expired"), Auth.delete store accessToken,
              [Auth.getToken accessToken; Auth.deleteToken accessToken])).
Proof.
  intros Hid Hsecret Hfresh request outcome store.
  assert (Hout : outcome
                 = (TokenEndpoint.TokenReply accessToken 3600 refreshToken,
                    TokenEndpoint.Stores
                      (TokenStore.saveToken (TokenEndpoint.accessTokens st) accessToken id
                         (now_access + 3600000))
                      (TokenStore.saveRefreshToken (TokenEndpoint.refreshTokens st)
                         refreshToken id (now_refresh + 2592000000)))).
  { subst outcome request. unfold TokenEndpoint.tokenHandler.
    cbn [TokenEndpoint.grant_type TokenEndpoint.client_id TokenEndpoint.client_secret].
    change (jsstring_eqb (js "client_credentials") (js "refresh_token")) with false.
    change (jsstring_eqb (js "client_credentials") (js "client_credentials")) with true.
    cbn [negb TokenEndpoint.differs]. rewrite !jsstring_eqb_refl.
    destruct id; [contradiction|]. destruct secret; [contradiction|]. reflexivity. }
  subst store. rewrite Hout. cbn [fst snd TokenEndpoint.accessTokens].
  split; [reflexivity|]. intros now.
  rewrite (middleware_bearer id secret accessToken _ now Hid Hsecret).
  rewrite get_saveToken_same, Hfresh. cbn [Auth.expiresAt Auth.clientId].
  split; intros Hnow.
  - destruct (Z.ltb_spec (now_access + 3600000) now); [lia|reflexivity].
  - destruct (Z.ltb_spec (now_access + 3600000) now); [reflexivity|lia].
Qed.

Lemma issued_token_verifies_witness :
  let st := TokenEndpoint.Stores [] [] in
  let outcome :=
    TokenEndpoint.tokenHandler (Some (js "test-client")) (Some (js "test-secret"))
      (TokenEndpoint.Body (Some (js "client_credentials")) (Some (js "test-client"))
         (Some (js "test-secret")) None)
      (js "a1") (js "r1") 1000 1001 st in
  Auth.middleware (Some (js "test-client")) (Some (js "test-secret"))
    (Some (js "Bearer a1")) (TokenEndpoint.accessTokens (snd outcome)) 3601000
  = (Auth.Next (Some (js "test-client")), TokenEndpoint.accessTokens (snd outcome),
     [Auth.getToken (js "a1")]).
Proof.
  intros st outcome.
  destruct (issued_token_verifies (js "test-client") (js "test-secret") (js "a1")
              (js "r1") None 1000 1001 st ltac:(discriminate) ltac:(discriminate)
              eq_refl) as [_ H].
  apply (H 3601000%Z). lia.
Defined.

(** X11. The endpoint hands out a token only against the configured client
    credentials or against a stored refresh token that has not expired; the
    token is the generated one and lives 3600 seconds.  Every error reply
    leaves the access-token table untouched. *)
Theorem token_needs_credentials (CLIENT_ID CLIENT_SECRET : option jsstring)
  (b : TokenEndpoint.body) (accessToken refreshToken : jsstring)
  (now1 now2 : Z) (st : TokenEndpoint.stores) :
  let outcome :=
    TokenEndpoint.tokenHandler CLIENT_ID CLIENT_SECRET b accessToken refreshToken
      now1 now2 st in
  (forall a e r,
      fst outcome = TokenEndpoint.TokenReply a e r ->
      a = accessToken /\ e = 3600%Z
      /\ ((TokenEndpoint.grant_type b = Some (js "client_credentials")
           /\ truthy_opt CLIENT_ID = true /\ truthy_opt CLIENT_SECRET = true
           /\ TokenEndpoint.client_id b = CLIENT_ID
           /\ TokenEndpoint.client_secret b = CLIENT_SECRET
           /\ r = refreshToken)
          \/ (TokenEndpoint.grant_type b = Some (js "refresh_token")
              /\ TokenEndpoint.refresh_token b = Some r
              /\ exists data,
                   obj_get (TokenEndpoint.refreshTokens st) r = Some data
                   /\ (now1 <= Auth.expiresAt data)%Z
                   /\ TokenEndpoint.refreshTokens (snd outcome)
                      = TokenEndpoint.refreshTokens st)))
  /\ (forall status error description,
         fst outcome = TokenEndpoint.ErrorReply status error description ->
         TokenEndpoint.accessTokens (snd outcome) = TokenEndpoint.accessTokens st).
Proof.
  intros outcome. subst outcome. unfold TokenEndpoint.tokenHandler.
  destruct (TokenEndpoint.grant_type b) as [g|] eqn:Eg.
  2:{ cbn [fst snd]. split; [discriminate|reflexivity]. }
  destruct (jsstring_eqb g (js "refresh_token")) eqn:Er.
  { apply jsstring_eqb_eq in Er. subst g. unfold TokenEndpoint.handleRefreshToken.
    destruct (TokenEndpoint.refresh_token b) as [[|c r0]|] eqn:Et;
      cbn [truthy_opt truthy negb template fst snd];
      try (split; [discriminate|reflexivity]).
    unfold TokenStore.getRefreshToken, TokenStore.getToken.
    destruct (obj_get (TokenEndpoint.refreshTokens st) (c :: r0)) as [data|] eqn:Ed;
      cbn [fst snd]; [|split; [discriminate|reflexivity]].
    destruct (Z.ltb_spec (Auth.expiresAt data) now1); cbn [fst snd].
    - split; [discriminate|reflexivity].
    - split; [|discriminate]. intros a e r [= <- <- <-].
      split; [reflexivity|]. split; [reflexivity|]. right.
      split; [reflexivity|]. split; [reflexivity|]. exists data. auto. }
  destruct (jsstring_eqb g (js "client_credentials")) eqn:Ec; cbn [negb].
  2:{ cbn [fst snd]. split; [discriminate|reflexivity]. }
  apply jsstring_eqb_eq in Ec. subst g.
  destruct (truthy_opt CLIENT_ID) eqn:Eid; cbn [negb orb];
    [|cbn [fst snd]; split; [discriminate|reflexivity]].
  destruct (truthy_opt CLIENT_SECRET) eqn:Esec; cbn [negb];
    [|cbn [fst snd]; split; [discriminate|reflexivity]].
  destruct (TokenEndpoint.differs (TokenEndpoint.client_id b) CLIENT_ID) eqn:E1;
    cbn [orb]; [cbn [fst snd]; split; [discriminate|reflexivity]|].
  destruct (TokenEndpoint.differs (TokenEndpoint.client_secret b) CLIENT_SECRET) eqn:E2;
    [cbn [fst snd]; split; [discriminate|reflexivity]|].
  cbn [fst snd]. split; [|discriminate]. intros a e r [= <- <- <-].
  split; [reflexivity|]. split; [reflexivity|]. left.
  assert (Hsame : forall x y, TokenEndpoint.differs x y = false -> x = y).
  { intros [x|] [y|]; cbn [TokenEndpoint.differs]; try discriminate; [|reflexivity].
    intros H. apply negb_false_iff, jsstring_eqb_eq in H. now subst. }
  repeat split; auto.
Qed.

Lemma token_needs_credentials_witness :
  let outcome :=
    TokenEndpoint.tokenHandler (Some (js "test-client")) (Some (js "test-secret"))
      (TokenEndpoint.Body (Some (js "client_credentials")) (Some (js "test-client"))
         (Some (js "wrong")) None)
      (js "a1") (js "r1") 1000 1001 (TokenEndpoint.Stores [] []) in
  fst outcome = TokenEndpoint.ErrorReply 401 (js "invalid_client")
                  (js "Invalid client credentials")
  /\ TokenEndpoint.accessTokens (snd outcome) = [].
Proof.
  intros outcome. split; [reflexivity|].
  destruct (token_needs_credentials (Some (js "test-client")) (Some (js "test-secret"))
              (TokenEndpoint.Body (Some (js "client_credentials"))
                 (Some (js "test-client")) (Some (js "wrong")) None)
              (js "a1") (js "r1") 1000 1001 (TokenEndpoint.Stores [] [])) as [_ H].
  apply (H 401 (js "invalid_client") (js "Invalid client credentials")). reflexivity.
Defined.


(** X12. A stored token presented after its expiry is answered 401 [Token
    has expired] and deleted from the store; presented again, at any time,
    it is answered 401 [Invalid or expired token] with one lookup and no
    further change of the store. *)
Theorem expired_token_deleted (id secret token : jsstring)
  (store : Auth.token_store) (tokenData : Auth.token_data) (now : Z) :
  id <> [] -> secret <> [] ->
  obj_get store token = Some tokenData ->
  (Auth.expiresAt tokenData < now)%Z ->
  let header := Some (js "Bearer " ++ token) in
  Auth.middleware (Some id) (Some secret) header store now
  = (Auth.Unauthorized (js "Token has expired"), Auth.delete store token,
     [Auth.getToken token; Auth.deleteToken token])
  /\ forall later : Z,
       Auth.middleware (Some id) (Some secret) header (Auth.delete store token) later
       = (Auth.Unauthorized (js "Invalid or expired token"), Auth.delete store token,
          [Auth.getToken token]).
Proof.
  intros Hid Hsecret Hget Hexp header. subst header. split.
  - rewrite (middleware_bearer id secret token store now Hid Hsecret), Hget.
    destruct (Z.ltb_spec (Auth.expiresAt tokenData) now); [reflexivity|lia].
  - intros later.
    rewrite (middleware_bearer id secret token _ later Hid Hsecret).
    now rewrite get_delete_same.
Qed.

Lemma expired_token_deleted_witness :
  Auth.middleware (Some (js "test-client")) (Some (js "test-secret"))
    (Some (js "Bearer a1")) [(js "a1", Auth.TokenData (js "test-client") 1000)] 1001
  = (Auth.Unauthorized (js "Token has expired"), [],
     [Auth.getToken (js "a1"); Auth.deleteToken (js "a1")]).
Proof.
  apply (expired_token_deleted (js "test-client") (js "test-secret") (js "a1")
           [(js "a1", Auth.TokenData (js "test-client") 1000)]
           (Auth.TokenData (js "test-client") 1000) 1001);
    [discriminate | discriminate | reflexivity | cbn [Auth.expiresAt]; lia].
Defined.

(** X13. The refresh grant asks for no client credentials: whatever
    [client_id] and [client_secret] the body carries, and whether or not the
    server has credentials configured, a stored refresh token that has not
    expired yields a new access token with the same refresh token, and the
    refresh-token table is left as it is.  The new access token then passes
    the middleware as the client the refresh token was issued to, for 3600
    seconds from the second clock reading. *)
Theorem refresh_grant_issues_for_owner (CLIENT_ID CLIENT_SECRET : option jsstring)
  (supplied_id supplied_secret : option jsstring)
  (refreshToken accessToken generated : jsstring) (tokenData : Auth.token_data)
  (now_check now_issue : Z) (st : TokenEndpoint.stores) :
  refreshToken <> [] ->
  obj_get (TokenEndpoint.refreshTokens st) refreshToken = Some tokenData ->
  (now_check <= Auth.expiresAt tokenData)%Z ->
  obj_get (TokenEndpoint.accessTokens st) accessToken = None ->
  let request :=
    TokenEndpoint.Body (Some (js "refresh_token")) supplied_id supplied_secret
      (Some refreshToken) in
  let outcome :=
    TokenEndpoint.tokenHandler CLIENT_ID CLIENT_SECRET request accessToken generated
      now_check now_issue st in
  let store := TokenEndpoint.accessTokens (snd outcome) in
  fst outcome = TokenEndpoint.TokenReply accessToken 3600 refreshToken
  /\ TokenEndpoint.refreshTokens (snd outcome) = TokenEndpoint.refreshTokens st
  /\ forall (id secret : jsstring) (now : Z),
       id <> [] -> secret <> [] -> (now <= now_issue + 3600000)%Z ->
       Auth.middleware (Some id) (Some secret) (Some (js "Bearer " ++ accessToken))
         store now
       = (Auth.Next (Some (Auth.clientId tokenData)), store,
          [Auth.getToken accessToken]).
Proof.
  intros Hrt Hget Hlive Hfresh request outcome store.
  assert (Hout : outcome
                 = (TokenEndpoint.TokenReply accessToken 3600 refreshToken,
                    TokenEndpoint.Stores
                      (TokenStore.saveToken (TokenEndpoint.accessTokens st) accessToken
                         (Auth.clientId tokenData) (now_issue + 3600000))
                      (TokenEndpoint.refreshTokens st))).
  { subst outcome request. unfold TokenEndpoint.tokenHandler.
    cbn [TokenEndpoint.grant_type TokenEndpoint.refresh_token].
    change (jsstring_eqb (js "refresh_token") (js "refresh_token")) with true.
    cbv iota. unfold TokenEndpoint.handleRefreshToken.
    destruct refreshToken as [|c rest]; [contradiction|].
    cbn [truthy_opt truthy negb template].
    unfold TokenStore.getRefreshToken, TokenStore.getToken. rewrite Hget.
    destruct (Z.ltb_spec (Auth.expiresAt tokenData) now_check); [lia|reflexivity]. }
  subst store. rewrite Hout. cbn [fst snd TokenEndpoint.accessTokens TokenEndpoint.refreshTokens].
  split; [reflexivity|]. split; [reflexivity|].
  intros id secret now Hid Hsecret Hnow.
  rewrite (middleware_bearer id secret accessToken _ now Hid Hsecret).
  rewrite get_saveToken_same, Hfresh. cbn [Auth.expiresAt Auth.clientId].
  destruct (Z.ltb_spec (now_issue + 3600000) now); [lia|reflexivity].
Qed.

Lemma refresh_grant_issues_for_owner_witness :
  let st := TokenEndpoint.Stores [] [(js "r1", Auth.TokenData (js "test-client") 5000)] in
  let outcome :=
    TokenEndpoint.tokenHandler None None
      (TokenEndpoint.Body (Some (js "refresh_token")) None None (Some (js "r1")))
      (js "a2") (js "unused") 5000 5001 st in
  fst outcome = TokenEndpoint.TokenReply (js "a2") 3600 (js "r1")
  /\ TokenEndpoint.accessTokens (snd outcome)
     = [(js "a2", Auth.TokenData (js "test-client") 3605001)].
Proof.
  intros st outcome. split; [|reflexivity].
  apply (refresh_grant_issues_for_owner None None None None (js "r1") (js "a2")
           (js "unused") (Auth.TokenData (js "test-client") 5000) 5000 5001 st);
    [discriminate | reflexivity | cbn [Auth.expiresAt]; lia | reflexivity].
Defined.

Lemma get_filter_row {V} (keep : V -> bool) (o : jsobject V) (k : jsstring) :
  NoDup (obj_keys o) ->
  obj_get (filter (fun row => keep (snd row)) o) k
  = match obj_get o k with
    | Some v => if keep v then Some v else None
    | None => None
    end.
Proof.
  unfold obj_keys. induction o as [|[k0 v0] o IH]; cbn [filter map fst snd obj_get];
    intros Hnd; [reflexivity|].
  inversion Hnd as [|? ? Hnotin Hnd']; subst.
  destruct (jsstring_eqb k0 k) eqn:E.
  - apply jsstring_eqb_eq in E. subst k0.
    destruct (keep v0); cbn [obj_get].
    + now rewrite jsstring_eqb_refl.
    + rewrite (IH Hnd').
      destruct (obj_get o k) as [v|] eqn:Eg; [|reflexivity].
      exfalso. apply Hnotin. apply get_In in Eg.
      apply (in_map fst) in Eg. exact Eg.
  - destruct (keep v0); cbn [obj_get]; [rewrite E|]; apply (IH Hnd').
Qed.

(** X14. [cleanup] removes from both tables exactly the rows whose expiry
    lies before the instant it is run at: a token expired by then is no
    longer found, every other token is found with the row it had.  (Tokens
    are the primary key of either table.) *)
Theorem cleanup_removes_expired (access refresh : Auth.token_store) (now : Z)
  (token : jsstring) :
  NoDup (obj_keys access) -> NoDup (obj_keys refresh) ->
  let after := TokenStore.cleanup (access, refresh) now in
  let kept (found : option Auth.token_data) :=
    match found with
    | Some d => if (Auth.expiresAt d <? now)%Z then None else Some d
    | None => None
    end in
  TokenStore.getToken (fst after) token = kept (TokenStore.getToken access token)
  /\ TokenStore.getRefreshToken (snd after) token
     = kept (TokenStore.getRefreshToken refresh token).
Proof.
  intros Ha Hr after kept. subst after kept.
  unfold TokenStore.cleanup, TokenStore.getRefreshToken, TokenStore.getToken,
    TokenStore.purge. cbn [fst snd].
  rewrite (get_filter_row (fun d => negb (Auth.expiresAt d <? now)%Z) access token Ha).
  rewrite (get_filter_row (fun d => negb (Auth.expiresAt d <? now)%Z) refresh token Hr).
  split.
  - destruct (obj_get access token) as [d|]; [|reflexivity].
    now destruct (Auth.expiresAt d <? now)%Z.
  - destruct (obj_get refresh token) as [d|]; [|reflexivity].
    now destruct (Auth.expiresAt d <? now)%Z.
Qed.

Lemma cleanup_removes_expired_witness :
  let access := [(js "a1", Auth.TokenData (js "c") 1000);
                 (js "a2", Auth.TokenData (js "c") 3000)] in
  let after := TokenStore.cleanup (access, []) 2000 in
  TokenStore.getToken (fst after) (js "a1") = None
  /\ TokenStore.getToken (fst after) (js "a2") = Some (Auth.TokenData (js "c") 3000).
Proof.
  intros access after. split.
  - apply (cleanup_removes_expired access [] 2000 (js "a1"));
      [apply distinctb_NoDup; reflexivity | constructor].
  - apply (cleanup_removes_expired access [] 2000 (js "a2"));
      [apply distinctb_NoDup; reflexivity | constructor].
Defined.

Lemma startsWith_split (s prefix : jsstring) :
  Auth.startsWith s prefix = true -> s = prefix ++ skipn (List.length prefix) s.
Proof.
  unfold Auth.startsWith. intros H. apply jsstring_eqb_eq in H.
  rewrite <- H at 1. symmetry. apply firstn_skipn.
Qed.

(** X15. With credentials configured, the middleware lets a request through
    only on a header [Bearer <token>] whose token is stored and not expired
    at the time of the request; it then sets the client to the stored one,
    reads the store once and leaves it unchanged. *)
Theorem middleware_next_sound (CLIENT_ID CLIENT_SECRET authorization : option jsstring)
  (store store' : Auth.token_store) (now : Z) (client : option jsstring)
  (calls : list Auth.store_call) :
  truthy_opt CLIENT_ID = true -> truthy_opt CLIENT_SECRET = true ->
  Auth.middleware CLIENT_ID CLIENT_SECRET authorization store now
  = (Auth.Next client, store', calls) ->
  exists token tokenData,
    authorization = Some (js "Bearer " ++ token)
    /\ obj_get store token = Some tokenData
    /\ (now <= Auth.expiresAt tokenData)%Z
    /\ client = Some (Auth.clientId tokenData)
    /\ store' = store
    /\ calls = [Auth.getToken token].
Proof.
  intros Hid Hsecret. unfold Auth.middleware. rewrite Hid, Hsecret. cbn [negb orb].
  destruct authorization as [authHeader|]; [|discriminate].
  destruct (truthy authHeader); cbn [negb orb]; [|discriminate].
  destruct (Auth.startsWith authHeader (js "Bearer ")) eqn:Es; cbn [negb]; [|discriminate].
  apply startsWith_split in Es. change (List.length (js "Bearer ")) with 7%nat in Es.
  destruct (obj_get store (skipn 7 authHeader)) as [tokenData|] eqn:Eg; [|discriminate].
  destruct (Z.ltb_spec (Auth.expiresAt tokenData) now); [discriminate|].
  intros [= <- <- <-]. exists (skipn 7 authHeader), tokenData.
  repeat split; auto. now f_equal.
Qed.

Lemma middleware_next_sound_witness :
  exists token tokenData,
    Some (js "Bearer a1") = Some (js "Bearer " ++ token)
    /\ obj_get [(js "a1", Auth.TokenData (js "test-client") 1000)] token = Some tokenData
    /\ (1000 <= Auth.expiresAt tokenData)%Z
    /\ Some (js "test-client") = Some (Auth.clientId tokenData)
    /\ [(js "a1", Auth.TokenData (js "test-client") 1000)]
       = [(js "a1", Auth.TokenData (js "test-client") 1000)]
    /\ [Auth.getToken (js "a1")] = [Auth.getToken token].
Proof.
  apply (middleware_next_sound (Some (js "id")) (Some (js "secret"))
           (Some (js "Bearer a1")) [(js "a1", Auth.TokenData (js "test-client") 1000)]
           _ 1000 _ _); reflexivity.
Defined.


(* ================================================================== *)
(** * Photos: what [parsePhotosXML] extracts *)

Lemma literal_app (text s : jsstring) : literal text (text ++ s) = Some s.
Proof.
  induction text as [|c text IH]; cbn [app literal]; [now destruct s|].
  now rewrite N.eqb_refl.
Qed.

Lemma literal_inv (text : jsstring) :
  forall s r, literal text s = Some r -> s = text ++ r.
Proof.
  induction text as [|c text IH]; intros s r; cbn [literal app].
  - destruct s; now intros [= ->].
  - destruct s as [|d s]; [discriminate|].
    destruct (N.eqb_spec c d) as [->|]; [|discriminate].
    intros H. now rewrite (IH _ _ H).
Qed.

Lemma span_inv (p : N -> bool) (s : jsstring) :
  forall run after, span p s = (run, after) ->
    s = run ++ after /\ Forall (fun c => p c = true) run.
Proof.
  induction s as [|c s IH]; intros run after; cbn [span].
  - intros [= <- <-]. split; [reflexivity|constructor].
  - destruct (p c) eqn:Ec.
    + destruct (span p s) as [run' after'] eqn:Es. intros [= <- <-].
      destruct (IH _ _ eq_refl) as [-> Hrun]. split; [reflexivity|].
      constructor; assumption.
    + intros [= <- <-]. split; [reflexivity|constructor].
Qed.

Lemma matchURL_inv (s group after : jsstring) :
  matchURL s = Some (group, after) -> s = element group ++ after /\ is_url group.
Proof.
  unfold matchURL. destruct (literal (js "<URL>") s) as [afterOpen|] eqn:Eo; [|discriminate].
  apply literal_inv in Eo.
  destruct (span (fun c => negb (c =? 60)) afterOpen) as [g afterGroup] eqn:Es.
  apply span_inv in Es as [-> Hg].
  destruct g as [|c g]; [discriminate|].
  destruct (literal (js "</URL>") afterGroup) as [afterClose|] eqn:Ec; [|discriminate].
  apply literal_inv in Ec. intros [= <- <-]. subst. split.
  - unfold element. now rewrite <- !app_assoc.
  - split; [discriminate|]. intros Hin.
    rewrite Forall_forall in Hg. specialize (Hg 60 Hin). discriminate.
Qed.

Lemma matchURL_element (url rest : jsstring) :
  is_url url -> matchURL (element url ++ rest) = Some (url, rest).
Proof.
  intros [Hne Hno]. unfold matchURL, element.
  rewrite <- !app_assoc, literal_app.
  rewrite (span_app (fun c => negb (c =? 60)) url (js "</URL>" ++ rest)).
  - destruct url; [contradiction|]. now rewrite literal_app.
  - apply Forall_forall. intros c Hc.
    destruct (N.eqb_spec c 60) as [->|]; [contradiction|reflexivity].
  - reflexivity.
Qed.

Lemma element_length (url : jsstring) :
  List.length (element url) = (11 + List.length url)%nat.
Proof.
  unfold element. rewrite !length_app.
  change (List.length (js "<URL>")) with 5%nat.
  change (List.length (js "</URL>")) with 6%nat. lia.
Qed.

(** The loop never runs out of fuel: any amount from the length of the
    text on gives the same list. *)
Lemma execLoop_fuel (fuel : nat) :
  forall fuel' s, (List.length s <= fuel)%nat -> (List.length s <= fuel')%nat ->
    execLoop fuel s = execLoop fuel' s.
Proof.
  induction fuel as [|fuel IH]; intros fuel' s Hs Hs'.
  - destruct s; [|cbn [List.length] in Hs; lia]. now destruct fuel'.
  - destruct s as [|c rest]; [now destruct fuel'|].
    destruct fuel' as [|fuel']; [cbn [List.length] in Hs'; lia|].
    cbn [execLoop]. cbn [List.length] in Hs, Hs'.
    destruct (matchURL (c :: rest)) as [[group after]|] eqn:Em.
    + apply matchURL_inv in Em as [Em _].
      assert (Hlen : (List.length after < List.length (c :: rest))%nat).
      { rewrite Em, length_app, element_length. lia. }
      cbn [List.length] in Hlen. f_equal. apply IH; lia.
    + apply IH; lia.
Qed.

Lemma parsePhotosXML_element (url rest : jsstring) :
  is_url url ->
  parsePhotosXML (Some (element url ++ rest)) = url :: parsePhotosXML (Some rest).
Proof.
  intros Hu. unfold parsePhotosXML.
  assert (Hlen := element_length url).
  destruct (element url ++ rest) as [|c s] eqn:Es.
  { apply (f_equal (@List.length N)) in Es. rewrite length_app, Hlen in Es.
    cbn [List.length] in Es. lia. }
  cbn [truthy negb List.length execLoop]. rewrite <- Es.
  rewrite (matchURL_element url rest Hu). f_equal.
  assert (Hs : (List.length rest <= List.length s)%nat).
  { apply (f_equal (@List.length N)) in Es. rewrite length_app, Hlen in Es.
    cbn [List.length] in Es. lia. }
  destruct rest as [|c' rest']; [now destruct (List.length s)|].
  cbn [truthy negb]. apply execLoop_fuel; [exact Hs|apply le_n].
Qed.

Lemma parsePhotosXML_skip (c : N) (rest : jsstring) :
  matchURL (c :: rest) = None ->
  parsePhotosXML (Some (c :: rest)) = parsePhotosXML (Some rest).
Proof.
  intros Hm. unfold parsePhotosXML. cbn [truthy negb List.length execLoop].
  rewrite Hm. destruct rest as [|c' rest']; reflexivity.
Qed.

(** An opening tag cannot begin in a text and end in what follows it, when
    that is nothing or begins with [<]. *)
Lemma literal_straddle (text following r : jsstring) :
  text <> [] ->
  (match following with c :: _ => c = 60 | [] => True end) ->
  literal (js "<URL>") (text ++ following) = Some r ->
  occurs_in (js "<URL>") text.
Proof.
  intros Hne Hf H. apply literal_inv in H.
  change (js "<URL>") with [60; 85; 82; 76; 62] in *.
  destruct text as [|c1 [|c2 [|c3 [|c4 [|c5 text]]]]]; [contradiction|..];
    cbn [app] in H.
  1-4: destruct following as [|f following]; [discriminate|]; subst f;
       injection H; intros; subst; discriminate.
  injection H as -> -> -> -> -> _. exists [], text. reflexivity.
Qed.

Lemma parsePhotosXML_inert (text following : jsstring) :
  ~ occurs_in (js "<URL>") text ->
  (match following with c :: _ => c = 60 | [] => True end) ->
  parsePhotosXML (Some (text ++ following)) = parsePhotosXML (Some following).
Proof.
  intros Hno Hf. induction text as [|c text IH]; [reflexivity|].
  cbn [app]. rewrite parsePhotosXML_skip.
  - apply IH. intros (before & after & ->). apply Hno.
    exists (c :: before), after. reflexivity.
  - unfold matchURL.
    destruct (literal (js "<URL>") (c :: text ++ following)) as [r|] eqn:El;
      [|reflexivity].
    exfalso. apply Hno.
    apply (literal_straddle (c :: text) following r); [discriminate|exact Hf|exact El].
Qed.

(** Reading a document element by element: text without an opening tag is
    passed over, an element gives its URL. *)
Lemma parsePhotosXML_step (before url rest : jsstring) :
  ~ occurs_in (js "<URL>") before -> is_url url ->
  parsePhotosXML (Some (before ++ element url ++ rest))
  = url :: parsePhotosXML (Some rest).
Proof.
  intros Hb Hu. rewrite parsePhotosXML_inert; [|exact Hb|reflexivity].
  apply (parsePhotosXML_element url rest Hu).
Qed.

(** X16. Every [URL] element of a photos document is extracted, in document
    order and with its text as it stands, whatever surrounds the elements,
    as long as the surrounding text holds no opening [URL] tag of its own. *)
Theorem parsePhotosXML_document (items : list (jsstring * jsstring))
  (trailer : jsstring) :
  Forall (fun item => ~ occurs_in (js "<URL>") (fst item) /\ is_url (snd item)) items ->
  ~ occurs_in (js "<URL>") trailer ->
  parsePhotosXML (Some (document items trailer)) = map snd items.
Proof.
  intros Hitems Htrailer. revert Hitems.
  induction items as [|[before url] items IH]; intros Hitems; cbn [document map snd].
  - rewrite <- (app_nil_r trailer). now rewrite parsePhotosXML_inert.
  - inversion Hitems as [|? ? [Hb Hu] Hrest]; subst. cbn [fst snd] in Hb, Hu.
    rewrite (parsePhotosXML_step before url _ Hb Hu). now rewrite (IH Hrest).
Qed.

Lemma parsePhotosXML_document_witness :
  parsePhotosXML
    (Some (js "<PHOTOS><PHOTO><URL>https://a/1.jpg</URL></PHOTO><PHOTO><URL>https://a/2.jpg</URL></PHOTO></PHOTOS>"))
  = [js "https://a/1.jpg"; js "https://a/2.jpg"].
Proof.
  assert (Hinert : forall text : jsstring,
             existsb (fun c => c =? 85) text = false -> ~ occurs_in (js "<URL>") text).
  { intros text H (before & after & ->).
    assert (Ht : existsb (fun c => c =? 85) (before ++ js "<URL>" ++ after) = true).
    { apply existsb_exists. exists 85. split; [|reflexivity].
      apply in_or_app. right. right. left. reflexivity. }
    congruence. }
  assert (Hurl : forall url : jsstring,
             url <> [] -> existsb (fun c => c =? 60) url = false -> is_url url).
  { intros url Hne H. split; [exact Hne|]. intros Hin.
    assert (Ht : existsb (fun c => c =? 60) url = true).
    { apply existsb_exists. exists 60. split; [exact Hin|reflexivity]. }
    congruence. }
  apply (parsePhotosXML_document
           [(js "<PHOTOS><PHOTO>", js "https://a/1.jpg");
            (js "</PHOTO><PHOTO>", js "https://a/2.jpg")]
           (js "</PHOTO></PHOTOS>")).
  - repeat constructor; cbn [fst snd];
      first [apply Hinert; reflexivity | apply Hurl; [discriminate|reflexivity]].
  - apply Hinert. reflexivity.
Defined.

(** X17. Whatever the text, what is extracted are the texts of [URL]
    elements of it, in the order they stand there: the text is a document
    whose elements hold exactly the extracted URLs, each non-empty and
    without [<]. *)
Theorem parsePhotosXML_sound (xml : jsstring) :
  exists items trailer,
    xml = document items trailer
    /\ parsePhotosXML (Some xml) = map snd items
    /\ Forall (fun item => is_url (snd item)) items.
Proof.
  remember (List.length xml) as n eqn:Hn.
  assert (Hle : (List.length xml <= n)%nat) by lia. clear Hn.
  revert xml Hle. induction n as [|n IH]; intros xml Hle.
  { destruct xml; [|cbn [List.length] in Hle; lia].
    exists [], []. repeat split. constructor. }
  destruct xml as [|c rest].
  { exists [], []. repeat split. constructor. }
  cbn [List.length] in Hle.
  destruct (matchURL (c :: rest)) as [[group after]|] eqn:Em.
  - destruct (matchURL_inv _ _ _ Em) as [Es Hu].
    assert (Hlen : (List.length after <= n)%nat).
    { apply (f_equal (@List.length N)) in Es.
      rewrite length_app, element_length in Es. cbn [List.length] in Es. lia. }
    destruct (IH after Hlen) as (items & trailer & Hdoc & Hparse & Hall).
    exists (([], group) :: items), trailer. rewrite Es. split; [|split].
    + cbn [document app]. now rewrite <- Hdoc.
    + etransitivity; [apply (parsePhotosXML_element group after Hu)|].
      cbn [map snd]. f_equal. exact Hparse.
    + constructor; assumption.
  - assert (Hlen : (List.length rest <= n)%nat) by lia.
    destruct (IH rest Hlen) as (items & trailer & Hdoc & Hparse & Hall).
    assert (Hskip : parsePhotosXML (Some (c :: rest)) = map snd items).
    { etransitivity; [apply (parsePhotosXML_skip c rest Em)|exact Hparse]. }
    destruct items as [|[before url] items].
    + exists [], (c :: trailer). cbn [document] in *. subst rest.
      split; [reflexivity|]. split; [exact Hskip|constructor].
    + exists ((c :: before, url) :: items), trailer. cbn [document app] in *.
      subst rest. split; [reflexivity|]. split; [exact Hskip|].
      inversion Hall; subst. constructor; assumption.
Qed.


(* ================================================================== *)
(** * Property entities: what [transformPropertyRow] returns *)

Lemma cells_get (row : record) (k : jsstring) :
  obj_get (cells row) k = option_map JCell (obj_get row k).
Proof.
  unfold cells. induction row as [|[k' c] row IH]; cbn [map obj_get fst snd];
    [reflexivity|].
  destruct (jsstring_eqb k' k); [reflexivity|exact IH].
Qed.

Lemma cells_keys (row : record) : obj_keys (cells row) = obj_keys row.
Proof.
  unfold cells, obj_keys. rewrite map_map. apply map_ext. now intros [k c].
Qed.

(** The reshaped Property row, read by key. *)
Lemma reshaped_get (row : record) (name : jsstring) :
  NoDup (obj_keys row) ->
  obj_get (transformRow (cells row) (reverseFieldMap Property.fieldMap)) name
  = match column_of Property.fieldMap name with
    | Some column => option_map JCell (obj_get row column)
    | None => None
    end.
Proof.
  intros Hrow. destruct fieldMaps_bijective as (Hk & Hv & He & _).
  unfold transformRow.
  rewrite (transformRow_from (cells row) Property.fieldMap name Hk Hv He).
  - destruct (column_of Property.fieldMap name) as [column|]; [|reflexivity].
    rewrite cells_get. now destruct (obj_get row column).
  - now rewrite cells_keys.
Qed.

Lemma delete_get_same {V} (o : jsobject V) (k : jsstring) :
  obj_get (obj_delete o k) k = None.
Proof.
  unfold obj_delete. induction o as [|[k' v] o IH]; cbn [filter fst]; [reflexivity|].
  destruct (jsstring_eqb k' k) eqn:E; cbn [negb obj_get]; [exact IH|].
  now rewrite E.
Qed.

Lemma delete_get_other {V} (o : jsobject V) (k other : jsstring) :
  other <> k -> obj_get (obj_delete o k) other = obj_get o other.
Proof.
  intros Hne. unfold obj_delete.
  induction o as [|[k' v] o IH]; cbn [filter fst]; [reflexivity|].
  destruct (jsstring_eqb k' k) eqn:E; cbn [negb obj_get].
  - apply jsstring_eqb_eq in E. subst k'.
    destruct (jsstring_eqb k other) eqn:E'; [|exact IH].
    apply jsstring_eqb_eq in E'. congruence.
  - destruct (jsstring_eqb k' other); auto.
Qed.

Lemma mediaFrom_length (listingKey : json) (urls : list jsstring) :
  forall i, List.length (mediaFrom i listingKey urls) = List.length urls.
Proof.
  induction urls as [|url urls IH]; intros i; cbn [mediaFrom List.length];
    [reflexivity|]. now rewrite IH.
Qed.

Lemma mediaFrom_nth (listingKey : json) (urls : list jsstring) :
  forall (i : Z) (n : nat) (url : jsstring),
    nth_error urls n = Some url ->
    nth_error (mediaFrom i listingKey urls) n
    = Some (JObject [(js "MediaKey", JCell (CString (mediaKey url)));
                     (js "ResourceRecordKey", listingKey);
                     (js "MediaURL", JCell (CString url));
                     (js "Order", JCell (CNumber (i + Z.of_nat n + 1)))]).
Proof.
  induction urls as [|u urls IH]; intros i n url; [now destruct n|].
  destruct n as [|n]; cbn [nth_error mediaFrom].
  - intros [= ->]. now rewrite Z.add_0_r.
  - intros H. rewrite (IH (i + 1)%Z n url H).
    replace (i + Z.of_nat (S n) + 1)%Z with (i + 1 + Z.of_nat n + 1)%Z by lia.
    reflexivity.
Qed.

Lemma document_truthy (items : list (jsstring * jsstring)) (trailer : jsstring) :
  items <> [] -> truthy (document items trailer) = true.
Proof.
  destruct items as [|[before url] items]; [contradiction|]. intros _.
  cbn [document]. destruct before; reflexivity.
Qed.

Lemma names_differ (a b : string) :
  jsstring_eqb (js a) (js b) = false -> js a <> js b.
Proof.
  intros H E. rewrite E, jsstring_eqb_refl in H. discriminate.
Qed.

(** X18. A Property row with a string key and a photos document becomes an
    entity whose [ListingKey] is the encoded key, whose [Media] lists the
    document's [URL] elements in order (each with the first 16 hex digits of
    the SHA-256 of its URL as [MediaKey], the encoded key as
    [ResourceRecordKey] and its position counted from 1 as [Order]), and
    which has no [_PhotosXML]; every other RESO field holds the cell of its
    column (and the entity holds nothing else, but for a column that bears
    the name of a member of [Object.prototype], see [column_of]). *)
Theorem transformPropertyRow_photos (row : record) (key : jsstring)
  (items : list (jsstring * jsstring)) (trailer : jsstring) :
  NoDup (obj_keys row) ->
  obj_get row (js "IDCPROPERTYID") = Some (CString key) -> key <> [] ->
  obj_get row (js "PROPERTYPHOTOS") = Some (CString (document items trailer)) ->
  items <> [] ->
  Forall (fun item => ~ occurs_in (js "<URL>") (fst item) /\ is_url (snd item)) items ->
  ~ occurs_in (js "<URL>") trailer ->
  exists (e : entity) (digits : jsstring) (media : list json),
    transformPropertyRow row = Some e
    /\ encodeListingKey key = Some digits
    /\ obj_get e (js "ListingKey") = Some (JCell (CString digits))
    /\ obj_get e (js "_PhotosXML") = None
    /\ obj_get e (js "Media") = Some (JArray media)
    /\ List.length media = List.length items
    /\ (forall (n : nat) (before url : jsstring),
           nth_error items n = Some (before, url) ->
           nth_error media n
           = Some (JObject [(js "MediaKey", JCell (CString (mediaKey url)));
                            (js "ResourceRecordKey", JCell (CString digits));
                            (js "MediaURL", JCell (CString url));
                            (js "Order", JCell (CNumber (Z.of_nat n + 1)))]))
    /\ (forall name : jsstring,
           name <> js "ListingKey" -> name <> js "_PhotosXML" -> name <> js "Media" ->
           obj_get e name
           = match column_of Property.fieldMap name with
             | Some column => option_map JCell (obj_get row column)
             | None => None
             end).
Proof.
  intros Hrow Hkey Hne Hphotos Hitems Hall Htrailer.
  assert (Hkp : js "ListingKey" <> js "_PhotosXML") by (now apply names_differ).
  assert (Hkm : js "ListingKey" <> js "Media") by (now apply names_differ).
  assert (Hmp : js "Media" <> js "_PhotosXML") by (now apply names_differ).
  destruct (encodeListingKey_value key Hne) as [_ Henc].
  set (digits := N_toString (big_endian (firstn 8 (SHA256.digest (utf8_encode key)))
                               mod 2 ^ 63)) in Henc.
  unfold transformPropertyRow.
  set (result := transformRow (cells row) (reverseFieldMap Property.fieldMap)).
  assert (Hget : forall name,
             obj_get result name
             = match column_of Property.fieldMap name with
               | Some column => option_map JCell (obj_get row column)
               | None => None
               end) by (intros name; apply reshaped_get; exact Hrow).
  assert (Hk : obj_get result (js "ListingKey") = Some (JCell (CString key))).
  { rewrite Hget.
    change (column_of Property.fieldMap (js "ListingKey")) with (Some (js "IDCPROPERTYID")).
    cbv beta iota. now rewrite Hkey. }
  assert (Hp : obj_get result (js "_PhotosXML")
               = Some (JCell (CString (document items trailer)))).
  { rewrite Hget.
    change (column_of Property.fieldMap (js "_PhotosXML")) with (Some (js "PROPERTYPHOTOS")).
    cbv beta iota. now rewrite Hphotos. }
  unfold property at 1 2. rewrite Hk.
  cbn [json_truthy cell_truthy encodeListingKey_cell].
  assert (Htruthy : truthy key = true) by (destruct key; [contradiction|reflexivity]).
  rewrite Htruthy, Henc.
  set (result' := obj_set result (js "ListingKey") (JCell (CString digits))).
  assert (Hk' : obj_get result' (js "ListingKey") = Some (JCell (CString digits)))
    by apply get_set_same.
  assert (Hp' : obj_get result' (js "_PhotosXML")
                = Some (JCell (CString (document items trailer)))).
  { unfold result'. now rewrite (get_set_other _ _ _ _ Hkp). }
  unfold property. rewrite Hp', Hk'. cbn [json_truthy cell_truthy cell_toString].
  rewrite (document_truthy items trailer Hitems).
  assert (Hparse : parsePhotosXML (Some (document items trailer)) = map snd items).
  { clear - Hall Htrailer.
    induction Hall as [|[before url] rest [Hb Hu] _ IH]; cbn [document map snd fst] in *.
    - rewrite <- (app_nil_r trailer). now rewrite parsePhotosXML_inert.
    - rewrite (parsePhotosXML_step before url _ Hb Hu). now rewrite IH. }
  rewrite Hparse.
  set (media := mediaFrom 0 (JCell (CString digits)) (map snd items)).
  exists (obj_delete (obj_set result' (js "Media") (JArray media)) (js "_PhotosXML")),
    digits, media.
  split; [reflexivity|]. split; [reflexivity|].
  split; [|split; [|split; [|split; [|split]]]].
  - rewrite (delete_get_other _ _ _ Hkp), (get_set_other _ _ _ _ (not_eq_sym Hkm)).
    exact Hk'.
  - apply delete_get_same.
  - rewrite (delete_get_other _ _ _ Hmp). apply get_set_same.
  - unfold media. now rewrite mediaFrom_length, length_map.
  - intros n before url Hn. unfold media.
    rewrite (mediaFrom_nth _ _ 0 n url); [reflexivity|].
    rewrite nth_error_map, Hn. reflexivity.
  - intros name Hn1 Hn2 Hn3.
    rewrite (delete_get_other _ _ _ Hn2), (get_set_other _ _ _ _ (not_eq_sym Hn3)).
    unfold result'. rewrite (get_set_other _ _ _ _ (not_eq_sym Hn1)). apply Hget.
Qed.


Lemma transformPropertyRow_photos_witness :
  let row : record :=
    [(js "IDCPROPERTYID", CString (js "P1")); (js "CITY", CString (js "Miami"));
     (js "PROPERTYPHOTOS", CString (js "<P><URL>https://a/1.jpg</URL></P>"))] in
  exists e : entity,
    transformPropertyRow row = Some e
    /\ obj_get e (js "_PhotosXML") = None
    /\ obj_get e (js "City") = Some (JCell (CString (js "Miami"))).
Proof.
  intros row.
  assert (Hinert : forall text : jsstring,
             existsb (fun c => c =? 85) text = false -> ~ occurs_in (js "<URL>") text).
  { intros text H (before & after & ->).
    assert (Ht : existsb (fun c => c =? 85) (before ++ js "<URL>" ++ after) = true).
    { apply existsb_exists. exists 85. split; [|reflexivity].
      apply in_or_app. right. right. left. reflexivity. }
    congruence. }
  assert (Hurl : is_url (js "https://a/1.jpg")).
  { split; [discriminate|]. intros Hin.
    assert (Ht : existsb (fun c => c =? 60) (js "https://a/1.jpg") = true).
    { apply existsb_exists. exists 60. split; [exact Hin|reflexivity]. }
    discriminate Ht. }
  destruct (transformPropertyRow_photos row (js "P1")
              [(js "<P>", js "https://a/1.jpg")] (js "</P>"))
    as (e & digits & media & He & _ & _ & Hphotos & _ & _ & _ & Hother).
  - apply distinctb_NoDup. reflexivity.
  - reflexivity.
  - discriminate.
  - reflexivity.
  - discriminate.
  - repeat constructor; [apply Hinert; reflexivity|discriminate|apply Hurl].
  - apply Hinert. reflexivity.
  - exists e. split; [exact He|]. split; [exact Hphotos|].
    rewrite (Hother (js "City")).
    + reflexivity.
    + apply (names_differ "City" "ListingKey"). reflexivity.
    + apply (names_differ "City" "_PhotosXML"). reflexivity.
    + apply (names_differ "City" "Media"). reflexivity.
Defined.

(** What the first step of [transformPropertyRow] leaves: a result that
    reads as the reshaped row under every name but [ListingKey]. *)
Lemma transformPropertyRow_inv (row : record) (e : entity) :
  NoDup (obj_keys row) ->
  transformPropertyRow row = Some e ->
  exists result : entity,
    (forall name, name <> js "ListingKey" ->
       obj_get result name
       = match column_of Property.fieldMap name with
         | Some column => option_map JCell (obj_get row column)
         | None => None
         end)
    /\ e = (if json_truthy (property result (js "_PhotosXML")) then
              obj_delete
                (obj_set result (js "Media")
                   (JArray
                      (mediaFrom 0 (property result (js "ListingKey"))
                         (parsePhotosXML
                            (Some
                               match property result (js "_PhotosXML") with
                               | JCell c => cell_toString c
                               | JArray _ | JObject _ => []
                               end)))))
                (js "_PhotosXML")
            else obj_set result (js "Media") (JArray [])).
Proof.
  intros Hrow. unfold transformPropertyRow.
  set (result := transformRow (cells row) (reverseFieldMap Property.fieldMap)).
  assert (Hget : forall name,
             obj_get result name
             = match column_of Property.fieldMap name with
               | Some column => option_map JCell (obj_get row column)
               | None => None
               end) by (intros name; apply reshaped_get; exact Hrow).
  destruct (json_truthy (property result (js "ListingKey"))).
  - destruct (property result (js "ListingKey")) as [key| |]; try discriminate.
    destruct (encodeListingKey_cell key) as [listingKey|]; [|discriminate].
    set (v := JCell listingKey).
    intros H. exists (obj_set result (js "ListingKey") v). split.
    + intros name Hname. rewrite (get_set_other _ _ _ _ (not_eq_sym Hname)). apply Hget.
    + destruct (json_truthy (property (obj_set result (js "ListingKey") v)
                               (js "_PhotosXML"))); now injection H.
  - intros H. exists result. split; [intros name _; apply Hget|].
    destruct (json_truthy (property result (js "_PhotosXML"))); now injection H.
Qed.

(** X19. Every entity has a [Media] array.  The private [_PhotosXML] field
    is removed only when the photos cell is truthy: a row whose photos cell
    is [null] or the empty string yields an entity that still carries
    [_PhotosXML] with that cell, and an empty [Media]; a row without the
    photos column yields no [_PhotosXML]. *)
Theorem transformPropertyRow_photos_field (row : record) (e : entity) :
  NoDup (obj_keys row) ->
  transformPropertyRow row = Some e ->
  obj_get e (js "_PhotosXML")
  = match obj_get row (js "PROPERTYPHOTOS") with
    | Some c => if cell_truthy c then None else Some (JCell c)
    | None => None
    end
  /\ exists media : list json,
       obj_get e (js "Media") = Some (JArray media)
       /\ (match obj_get row (js "PROPERTYPHOTOS") with
           | Some c => cell_truthy c = false
           | None => True
           end -> media = []).
Proof.
  intros Hrow He.
  assert (Hmp : js "Media" <> js "_PhotosXML") by (now apply names_differ).
  assert (Hpk : js "_PhotosXML" <> js "ListingKey") by (now apply names_differ).
  destruct (transformPropertyRow_inv row e Hrow He) as (result & Hget & He').
  assert (Hp : obj_get result (js "_PhotosXML")
               = option_map JCell (obj_get row (js "PROPERTYPHOTOS"))).
  { rewrite (Hget _ Hpk).
    change (column_of Property.fieldMap (js "_PhotosXML")) with (Some (js "PROPERTYPHOTOS")).
    reflexivity. }
  assert (Ht : json_truthy (property result (js "_PhotosXML"))
               = match obj_get row (js "PROPERTYPHOTOS") with
                 | Some c => cell_truthy c
                 | None => false
                 end).
  { unfold property. rewrite Hp. now destruct (obj_get row (js "PROPERTYPHOTOS")). }
  rewrite Ht in He'. clear Ht.
  destruct (obj_get row (js "PROPERTYPHOTOS")) as [c|]; cbn [option_map] in Hp.
  - destruct (cell_truthy c) eqn:Ec; subst e.
    + split; [apply delete_get_same|].
      eexists. split.
      * rewrite (delete_get_other _ _ _ Hmp). apply get_set_same.
      * discriminate.
    + split.
      * rewrite (get_set_other _ _ _ _ Hmp). exact Hp.
      * exists []. split; [apply get_set_same|reflexivity].
  - subst e. split.
    + rewrite (get_set_other _ _ _ _ Hmp). exact Hp.
    + exists []. split; [apply get_set_same|reflexivity].
Qed.

Lemma transformPropertyRow_photos_field_witness :
  exists e : entity,
    transformPropertyRow [(js "CITY", CString (js "Miami")); (js "PROPERTYPHOTOS", CNull)]
    = Some e
    /\ obj_get e (js "_PhotosXML") = Some (JCell CNull).
Proof.
  eexists. split; [reflexivity|].
  apply (transformPropertyRow_photos_field
           [(js "CITY", CString (js "Miami")); (js "PROPERTYPHOTOS", CNull)]).
  - apply distinctb_NoDup. reflexivity.
  - reflexivity.
Defined.

(** X20. Reshaping a Property row fails exactly when its key cell is truthy
    and neither a string nor a [Buffer] (a non-zero number, [true], a
    date): hashing such a key is a type error.  Rows with a string key, and
    rows with no key, an empty or a [null] key, always yield an entity; so
    do rows with a [Buffer] key, whose [ListingKey] is the hash of the
    bytes as they are. *)
Theorem transformPropertyRow_key_type (row : record) :
  NoDup (obj_keys row) ->
  (transformPropertyRow row = None
   <-> exists c : cell,
         obj_get row (js "IDCPROPERTYID") = Some c
         /\ cell_truthy c = true
         /\ (forall key, c <> CString key)
         /\ (forall bytes, c <> CBuffer bytes))
  /\ (forall bytes,
        obj_get row (js "IDCPROPERTYID") = Some (CBuffer bytes) ->
        exists e : entity,
          transformPropertyRow row = Some e
          /\ obj_get e (js "ListingKey")
             = Some (JCell (CString (N_toString
                                       (big_endian (firstn 8 (SHA256.digest bytes))
                                        mod 2 ^ 63))))).
Proof.
  intros Hrow.
  assert (Hkp : js "ListingKey" <> js "_PhotosXML") by (now apply names_differ).
  assert (Hkm : js "ListingKey" <> js "Media") by (now apply names_differ).
  unfold transformPropertyRow.
  set (result := transformRow (cells row) (reverseFieldMap Property.fieldMap)).
  assert (Hk : obj_get result (js "ListingKey")
               = option_map JCell (obj_get row (js "IDCPROPERTYID"))).
  { unfold result. rewrite (reshaped_get row _ Hrow).
    change (column_of Property.fieldMap (js "ListingKey")) with (Some (js "IDCPROPERTYID")).
    reflexivity. }
  split.
  - unfold property at 1 2. rewrite Hk.
    destruct (obj_get row (js "IDCPROPERTYID")) as [c|];
      cbn [option_map json_truthy cell_truthy].
    + destruct (cell_truthy c) eqn:Ec.
      * destruct (encodeListingKey_cell c) as [listingKey|] eqn:Eenc.
        -- split.
           ++ match goal with
              | |- context [if ?b then _ else _] => destruct b; discriminate
              end.
           ++ intros (c' & [= <-] & _ & Hs & Hb).
              destruct c as [| |b|n|key|bytes|printed]; try discriminate Eenc.
              ** now destruct (Hs key).
              ** now destruct (Hb bytes).
        -- split; [|reflexivity]. intros _. exists c.
           split; [reflexivity|]. split; [exact Ec|].
           split; intros x ->; discriminate Eenc.
      * split.
        -- match goal with
           | |- context [if ?b then _ else _] => destruct b; discriminate
           end.
        -- intros (c' & [= <-] & Hc & _). congruence.
    + split.
      * match goal with
        | |- context [if ?b then _ else _] => destruct b; discriminate
        end.
      * intros (c & Hc & _). discriminate.
  - intros bytes Hbytes. unfold property at 1 2. rewrite Hk, Hbytes.
    cbn [option_map json_truthy cell_truthy encodeListingKey_cell].
    destruct (digest_shape bytes)
      as (b0 & b1 & b2 & b3 & b4 & b5 & b6 & b7 & rest & -> & _).
    rewrite readBigUInt64BE_big_endian, mask63. cbn [firstn].
    match goal with
    | |- context [obj_set result (js "ListingKey") ?v] =>
        set (result' := obj_set result (js "ListingKey") v);
        assert (Hk' : obj_get result' (js "ListingKey") = Some v)
          by apply get_set_same
    end.
    destruct (json_truthy (property result' (js "_PhotosXML")));
      eexists; (split; [reflexivity|]).
    + rewrite (delete_get_other _ _ _ Hkp), (get_set_other _ _ _ _ (not_eq_sym Hkm)).
      exact Hk'.
    + rewrite (get_set_other _ _ _ _ (not_eq_sym Hkm)). exact Hk'.
Qed.

Lemma transformPropertyRow_key_type_witness :
  transformPropertyRow [(js "IDCPROPERTYID", CNumber 42)] = None
  /\ exists e : entity,
       transformPropertyRow [(js "IDCPROPERTYID", CBuffer [80; 49])] = Some e
       /\ obj_get e (js "ListingKey")
          = Some (JCell (CString (N_toString
                                    (big_endian (firstn 8 (SHA256.digest [80; 49]))
                                     mod 2 ^ 63)))).
Proof.
  split.
  - apply (transformPropertyRow_key_type [(js "IDCPROPERTYID", CNumber 42)]).
    + apply distinctb_NoDup. reflexivity.
    + exists (CNumber 42). split; [reflexivity|]. split; [reflexivity|].
      split; discriminate.
  - apply (transformPropertyRow_key_type [(js "IDCPROPERTYID", CBuffer [80; 49])]).
    + apply distinctb_NoDup. reflexivity.
    + reflexivity.
Defined.


(* ================================================================== *)
(** * Expansions: one statement for all properties *)

Lemma cell_eqb_eq (a b : cell) : cell_eqb a b = true -> a = b.
Proof.
  destruct a, b; cbn [cell_eqb]; try discriminate; try reflexivity; intros H.
  - apply Bool.eqb_prop in H. now subst.
  - apply Z.eqb_eq in H. now subst.
  - apply jsstring_eqb_eq in H. now subst.
Qed.

Lemma sameValueZero_eq (a b : json) : sameValueZero a b = true -> a = b.
Proof.
  destruct a, b; cbn [sameValueZero]; try discriminate.
  intros H. apply cell_eqb_eq in H. now subst.
Qed.

Lemma sameValueZero_sym (a b : json) : sameValueZero a b = sameValueZero b a.
Proof.
  destruct (sameValueZero a b) eqn:E.
  - pose proof (sameValueZero_eq a b E) as Hab. subst b. now rewrite E.
  - destruct (sameValueZero b a) eqn:E'; [|reflexivity].
    pose proof (sameValueZero_eq b a E') as Hab. subst b. congruence.
Qed.

Lemma FOP_snoc {A} (R : A -> A -> Prop) (l : list A) (x : A) :
  ForallOrdPairs R l -> Forall (fun a => R a x) l -> ForallOrdPairs R (l ++ [x]).
Proof.
  induction 1 as [|a l Ha Hl IH]; intros Hx; cbn [app].
  - constructor; constructor.
  - inversion Hx; subst. constructor; [|auto].
    apply Forall_app. split; [assumption|]. constructor; [assumption|constructor].
Qed.

(** A [Set] built from a list holds the members of the list and nothing
    else, no value twice. *)
Lemma Set_of_spec (values : list json) :
  (forall k, In k values <-> In k (Set_of values))
  /\ ForallOrdPairs (fun a b => sameValueZero a b = false) (Set_of values).
Proof.
  unfold Set_of.
  enough (Hgen : forall acc,
             ForallOrdPairs (fun a b => sameValueZero a b = false) acc ->
             (forall k, In k acc \/ In k values <-> In k (fold_left Set_add values acc))
             /\ ForallOrdPairs (fun a b => sameValueZero a b = false)
                  (fold_left Set_add values acc)).
  { destruct (Hgen [] (FOP_nil _)) as [Hin Hfop]. split; [|exact Hfop].
    intros k. rewrite <- Hin. cbn [In]. tauto. }
  induction values as [|v values IH]; intros acc Hacc; cbn [fold_left].
  - split; [|exact Hacc]. intros k. cbn [In]. tauto.
  - unfold Set_add at 2 4. destruct (existsb (sameValueZero v) acc) eqn:Ev.
    + destruct (IH acc Hacc) as [Hin Hfop]. split; [|exact Hfop].
      intros k. rewrite <- Hin. cbn [In]. split; [|tauto].
      intros [H|[->|H]]; auto.
      apply existsb_exists in Ev as (a & Ha & Hav).
      apply sameValueZero_eq in Hav. subst a. auto.
    + assert (Hacc' : ForallOrdPairs (fun a b => sameValueZero a b = false) (acc ++ [v])).
      { apply FOP_snoc; [exact Hacc|]. apply Forall_forall. intros a Ha.
        rewrite sameValueZero_sym.
        destruct (sameValueZero v a) eqn:E; [|reflexivity].
        assert (Ht : existsb (sameValueZero v) acc = true)
          by (apply existsb_exists; eauto).
        congruence. }
      destruct (IH (acc ++ [v]) Hacc') as [Hin Hfop]. split; [|exact Hfop].
      intros k. rewrite <- Hin, in_app_iff. cbn [In]. tauto.
Qed.

Lemma mapi_keys_values {A} (name : N -> jsstring) (l : list A) :
  forall start,
    obj_keys (mapi (fun x i => (name i, x)) start l) = mapi (fun _ i => name i) start l
    /\ obj_values (mapi (fun x i => (name i, x)) start l) = l.
Proof.
  unfold obj_keys, obj_values.
  induction l as [|x l IH]; intros start; cbn [mapi map fst snd]; [split; reflexivity|].
  destruct (IH (start + 1)) as [-> ->]. split; reflexivity.
Qed.

Lemma map_mapi {A B C} (g : B -> C) (f : A -> N -> B) (l : list A) :
  forall start, map g (mapi f start l) = mapi (fun x i => g (f x i)) start l.
Proof.
  induction l as [|x l IH]; intros start; cbn [mapi map]; [reflexivity|].
  now rewrite IH.
Qed.

(** Binding each key under its own numbered name is the list of the pairs:
    no name is written twice. *)
Lemma bound_numbered {A} (prefix : jsstring) (keys : list A) :
  forall (start : N) (acc : jsobject A),
    (forall name, In name (obj_keys acc) ->
       exists i, i < start /\ name = prefix ++ N_toString i) ->
    fold_left (fun ps entry => obj_set ps (fst entry) (snd entry))
      (mapi (fun key i => (prefix ++ N_toString i, key)) start keys) acc
    = acc ++ mapi (fun key i => (prefix ++ N_toString i, key)) start keys.
Proof.
  induction keys as [|key keys IH]; intros start acc Hacc; cbn [mapi fold_left fst snd].
  - now rewrite app_nil_r.
  - rewrite obj_set_fresh.
    + rewrite IH; [now rewrite <- app_assoc|].
      intros name. unfold obj_keys. rewrite map_app, in_app_iff. cbn [map fst In].
      intros [H|[<-|[]]].
      * destruct (Hacc name H) as (i & Hi & ->). exists i. split; [lia|reflexivity].
      * exists start. split; [lia|reflexivity].
    + intros H. destruct (Hacc _ H) as (i & Hi & E).
      apply app_inv_head, N_toString_inj in E. lia.
Qed.

Lemma filter_filter {A} (f g : A -> bool) (l : list A) :
  filter f (filter g l) = filter (fun x => g x && f x) l.
Proof.
  induction l as [|x l IH]; cbn [filter]; [reflexivity|].
  destruct (g x); cbn [filter andb]; [|exact IH].
  destruct (f x); now rewrite IH.
Qed.

Lemma filter_all {A} (f : A -> bool) (l : list A) :
  (forall x, In x l -> f x = true) -> filter f l = l.
Proof.
  induction l as [|x l IH]; cbn [filter]; [reflexivity|]. intros H.
  rewrite (H x (or_introl eq_refl)), IH; [reflexivity|]. intros y Hy. apply H. now right.
Qed.

(** The members of a [Set] built from a list, in insertion order, are the
    first occurrences of the values of the list. *)
Lemma Set_of_first (values : list json) : Set_of values = first_occurrences values.
Proof.
  unfold Set_of.
  enough (Hgen : forall acc,
             fold_left Set_add values acc
             = acc ++ filter (fun w => negb (existsb (sameValueZero w) acc))
                        (first_occurrences values)).
  { rewrite (Hgen []). cbn [app existsb negb]. apply filter_all. reflexivity. }
  induction values as [|v values IH]; intros acc;
    cbn [fold_left first_occurrences filter].
  - now rewrite app_nil_r.
  - rewrite IH. unfold Set_add. destruct (existsb (sameValueZero v) acc) eqn:Ev;
      cbn [negb].
    + f_equal. rewrite filter_filter. apply filter_ext_in. intros w _.
      destruct (existsb (sameValueZero w) acc) eqn:Ew;
        [now rewrite andb_false_r|]. rewrite andb_true_r.
      apply existsb_exists in Ev as (a & Ha & Hva).
      apply sameValueZero_eq in Hva. subst a.
      destruct (sameValueZero v w) eqn:E; [|reflexivity].
      rewrite sameValueZero_sym in E.
      assert (Ht : existsb (sameValueZero w) acc = true)
        by (apply existsb_exists; eauto).
      congruence.
    + rewrite <- app_assoc. cbn [app]. do 2 f_equal.
      rewrite filter_filter. apply filter_ext. intros w.
      rewrite existsb_app. cbn [existsb]. rewrite orb_false_r, negb_orb.
      rewrite (sameValueZero_sym w v). apply andb_comm.
Qed.

Lemma mapi_combine {A} (name : N -> jsstring) (l : list A) :
  forall start,
    mapi (fun x i => (name i, x)) start l
    = combine (mapi (fun _ i => name i) start l) l.
Proof.
  induction l as [|x l IH]; intros start; cbn [mapi combine]; [reflexivity|].
  now rewrite IH.
Qed.

(** X21. An expansion issues no statement exactly when no property holds a
    truthy key, and otherwise one statement for all the properties it is
    given.  The statement binds the distinct keys wanted, in order of first
    occurrence, under the names [prefix0], [prefix1], ... in this order:
    every key wanted is bound, exactly once, and nothing else is; the text
    holds the parameter names only, never a key. *)
Theorem expand_one_statement (keyName prefix : string)
  (relatedFieldMap : jsobject jsstring) (relatedTable keyColumn relatedKey target : string)
  (db : database) (properties : list entity) :
  let calls := snd (expand keyName prefix relatedFieldMap relatedTable keyColumn
                      relatedKey target db properties) in
  let keys := first_occurrences (wanted keyName properties) in
  let names := mapi (fun _ i => js prefix ++ N_toString i) 0 keys in
  calls = match keys with
          | [] => []
          | _ :: _ =>
              [WithCells (expansion_text relatedFieldMap relatedTable keyColumn names)
                 (combine names keys)]
          end
  /\ (calls = [] <-> wanted keyName properties = [])
  /\ (forall k, In k (wanted keyName properties) <-> In k keys)
  /\ ForallOrdPairs (fun a b => sameValueZero a b = false) keys.
Proof.
  intros calls keys names.
  assert (Hcalls : calls = match keys with
                           | [] => []
                           | _ :: _ =>
                               [WithCells
                                  (expansion_text relatedFieldMap relatedTable
                                     keyColumn names)
                                  (combine names keys)]
                           end).
  { subst calls names keys. unfold expand.
    destruct properties as [|p properties]; [reflexivity|].
    fold (wanted keyName (p :: properties)). rewrite Set_of_first.
    destruct (first_occurrences (wanted keyName (p :: properties))) as [|k keys];
      [reflexivity|].
    set (all := k :: keys).
    rewrite (bound_numbered (js prefix) all 0 []); [|intros name []].
    cbn [app].
    pose proof (mapi_combine (fun i => js prefix ++ N_toString i) all 0) as Hpairs.
    cbv beta in Hpairs. unfold jsstring in *. rewrite Hpairs.
    assert (Htext : js "SELECT " ++ join (js ", ") (obj_values relatedFieldMap)
                    ++ 10 :: js "     FROM " ++ js relatedTable
                    ++ 10 :: js "     WHERE " ++ js keyColumn ++ js " IN ("
                    ++ join (js ", ")
                         (mapi (fun _ i => js "@" ++ js prefix ++ N_toString i) 0 all)
                    ++ js ")"
                    = expansion_text relatedFieldMap relatedTable keyColumn
                        (mapi (fun _ i => js prefix ++ N_toString i) 0 all)).
    { unfold expansion_text. now rewrite map_mapi. }
    unfold jsstring in *. rewrite Htext.
    match goal with
    | |- context [withCells db ?text ?bound] => destruct (withCells db text bound)
    end; reflexivity. }
  split; [exact Hcalls|]. split.
  - rewrite Hcalls. subst keys.
    destruct (wanted keyName properties) as [|w ws]; cbn [first_occurrences];
      split; try reflexivity; discriminate.
  - subst keys. rewrite <- Set_of_first. apply Set_of_spec.
Qed.

Lemma expand_one_statement_witness :
  let db := Database (fun _ _ => Fulfilled []) (fun _ _ => Fulfilled [])
              (fun _ _ => Fulfilled []) false in
  let properties : list entity :=
    [[(js "ListAgentKey", JCell (CNumber 7))]; [(js "ListAgentKey", JCell CNull)];
     [(js "ListAgentKey", JCell (CNumber 3))]; [(js "ListAgentKey", JCell (CNumber 7))]] in
  snd (expandListAgent db properties)
  = [WithCells
       (js "SELECT AGENTKEY, AGYAGENTID, GIVENNAME, SURNAME, EMAILADDRESS1, MOBILEPHONE, BUSINESSPHONE"
        ++ 10 :: js "     FROM idc_agy.AGY_AGENT"
        ++ 10 :: js "     WHERE AGENTKEY IN (@agent0, @agent1)")
       [(js "agent0", JCell (CNumber 7)); (js "agent1", JCell (CNumber 3))]].
Proof.
  intros db properties.
  destruct (expand_one_statement "ListAgentKey" "agent" memberFieldMap
              "idc_agy.AGY_AGENT" "AGENTKEY" "MemberKey" "ListAgent" db properties)
    as (Hcalls & _).
  exact Hcalls.
Defined.


Lemma Map_get_set {V} (m : list (json * V)) (k q : json) (v : V) :
  Map_get (Map_set m k v) q = if sameValueZero k q then Some v else Map_get m q.
Proof.
  induction m as [|[k' v'] m IH]; cbn [Map_set Map_get]; [reflexivity|].
  destruct (sameValueZero k' k) eqn:Ek; cbn [Map_get].
  - pose proof (sameValueZero_eq k' k Ek) as E. subst k'.
    now destruct (sameValueZero k q).
  - rewrite IH. destruct (sameValueZero k' q) eqn:Eq; [|reflexivity].
    destruct (sameValueZero k q) eqn:Ekq; [|reflexivity].
    pose proof (sameValueZero_eq k' q Eq) as E1.
    pose proof (sameValueZero_eq k q Ekq) as E2. subst. congruence.
Qed.

Lemma Map_get_fold {A V} (keyOf : A -> json) (valueOf : A -> V) (q : json)
  (rows : list A) :
  forall m,
    Map_get (fold_left (fun m row => Map_set m (keyOf row) (valueOf row)) rows m) q
    = match last_match (fun row => sameValueZero (keyOf row) q) rows with
      | Some row => Some (valueOf row)
      | None => Map_get m q
      end.
Proof.
  induction rows as [|row rows IH]; intros m; cbn [fold_left last_match]; [reflexivity|].
  rewrite IH.
  destruct (last_match (fun row0 => sameValueZero (keyOf row0) q) rows); [reflexivity|].
  rewrite Map_get_set. now destruct (sameValueZero (keyOf row) q).
Qed.

(** X22. An expansion that succeeds returns the properties it was given, in
    their order, each one either as it was or with the related entity
    written under the target name: the reshaped last row of the answer whose
    key is the property's truthy key.  A property without a truthy key, or
    whose key no row of the answer has, is returned unchanged. *)
Theorem expand_attaches (keyName prefix : string)
  (relatedFieldMap : jsobject jsstring) (relatedTable keyColumn relatedKey target : string)
  (db : database) (properties out : list entity) (calls : list call) :
  expand keyName prefix relatedFieldMap relatedTable keyColumn relatedKey target db
    properties = (Fulfilled out, calls) ->
  exists recordset : list record,
    match calls with
    | [] => recordset = []
    | [WithCells text bound] => withCells db text bound = Fulfilled recordset
    | _ => False
    end
    /\ out = map (attach relatedFieldMap keyName relatedKey target recordset) properties.
Proof.
  unfold expand.
  assert (Hnone : properties
                  = map (attach relatedFieldMap keyName relatedKey target []) properties).
  { induction properties as [|p ps IH]; [reflexivity|]. cbn [map]. now rewrite <- IH. }
  destruct properties as [|p properties].
  { intros [= <- <-]. exists []. split; [reflexivity|exact Hnone]. }
  destruct (Set_of _) as [|k keys].
  { intros [= <- <-]. exists []. split; [reflexivity|exact Hnone]. }
  match goal with
  | |- context [withCells db ?text ?bound] =>
      destruct (withCells db text bound) as [recordset|err] eqn:Er
  end; [|discriminate].
  intros [= <- <-]. exists recordset. split; [exact Er|].
  match goal with
  | |- _ :: map ?F properties = _ =>
      change (map F (p :: properties)
              = map (attach relatedFieldMap keyName relatedKey target recordset)
                  (p :: properties))
  end.
  apply map_ext. intros q. unfold attach.
  rewrite (Map_get_fold
             (fun row => property (transformRow (cells row) (reverseFieldMap relatedFieldMap))
                           (js relatedKey))
             (fun row => transformRow (cells row) (reverseFieldMap relatedFieldMap))).
  cbn [Map_get].
  destruct (json_truthy (property q (js keyName)));
    destruct (last_match _ recordset); reflexivity.
Qed.

Lemma expand_attaches_witness :
  let db :=
    Database (fun _ _ => Fulfilled []) (fun _ _ => Fulfilled [])
      (fun _ _ => Fulfilled [[(js "AGENTKEY", CNumber 7);
                              (js "GIVENNAME", CString (js "Ann"))]])
      false in
  let p : entity := [(js "ListAgentKey", JCell (CNumber 7))] in
  exists recordset : list record,
    withCells db
      (expansion_text memberFieldMap "idc_agy.AGY_AGENT" "AGENTKEY" [js "agent0"])
      [(js "agent0", JCell (CNumber 7))] = Fulfilled recordset
    /\ [[(js "ListAgentKey", JCell (CNumber 7));
         (js "ListAgent",
          JObject [(js "MemberKey", JCell (CNumber 7));
                   (js "MemberFirstName", JCell (CString (js "Ann")))])]]
       = map (attach memberFieldMap "ListAgentKey" "MemberKey" "ListAgent" recordset) [p].
Proof.
  intros db p.
  apply (expand_attaches "ListAgentKey" "agent" memberFieldMap "idc_agy.AGY_AGENT"
           "AGENTKEY" "MemberKey" "ListAgent" db [p] _
           [WithCells
              (expansion_text memberFieldMap "idc_agy.AGY_AGENT" "AGENTKEY" [js "agent0"])
              [(js "agent0", JCell (CNumber 7))]]).
  vm_compute. reflexivity.
Defined.


(* ================================================================== *)
(** * Collection responses *)

Lemma runBoth_count (db : database) (p : plan) (recordset : list record)
  (countResult : option (list Z)) (calls : list call) :
  runBoth db p = (Fulfilled (recordset, countResult), calls) ->
  select db (dataQuery p) (plan_params p) = Fulfilled recordset
  /\ match countQuery p with
     | None => countResult = None
     | Some c =>
         exists totals,
           countResult = Some totals /\ count db c (plan_params p) = Fulfilled totals
     end.
Proof.
  unfold runBoth. destruct (countQuery p) as [c|].
  - destruct (select db (dataQuery p) (plan_params p)) as [rows|e];
      destruct (count db c (plan_params p)) as [totals|e']; try discriminate.
    intros [= <- <- _]. split; [reflexivity|]. exists totals. split; reflexivity.
  - destruct (select db (dataQuery p) (plan_params p)) as [rows|e]; [|discriminate].
    intros [= <- <- _]. split; reflexivity.
Qed.

(** X23. A Property page carries [@odata.count] and [@odata.nextLink] only
    when [$count] is the string [true]: the count is then the first total
    the count statement returned, and the next link, the one the plan's
    closure builds, is there exactly when the sum [skip + top] as the code
    computes it (a double, the sum itself below [2^53]) is below the total;
    it is then the handler's URL followed by [$top], that sum as [$skip] and
    the options the client supplied.  Without [$count=true] a page never
    has a next link, however many rows remain. *)
Theorem property_list_links (db : database) (host : jsstring) (q : query_options)
  (status : N) (body : entity) (calls : list call) :
  property_list db host q = (Json status body, calls) ->
  status = 200
  /\ if query_count q then
       exists (p : plan) (countText : jsstring) (total : Z) (others : list Z),
         buildQuery (Options Property.TABLE Property.fieldMap q Property.KEY_FIELD
                       None (Some (host ++ js "/Property")) None) = Ok p
         /\ countQuery p = Some countText
         /\ count db countText (plan_params p) = Fulfilled (total :: others)
         /\ obj_get body (js "@odata.count") = Some (JCell (CNumber total))
         /\ obj_get body (js "@odata.nextLink")
            = option_map (fun link => JCell (CString link))
                (nextLink (host ++ js "/Property") (query_top q) (query_skip q)
                   q total)
         /\ (obj_get body (js "@odata.nextLink") <> None
             <-> (roundDouble (query_skip q + query_top q) < total)%Z)
         /\ ((query_skip q + query_top q < 2 ^ 53)%Z ->
             (obj_get body (js "@odata.nextLink") <> None
              <-> (query_skip q + query_top q < total)%Z))
         /\ ((roundDouble (query_skip q + query_top q) < total)%Z ->
             obj_get body (js "@odata.nextLink")
             = Some (JCell (CString
                       (host ++ js "/Property?%24top=" ++ Z_toString (query_top q)
                        ++ js "&%24skip="
                        ++ urlencode (Number_toString
                                        (roundDouble (query_skip q + query_top q)))
                        ++ carried "select" (q_select q)
                        ++ carried "filter" (q_filter q)
                        ++ carried "orderby" (q_orderby q)
                        ++ carried "count" (q_count q)))))
     else
       obj_get body (js "@odata.count") = None
       /\ obj_get body (js "@odata.nextLink") = None.
Proof.
  unfold property_list.
  destruct (parseExpand (q_expand q) Property.ALLOWED_EXPANSIONS) as [expansions|];
    [|discriminate].
  destruct (buildQuery _) as [p|] eqn:Ep; [|discriminate].
  destruct (runBoth db p) as [[[recordset countResult]|err] issued] eqn:Er; [|discriminate].
  destruct (traverse transformPropertyRow recordset) as [value|]; [|discriminate].
  destruct (if includes expansions "ListAgent" then expandListAgent db value
            else (Fulfilled value, [])) as [[value1|e1] agentCalls]; [|discriminate].
  destruct (if includes expansions "ListOffice" then expandListOffice db value1
            else (Fulfilled value1, [])) as [[value2|e2] officeCalls]; [|discriminate].
  destruct (runBoth_count db p recordset countResult issued Er) as [_ Hcount].
  destruct (buildQuery_inv _ _ Ep)
    as (sf & wc & ob & _ & _ & _ & Htop & Hskip & _ & Hcq & Hnl).
  cbn [query baseUrl table truthy_opt template] in Htop, Hskip, Hcq, Hnl.
  assert (Hhost : truthy (host ++ js "/Property") = true) by (destruct host; reflexivity).
  rewrite Hhost in Hnl. rewrite Hcq in Hcount.
  destruct (query_count q).
  - destruct Hcount as (totals & -> & Htotals).
    destruct totals as [|total others]; [discriminate|].
    intros [= <- <- _]. split; [reflexivity|].
    exists p. eexists. exists total, others.
    split; [reflexivity|]. split; [exact Hcq|]. split; [exact Htotals|].
    rewrite Hnl, Htop, Hskip.
    assert (Hlink : forall link,
               nextLink (host ++ js "/Property") (query_top q) (query_skip q)
                 q total = Some link -> truthy link = true).
    { unfold nextLink. intros link.
      destruct (roundDouble (query_skip q + query_top q) <? total)%Z; [|discriminate].
      intros [= <-]. destruct host; reflexivity. }
    assert (Hsafe : (query_skip q + query_top q < 2 ^ 53)%Z ->
                    roundDouble (query_skip q + query_top q)
                    = (query_skip q + query_top q)%Z).
    { intros Hlt. apply roundDouble_safe.
      pose proof (query_top_range q). pose proof (query_skip_nonneg q). lia. }
    destruct (nextLink (host ++ js "/Property") (query_top q) (query_skip q)
                q total) as [link|] eqn:El.
    + rewrite (Hlink link eq_refl). cbn [option_map].
      split; [reflexivity|]. split; [reflexivity|].
      assert (Hlt : (roundDouble (query_skip q + query_top q) < total)%Z).
      { unfold nextLink in El.
        destruct (Z.ltb_spec (roundDouble (query_skip q + query_top q)) total);
          [assumption|discriminate]. }
      split; [split; [intros _; exact Hlt|discriminate]|]. split.
      * intros Hs. rewrite (Hsafe Hs) in Hlt. split; [intros _; exact Hlt|discriminate].
      * intros _. do 3 f_equal. rewrite nextLink_text in El.
        destruct (roundDouble (query_skip q + query_top q) <? total)%Z; [|discriminate].
        injection El as <-. pose proof (query_top_range q) as Htq.
        rewrite (Number_toString_safe (query_top q)) by lia.
        rewrite (urlencode_nonnegative (query_top q)) by lia.
        rewrite <- app_assoc. reflexivity.
    + cbn [option_map].
      split; [reflexivity|]. split; [reflexivity|].
      assert (Hge : (total <= roundDouble (query_skip q + query_top q))%Z).
      { unfold nextLink in El.
        destruct (Z.ltb_spec (roundDouble (query_skip q + query_top q)) total);
          [discriminate|assumption]. }
      split; [split; [intros H; now destruct H|lia]|]. split.
      * intros Hs. rewrite (Hsafe Hs) in Hge. split; [intros H; now destruct H|lia].
      * lia.
  - subst countResult. intros [= <- <- _]. split; [reflexivity|]. split; reflexivity.
Qed.

Lemma property_list_links_witness :
  let db :=
    Database (fun _ _ => Fulfilled []) (fun _ _ => Fulfilled [250%Z])
      (fun _ _ => Fulfilled []) false in
  let query := Query None None (Some (js "true")) None None None None in
  exists body calls,
    property_list db (js "http://h/odata") query = (Json 200 body, calls)
    /\ obj_get body (js "@odata.count") = Some (JCell (CNumber 250))
    /\ obj_get body (js "@odata.nextLink")
       = Some (JCell (CString (js "http://h/odata/Property?%24top=100&%24skip=100&%24count=true"))).
Proof.
  intros db query.
  destruct (property_list db (js "http://h/odata") query) as [r calls] eqn:E.
  assert (Hr : exists body, r = Json 200 body).
  { vm_compute in E. injection E as <- _. eexists. reflexivity. }
  destruct Hr as [body ->]. exists body, calls. split; [reflexivity|].
  destruct (property_list_links db (js "http://h/odata") query 200 body calls E)
    as [_ (p & countText & total & others & _ & _ & Hc & Hcount & Hlink & _)].
  vm_compute in Hc. injection Hc as <- _. split; [exact Hcount|].
  rewrite Hlink. vm_compute. reflexivity.
Defined.


(** X24. A Member or Office page never carries [@odata.nextLink], whatever
    the request and however many rows remain.  It carries [@odata.count]
    exactly when [$count] is the string [true], and its [value] holds the
    rows of the data statement, reshaped, in their order. *)
Theorem collection_list_response (TABLE : jsstring) (fieldMap : jsobject jsstring)
  (KEY_FIELD : jsstring) (setName : string) (db : database) (host : jsstring)
  (q : query_options) (status : N) (body : entity) (calls : list call) :
  collection_list TABLE fieldMap KEY_FIELD setName db host q = (Json status body, calls) ->
  status = 200
  /\ obj_get body (js "@odata.nextLink") = None
  /\ (obj_get body (js "@odata.count") <> None <-> q_count q = Some (js "true"))
  /\ exists (p : plan) (recordset : list record),
       buildQuery (Options TABLE fieldMap q KEY_FIELD None None None) = Ok p
       /\ select db (dataQuery p) (plan_params p) = Fulfilled recordset
       /\ obj_get body (js "value")
          = Some (entities
                    (map (fun row => transformRow (cells row) (reverseFieldMap fieldMap))
                       recordset)).
Proof.
  unfold collection_list.
  destruct (buildQuery _) as [p|] eqn:Ep; [|discriminate].
  destruct (runBoth db p) as [[[recordset countResult]|err] issued] eqn:Er; [|discriminate].
  destruct (runBoth_count db p recordset countResult issued Er) as [Hdata Hcount].
  destruct (buildQuery_inv _ _ Ep) as (sf & wc & ob & _ & _ & _ & _ & _ & _ & Hcq & _).
  cbn [query table] in Hcq. rewrite Hcq in Hcount.
  assert (Hq : query_count q = true <-> q_count q = Some (js "true")).
  { unfold query_count. destruct (q_count q) as [c|]; [|split; discriminate].
    rewrite jsstring_eqb_eq. split; [now intros ->|now intros [= ->]]. }
  destruct (query_count q).
  - destruct Hcount as (totals & -> & _). destruct totals as [|total others]; [discriminate|].
    intros [= <- <- _]. split; [reflexivity|]. split; [reflexivity|]. split.
    + split; [intros _; now apply Hq|discriminate].
    + exists p, recordset. split; [reflexivity|]. split; [exact Hdata|reflexivity].
  - subst countResult. intros [= <- <- _].
    split; [reflexivity|]. split; [reflexivity|]. split.
    + split; [intros H; now destruct H|]. intros H. apply Hq in H. discriminate.
    + exists p, recordset. split; [reflexivity|]. split; [exact Hdata|reflexivity].
Qed.

Lemma collection_list_response_witness :
  let db :=
    Database (fun _ _ => Fulfilled [[(js "AGENTKEY", CNumber 7)]])
      (fun _ _ => Fulfilled [250%Z]) (fun _ _ => Fulfilled []) false in
  let q := Query (Some (js "1")) None (Some (js "true")) None None None None in
  exists body calls,
    member_list db (js "http://h/odata") q = (Json 200 body, calls)
    /\ obj_get body (js "@odata.count") <> None
    /\ obj_get body (js "@odata.nextLink") = None.
Proof.
  intros db q.
  destruct (member_list db (js "http://h/odata") q) as [r calls] eqn:E.
  assert (Hr : exists body, r = Json 200 body).
  { vm_compute in E. injection E as <- _. eexists. reflexivity. }
  destruct Hr as [body ->]. exists body, calls. split; [reflexivity|].
  destruct (collection_list_response Member.TABLE Member.fieldMap Member.KEY_FIELD
              "Member" db (js "http://h/odata") q 200 body calls E)
    as (_ & Hnext & Hcount & _).
  split; [|exact Hnext]. apply Hcount. reflexivity.
Defined.

(** X25. A collection request whose query options are rejected ([$expand],
    [$select], [$filter] or [$orderby] not accepted) issues no statement:
    the handler hands the parser's error to the error handler, which
    answers with status 500 and code [ServerError], the parser's message as
    the message. *)
Theorem rejected_options_answer (db : database) (host : jsstring) (q : query_options)
  (message : jsstring) :
  (Property.list host q = Throw message ->
   property_list db host q = (NextError (Error message), []))
  /\ (Member.list q = Throw message ->
      member_list db host q = (NextError (Error message), []))
  /\ (Office.list q = Throw message ->
      office_list db host q = (NextError (Error message), []))
  /\ errorHandler (Error message)
     = Json 500 [(js "error",
                  JObject [(js "code", JCell (CString (js "ServerError")));
                           (js "message", JCell (CString message))])].
Proof.
  split; [|split; [|split; [|reflexivity]]].
  - unfold Property.list, property_list.
    destruct (parseExpand (q_expand q) Property.ALLOWED_EXPANSIONS) as [expansions|m];
      cbn [bind]; [|now intros [= ->]].
    destruct (buildQuery _) as [p|m]; cbn [bind]; [discriminate|now intros [= ->]].
  - unfold Member.list, member_list, collection_list.
    destruct (buildQuery _) as [p|m]; cbn [bind]; [discriminate|now intros [= ->]].
  - unfold Office.list, office_list, collection_list.
    destruct (buildQuery _) as [p|m]; cbn [bind]; [discriminate|now intros [= ->]].
Qed.

Lemma rejected_options_answer_witness :
  let db :=
    Database (fun _ _ => Fulfilled []) (fun _ _ => Fulfilled [])
      (fun _ _ => Fulfilled []) false in
  member_list db (js "http://h/odata")
    (Query None None None (Some (js "Nope")) None None None)
  = (NextError (Error (js "Invalid field in $select: Nope")), []).
Proof.
  intros db.
  apply (rejected_options_answer db (js "http://h/odata")
           (Query None None None (Some (js "Nope")) None None None)
           (js "Invalid field in $select: Nope")).
  vm_compute. reflexivity.
Defined.


(* ================================================================== *)
(** * The listing redirect *)

(** The last piece of a split: the text after the last separator, or all of
    the text when it has none. *)
Lemma split_on_pop (sep : N) (s : jsstring) :
  exists prefix segment,
    pop (split_on sep s) = Some segment
    /\ s = prefix ++ segment
    /\ ~ In sep segment
    /\ match split_on sep s with
       | [_] => prefix = []
       | _ => exists before, prefix = before ++ [sep]
       end.
Proof.
  induction s as [|c s IH]; cbn [split_on].
  - exists [], []. repeat split; auto.
  - destruct IH as (prefix & segment & Hpop & Hs & Hseg & Hshape).
    destruct (N.eqb_spec c sep) as [->|Hc].
    + exists (sep :: prefix), segment.
      destruct (split_on sep s) as [|piece pieces] eqn:Esplit; [discriminate|].
      split; [exact Hpop|]. split; [now rewrite Hs|]. split; [exact Hseg|].
      destruct pieces as [|piece' pieces].
      * subst prefix. exists []. reflexivity.
      * destruct Hshape as [before ->]. exists (sep :: before). reflexivity.
    + destruct (split_on sep s) as [|piece pieces] eqn:Esplit; [discriminate|].
      destruct pieces as [|piece' pieces].
      * cbn [pop] in Hpop. injection Hpop as ->. subst prefix.
        exists [], (c :: segment). cbn [pop app] in *. subst s.
        split; [reflexivity|]. split; [reflexivity|]. split; [|reflexivity].
        intros [E|Hin]; [congruence|contradiction].
      * destruct Hshape as [before ->]. exists (c :: before ++ [sep]), segment.
        split; [exact Hpop|]. split; [now rewrite Hs|]. split; [exact Hseg|].
        exists (c :: before). reflexivity.
Qed.

(** X26. The redirect handler looks a listing up by the part of the route
    parameter after its last hyphen.  When that part has fewer than four
    characters it answers 400 and asks the database nothing.  Otherwise it
    issues one statement, binding the pattern [%] followed by that part and
    the [mls] of the query string ([null] when absent or empty), and answers
    with a redirect to the base URL followed by the URL of the first row;
    404 when there is no row or its URL is empty, 500 when the statement is
    rejected. *)
Theorem listing_redirect (baseUrl : jsstring) (db : database) (text : jsstring)
  (mlsQuery : option jsstring) :
  exists prefix segment : jsstring,
    text = prefix ++ segment
    /\ ~ In 45 segment
    /\ (prefix = [] \/ exists before, prefix = before ++ [45])
    /\ if (List.length segment <? 4)%nat then
         listing baseUrl db (Some text) mlsQuery = (Status 400, [])
       else
         let bound :=
           [(js "mlsnumber", JCell (CString (js "%" ++ segment)));
            (js "mls",
             JCell match mlsQuery with
                   | Some (c :: mls) => CString (c :: mls)
                   | _ => CNull
                   end)] in
         snd (listing baseUrl db (Some text) mlsQuery) = [WithCells listingQuery bound]
         /\ fst (listing baseUrl db (Some text) mlsQuery)
            = match withCells db listingQuery bound with
              | Rejected _ => Status 500
              | Fulfilled [] => Status 404
              | Fulfilled (row :: _) =>
                  match obj_get row (js "LISTINGDETAILURL") with
                  | Some url =>
                      if cell_truthy url then Redirect (baseUrl ++ cell_toString url)
                      else Status 404
                  | None => Status 404
                  end
              end.
Proof.
  destruct (split_on_pop 45 text) as (prefix & segment & Hpop & Htext & Hseg & Hshape).
  exists prefix, segment. split; [exact Htext|]. split; [exact Hseg|]. split.
  { destruct (split_on 45 text) as [|piece [|piece' pieces]]; auto. }
  unfold listing. rewrite Hpop.
  destruct (List.length segment <? 4)%nat eqn:Elen.
  - now rewrite orb_true_r.
  - assert (Htruthy : truthy segment = true).
    { destruct segment; [discriminate|reflexivity]. }
    rewrite Htruthy. cbn [negb orb].
    assert (Hmls : (if truthy_opt mlsQuery then CString (template mlsQuery) else CNull)
                   = match mlsQuery with
                     | Some (c :: mls) => CString (c :: mls)
                     | _ => CNull
                     end).
    { destruct mlsQuery as [[|c mls]|]; reflexivity. }
    rewrite Hmls. cbv zeta.
    destruct (withCells db listingQuery _) as [[|row rows]|err]; cbn [fst snd];
      [split; reflexivity| |split; reflexivity].
    destruct (obj_get row (js "LISTINGDETAILURL")) as [url|]; cbn [cell_truthy].
    + destruct (cell_truthy url); split; reflexivity.
    + split; reflexivity.
Qed.


(** X27. Tokens do not interfere.  A request changes nothing the store
    holds for a token other than the one it presents, and the token
    endpoint changes nothing the tables hold for tokens other than the ones
    it generated or was handed: no request revokes, extends or re-assigns
    somebody else's token. *)
Theorem tokens_isolated (CLIENT_ID CLIENT_SECRET : option jsstring) (other : jsstring) :
  (forall (authorization : option jsstring) (store : Auth.token_store) (now : Z),
      authorization <> Some (js "Bearer " ++ other) ->
      obj_get (snd (fst (Auth.middleware CLIENT_ID CLIENT_SECRET authorization store now)))
        other
      = obj_get store other)
  /\ (forall (b : TokenEndpoint.body) (accessToken refreshToken : jsstring)
        (now1 now2 : Z) (st : TokenEndpoint.stores),
         let st' :=
           snd (TokenEndpoint.tokenHandler CLIENT_ID CLIENT_SECRET b accessToken
                  refreshToken now1 now2 st) in
         (other <> accessToken ->
          obj_get (TokenEndpoint.accessTokens st') other
          = obj_get (TokenEndpoint.accessTokens st) other)
         /\ (other <> refreshToken ->
             TokenEndpoint.refresh_token b <> Some other ->
             obj_get (TokenEndpoint.refreshTokens st') other
             = obj_get (TokenEndpoint.refreshTokens st) other)).
Proof.
  split.
  - intros authorization store now Hother. unfold Auth.middleware.
    destruct (negb (truthy_opt CLIENT_ID) || negb (truthy_opt CLIENT_SECRET));
      [reflexivity|].
    destruct authorization as [authHeader|]; [|reflexivity].
    destruct (truthy authHeader); cbn [negb orb]; [|reflexivity].
    destruct (Auth.startsWith authHeader (js "Bearer ")) eqn:Es; cbn [negb];
      [|reflexivity].
    apply startsWith_split in Es. change (List.length (js "Bearer ")) with 7%nat in Es.
    assert (Hne : other <> skipn 7 authHeader).
    { intros ->. apply Hother. now f_equal. }
    destruct (obj_get store (skipn 7 authHeader)) as [tokenData|]; [|reflexivity].
    destruct (Auth.expiresAt tokenData <? now)%Z; cbn [fst snd]; [|reflexivity].
    apply (get_delete_other store _ _ Hne).
  - intros b accessToken refreshToken now1 now2 st st'. subst st'.
    unfold TokenEndpoint.tokenHandler.
    destruct (match TokenEndpoint.grant_type b with
              | Some g => jsstring_eqb g (js "refresh_token")
              | None => false
              end).
    { unfold TokenEndpoint.handleRefreshToken.
      destruct (truthy_opt (TokenEndpoint.refresh_token b)) eqn:Et; cbn [negb snd];
        [|split; reflexivity].
      destruct (TokenEndpoint.refresh_token b) as [presented|]; [|discriminate].
      cbn [template].
      destruct (TokenStore.getRefreshToken (TokenEndpoint.refreshTokens st) presented)
        as [tokenData|]; cbn [snd]; [|split; reflexivity].
      destruct (Auth.expiresAt tokenData <? now1)%Z;
        cbn [snd TokenEndpoint.accessTokens TokenEndpoint.refreshTokens].
      - split; [reflexivity|]. intros _ Hp. unfold TokenStore.deleteRefreshToken,
          TokenStore.deleteToken. apply get_delete_other. congruence.
      - split; [|reflexivity]. intros Hne. now apply get_saveToken_other. }
    destruct (match TokenEndpoint.grant_type b with
              | Some g => negb (jsstring_eqb g (js "client_credentials"))
              | None => true
              end); [split; reflexivity|].
    destruct (negb (truthy_opt CLIENT_ID) || negb (truthy_opt CLIENT_SECRET));
      [split; reflexivity|].
    destruct (TokenEndpoint.differs (TokenEndpoint.client_id b) CLIENT_ID
              || TokenEndpoint.differs (TokenEndpoint.client_secret b) CLIENT_SECRET);
      [split; reflexivity|].
    cbn [snd TokenEndpoint.accessTokens TokenEndpoint.refreshTokens]. split.
    + intros Hne. now apply get_saveToken_other.
    + intros Hne _. unfold TokenStore.saveRefreshToken. now apply get_saveToken_other.
Qed.

Lemma tokens_isolated_witness :
  let store :=
    [(js "a1", Auth.TokenData (js "c1") 1000); (js "a2", Auth.TokenData (js "c2") 9000)] in
  obj_get
    (snd (fst (Auth.middleware (Some (js "id")) (Some (js "secret"))
                 (Some (js "Bearer a1")) store 5000)))
    (js "a2")
  = Some (Auth.TokenData (js "c2") 9000).
Proof.
  intros store.
  destruct (tokens_isolated (Some (js "id")) (Some (js "secret")) (js "a2")) as [H _].
  rewrite (H (Some (js "Bearer a1")) store 5000%Z); [reflexivity|discriminate].
Defined.


(* ================================================================== *)
(** * Function calls in a filter *)

Lemma tokenizeFilter_paren_open (rest : jsstring) :
  tokenizeFilter (40 :: rest) = prefix_tokens [TParen (js "(")] (tokenizeFilter rest).
Proof. now rewrite tokenizeFilter_unfold. Qed.

Lemma tokenizeFilter_paren_close (rest : jsstring) :
  tokenizeFilter (41 :: rest) = prefix_tokens [TParen (js ")")] (tokenizeFilter rest).
Proof. now rewrite tokenizeFilter_unfold. Qed.

Lemma tokenizeFilter_comma (rest : jsstring) :
  tokenizeFilter (44 :: rest) = prefix_tokens [TComma] (tokenizeFilter rest).
Proof. now rewrite tokenizeFilter_unfold. Qed.

(** X28. A call of [contains], [startswith] or [endswith] on a known field
    with a string literal compiles, for every value of the literal, to
    [<column> LIKE @filter0]; the parameter is the value as it stands with
    [%] on both sides, after it, or before it.  The value is not escaped:
    a [%] or [_] in it reaches the LIKE pattern as a wildcard.  The field
    is a key of the field map that the lexer reads as an identifier: it
    starts with a letter or an underscore, goes on with letters, digits and
    underscores, and is not, in any letter case, one of the words [eq],
    [ne], [gt], [ge], [lt], [le], [and], [or], [not], [contains],
    [startswith], [endswith], [null], [true], [false]. *)
Theorem parseFilter_function_call (fm : jsobject jsstring) (f : string)
  (field column value : jsstring) :
  In f functions ->
  is_field_word field ->
  obj_get fm field = Some column ->
  parseFilter (Some (js f ++ js "(" ++ field ++ js "," ++ quoteLiteral value ++ js ")")) fm
  = Ok (Fragment (column ++ js " LIKE @filter0")
          [(js "filter0", like_pattern (js f) value)]).
Proof.
  intros Hf Hword Hcol.
  assert (Hkey : has_key fm field = true).
  { unfold has_key, obj_keys. apply existsb_exists. exists field. split.
    - apply in_map_iff. exists (field, column). split; [reflexivity|].
      now apply get_In.
    - apply jsstring_eqb_refl. }
  assert (Hargs : tokenizeFilter (40 :: field ++ 44 :: quoteLiteral value ++ js ")")
                  = Ok [TParen (js "("); TIdentifier field; TComma; TString value;
                        TParen (js ")")]).
  { rewrite tokenizeFilter_paren_open.
    destruct field as [|c field]; [contradiction|].
    destruct Hword as (Hstart & Hchars & Hclass).
    rewrite tokenizeFilter_word; [|exact Hstart|exact Hchars|reflexivity].
    rewrite Hclass, tokenizeFilter_comma.
    rewrite (tokenizeFilter_literal_then value (js ")")); [|reflexivity].
    change (js ")") with [41]. rewrite tokenizeFilter_paren_close.
    rewrite tokenizeFilter_unfold. reflexivity. }
  assert (Htokens : tokenizeFilter
                      (js f ++ js "(" ++ field ++ js "," ++ quoteLiteral value ++ js ")")
                    = Ok [TFunction (js f); TParen (js "("); TIdentifier field; TComma;
                          TString value; TParen (js ")")]).
  { change (js "(" ++ field ++ js "," ++ quoteLiteral value ++ js ")")
      with (40 :: field ++ 44 :: quoteLiteral value ++ js ")").
    destruct Hf as [<-|[<-|[<-|[]]]];
      (rewrite tokenizeFilter_word; [|reflexivity|repeat constructor|reflexivity]);
      rewrite Hargs; reflexivity. }
  unfold parseFilter.
  destruct (js f ++ js "(" ++ field ++ js "," ++ quoteLiteral value ++ js ")")
    as [|c rest] eqn:E.
  { destruct Hf as [<-|[<-|[<-|[]]]]; discriminate. }
  rewrite Htokens. cbn [bind]. unfold parseFilterTokens.
  rewrite (parseLoop_call fm (js f) field value [] _ Hkey), Hcol.
  cbn [parseLoop bind template].
  destruct Hf as [<-|[<-|[<-|[]]]]; unfold applyFunction, like_pattern;
    repeat match goal with
      | |- context [jsstring_eqb (js ?a) (js ?b)] =>
          let v := eval vm_compute in (jsstring_eqb (js a) (js b)) in
          change (jsstring_eqb (js a) (js b)) with v
      end;
    cbv iota; cbn [bindParam st_sql st_params paramIndex app obj_set];
    rewrite <- app_assoc; reflexivity.
Qed.

Lemma parseFilter_function_call_witness :
  parseFilter (Some (js "contains(City,'100%')")) Property.fieldMap
  = Ok (Fragment (js "CITY LIKE @filter0") [(js "filter0", VString (js "%100%%"))]).
Proof.
  apply (parseFilter_function_call Property.fieldMap "contains" (js "City") (js "CITY")
           (js "100%")).
  - left. reflexivity.
  - split; [reflexivity|]. split; [repeat constructor|reflexivity].
  - reflexivity.
Defined.


(* ================================================================== *)
(** * The filter compiler works left to right *)

Lemma parseLoop_app_bounded (fm : jsobject jsstring) (n : nat) :
  forall (t1 t2 : list token) (st st1 : compiler_state),
    (List.length t1 <= n)%nat ->
    parseLoop fm t1 st = Ok st1 ->
    parseLoop fm (t1 ++ t2) st = parseLoop fm t2 st1.
Proof.
  induction n as [|n IH]; intros t1 t2 st st1 Hlen H.
  { destruct t1; [|cbn [List.length] in Hlen; lia]. now injection H as <-. }
  destruct t1 as [|t rest]; [now injection H as <-|].
  cbn [List.length] in Hlen.
  destruct t as [field|v|v|f|v|text|v|v|v|].
  4:{ apply parseLoop_call_inv in H as (field & v & rest5 & -> & Ek & H).
      cbn [app]. rewrite (parseLoop_call fm f field v (rest5 ++ t2) st Ek).
      apply (IH rest5 t2 _ st1); [cbn [List.length] in Hlen; lia|exact H]. }
  all: cbn [parseLoop app] in *.
  - destruct (has_key fm field); [|discriminate].
    apply (IH rest t2 _ st1); [lia|exact H].
  - apply (IH rest t2 _ st1); [lia|exact H].
  - apply (IH rest t2 _ st1); [lia|exact H].
  - apply (IH rest t2 _ st1); [lia|exact H].
  - apply (IH rest t2 _ st1); [lia|exact H].
  - apply (IH rest t2 _ st1); [lia|exact H].
  - apply (IH rest t2 _ st1); [lia|exact H].
  - apply (IH rest t2 _ st1); [lia|exact H].
  - discriminate.
Qed.

(** X29. The filter compiler works strictly left to right: once a token
    sequence is accepted, compiling it followed by any further tokens goes
    on from the state the accepted part left, with its SQL text, its
    parameters under their names and its parameter counter.  What follows
    an accepted part can neither change nor reject what was compiled. *)
Theorem parseLoop_sequential (fm : jsobject jsstring) (accepted more : list token)
  (st st1 : compiler_state) :
  parseLoop fm accepted st = Ok st1 ->
  parseLoop fm (accepted ++ more) st = parseLoop fm more st1.
Proof.
  intros H. apply (parseLoop_app_bounded fm (List.length accepted)); [apply le_n|exact H].
Qed.

Lemma parseLoop_sequential_witness :
  parseLoop Property.fieldMap
    ([TIdentifier (js "City"); TOperator (js "eq"); TString (js "Miami")]
     ++ [TLogical (js "and"); TIdentifier (js "ListPrice"); TOperator (js "gt");
         TNumber (js "5")])
    (State [] [] 0)
  = parseLoop Property.fieldMap
      [TLogical (js "and"); TIdentifier (js "ListPrice"); TOperator (js "gt");
       TNumber (js "5")]
      (State (js "CITY = @filter0") [(js "filter0", VString (js "Miami"))] 1).
Proof.
  apply (parseLoop_sequential Property.fieldMap
           [TIdentifier (js "City"); TOperator (js "eq"); TString (js "Miami")]).
  vm_compute. reflexivity.
Defined.
